(** * logseq-samepage: the page <-> flat annotated document transcoder

    A shallow embedding of [src/protocols/sharePageWithNotebook.ts]:
    the encoder [calculateState] / [toAtJson], the annotation serializer
    and the reconciler [applyState], with the properties of the
    specification stated over them.

    Conventions.
    - JavaScript numbers that hold offsets, levels and sibling indices are
      integers [Z]; strings are [string], one character per unit of
      [String.length]; an [Automerge.Text] is the string of its elements.
    - A JavaScript object used as an ordered record ([Record<string, V>],
      [Object.fromEntries], [Object.entries]) is an association list kept in
      the engine's own-key order.
    - The two IndexedDB object stores of identifier pairs are finite maps.
    - The Logseq editor is an interface: every call returns either a
      rejection message or a value, together with the next host state. *)

From Stdlib Require Import ZArith Ascii String List Lia Bool Sorted.
From stdpp Require Import base option list gmap strings.

Import ListNotations.
Local Open Scope string_scope.
Local Open Scope list_scope.
Local Open Scope Z_scope.
Set Warnings "-register-all".

(** * Part I: the program *)

(** ** JavaScript strings *)

Module Js.

Definition len (s : string) : Z := Z.of_nat (String.length s).

(** Relative index resolution of [String.prototype.slice] and
    [Array.prototype.slice]: a negative index counts from the end, and the
    result is clamped to the bounds. *)
Definition slice_index (n i : Z) : Z :=
  if i <? 0 then Z.max (n + i) 0 else Z.min i n.

Definition slice (s : string) (b e : Z) : string :=
  let from := slice_index (len s) b in
  let to := slice_index (len s) e in
  String.substring (Z.to_nat from) (Z.to_nat (to - from)) s.

(** [s.slice(b)] *)
Definition slice_from (s : string) (b : Z) : string := slice s b (len s).

(** Truthiness of a string: only the empty string is falsy. *)
Definition truthy (s : string) : bool :=
  match s with EmptyString => false | String _ _ => true end.

(** [s || d] on strings. *)
Definition or_else (s d : string) : string := if truthy s then s else d.

Fixpoint drop (n : nat) (s : string) : string :=
  match n, s with
  | S n', String _ s' => drop n' s'
  | _, _ => s
  end.

(** [Some rest] when [s = p ++ rest]. *)
Fixpoint strip_prefix (p s : string) : option string :=
  match p, s with
  | EmptyString, _ => Some s
  | String a p', String b s' => if Ascii.eqb a b then strip_prefix p' s' else None
  | String _ _, EmptyString => None
  end.

(** Number of leading characters of [s] that satisfy [p]. *)
Fixpoint count_while (p : ascii -> bool) (s : string) : nat :=
  match s with
  | String c s' => if p c then S (count_while p s') else O
  | EmptyString => O
  end.

End Js.

(** ** Data model *)

Inductive ViewType := bullet | numbered | document.

(** [Schema["annotations"][number]]: a union discriminated by [type]; the
    constructor carries the attributes of its variant. *)
Inductive AnnotationType :=
| block (identifier : string) (level : Z) (viewType : ViewType)
| metadata (title parent : string)
| bold
| highlighting
| italics
| strikethrough
| link (href : string)
| inline (name : string).

Record Annotation := mkAnnotation {
  start : Z;
  end_ : Z;
  type : AnnotationType
}.

(** [InputSchema]; the [content] of a [Schema] is an [Automerge.Text], read
    here as the string of its elements. *)
Record InputSchema := mkSchema {
  content : string;
  annotations : list Annotation
}.

(** ** The annotation serializer (the [reduce] inside [applyState]) *)

Module Serializer.

Record Applied := mkApplied { prefix : string; suffix : string }.

Definition appliedAnnotation (c : Annotation) : Applied :=
  match type c with
  | bold => mkApplied "**" "**"
  | highlighting => mkApplied "^^" "^^"
  | italics => mkApplied "_" "_"
  | strikethrough => mkApplied "~~" "~~"
  | link href => mkApplied "[" ("](" +:+ href +:+ ")")
  | _ => mkApplied "" ""
  end.

(** The body of [all.slice(index + 1).forEach]: one later annotation [a]
    moved past the delimiters inserted for [c]. The slice copies the array,
    not the objects, so the update reaches the elements the reducer visits
    next. *)
Definition shift (c : Annotation) (ap : Applied) (a : Annotation) : Annotation :=
  let pl := Js.len (prefix ap) in
  let sl := Js.len (suffix ap) in
  {| start := start a
              + ((if start a >=? start c then pl else 0)
                 + (if start a >=? end_ c then sl else 0));
     end_ := end_ a
             + ((if end_ a >=? start c then pl else 0)
                + (if end_ a >? end_ c then sl else 0));
     type := type a |}.

(** The string the reducer returns for accumulator [p] and annotation [c]. *)
Definition wrap (p : string) (c : Annotation) (ap : Applied) : string :=
  Js.slice p 0 (start c) +:+ prefix ap
    +:+ Js.slice p (start c) (end_ c) +:+ suffix ap
    +:+ Js.slice_from p (end_ c).

(** One callback of the reducer: the new accumulator and the annotations
    still to be applied, already shifted. *)
Definition step (p : string) (c : Annotation) (later : list Annotation)
  : string * list Annotation :=
  let ap := appliedAnnotation c in
  (wrap p c ap, map (shift c ap) later).

(** [all.reduce(callback, p)]; [n] counts the callbacks left, one per
    element. *)
Fixpoint reduce (n : nat) (p : string) (all : list Annotation) : string :=
  match n, all with
  | S n', c :: later =>
      let '(p', later') := step p c later in reduce n' p' later'
  | _, _ => p
  end.

Definition annotatedText (text : string) (normalizedAnnotations : list Annotation)
  : string :=
  reduce (List.length normalizedAnnotations) text normalizedAnnotations.

End Serializer.

(** ** The regular expressions of the source *)

Module Regex.

Definition newline : ascii := "010"%char.
Definition nl : string := String newline "".

Definition code (c : ascii) : nat := nat_of_ascii c.

(** [[a-z]] *)
Definition is_lower (c : ascii) : bool :=
  (Nat.leb 97 (code c) && Nat.leb (code c) 122)%bool.

(** [[0-9a-f]] *)
Definition is_hex (c : ascii) : bool :=
  ((Nat.leb 48 (code c) && Nat.leb (code c) 57)
   || (Nat.leb 97 (code c) && Nat.leb (code c) 102))%bool.

(** [[^\n]] *)
Definition not_newline (c : ascii) : bool := negb (Ascii.eqb c newline).

(** A pattern is given by its matcher at the head of a string: the length of
    the match when there is one. *)
Definition Pattern := string -> option nat.

(** [/[a-z]+:: [^\n]+\n?/] at the head of [s]. Every quantifier is greedy
    and none has to give characters back: the character after the longest
    run of lower-case letters is not a letter, so a shorter run cannot be
    followed by the colon, and after the longest run of non-newline
    characters the optional newline always succeeds. *)
Definition property (s : string) : option nat :=
  let k := Js.count_while is_lower s in
  match k with
  | O => None
  | S _ =>
      match Js.strip_prefix ":: " (Js.drop k s) with
      | None => None
      | Some r =>
          let v := Js.count_while not_newline r in
          match v with
          | O => None
          | S _ =>
              let tail :=
                match Js.drop v r with
                | String c _ => if Ascii.eqb c newline then 1%nat else 0%nat
                | EmptyString => 0%nat
                end in
              Some (k + 3 + v + tail)%nat
          end
      end
  end.

(** [new RegExp("\nid:: " + uuid)]. Block uuids are written with
    hexadecimal digits and dashes, none of which is a metacharacter: the
    pattern is the literal text. *)
Definition id_line (uuid : string) (s : string) : option nat :=
  match Js.strip_prefix (nl +:+ "id:: " +:+ uuid) s with
  | Some _ => Some (String.length (nl +:+ "id:: " +:+ uuid))
  | None => None
  end.

(** [/\ntitle:: [^\n]+/] *)
Definition title_line (s : string) : option nat :=
  match Js.strip_prefix (nl +:+ "title:: ") s with
  | None => None
  | Some r =>
      match Js.count_while not_newline r with
      | O => None
      | S v => Some (String.length (nl +:+ "title:: ") + S v)%nat
      end
  end.

(** [n] characters of [[0-9a-f]] at the head of [s]. *)
Fixpoint hex_run (n : nat) (s : string) : option string :=
  match n with
  | O => Some s
  | S n' =>
      match s with
      | String c s' => if is_hex c then hex_run n' s' else None
      | EmptyString => None
      end
  end.

Definition dash (s : string) : option string := Js.strip_prefix "-" s.

(** [/\nsamepage:: [0-9a-f]{8}-[0-9a-f]{4}-[0-9a-f]{4}-[0-9a-f]{4}-[0-9a-f]{12}/] *)
Definition samepage_line (s : string) : option nat :=
  match Js.strip_prefix (nl +:+ "samepage:: ") s with
  | None => None
  | Some r =>
      match
        r1 ← hex_run 8 r; r2 ← dash r1; r3 ← hex_run 4 r2; r4 ← dash r3;
        r5 ← hex_run 4 r4; r6 ← dash r5; r7 ← hex_run 4 r6; r8 ← dash r7;
        hex_run 12 r8
      with
      | Some _ => Some (String.length (nl +:+ "samepage:: ") + 36)%nat
      | None => None
      end
  end.

(** [s.replace(re, "")] for a pattern without the [g] flag: the leftmost
    match is removed. *)
Fixpoint remove_first (re : Pattern) (s : string) : string :=
  match re s with
  | Some n => Js.drop n s
  | None =>
      match s with
      | String c s' => String c (remove_first re s')
      | EmptyString => EmptyString
      end
  end.

(** [s.replace(re, "")] for a pattern with the [g] flag: matches are looked
    for from left to right, each search starting where the previous match
    ended. [skip] is the number of characters of the current match still to
    pass. *)
Fixpoint remove_all_from (re : Pattern) (skip : nat) (s : string) : string :=
  match s with
  | EmptyString => EmptyString
  | String c s' =>
      match skip with
      | S k => remove_all_from re k s'
      | O =>
          match re s with
          | Some (S k) => remove_all_from re k s'
          | _ => String c (remove_all_from re O s')
          end
      end
  end.

Definition remove_all (re : Pattern) (s : string) : string :=
  remove_all_from re O s.

End Regex.

(** ** Block trees *)

(** A node with its own fields apart and its [children] as a list: the
    shape [{ children, ...t }] that [flattenTree] destructures. *)
Inductive Tree (A : Type) := Node (fields : A) (children : list (Tree A)).
Arguments Node {A} fields children.

Definition fields {A} (t : Tree A) : A := match t with Node f _ => f end.
Definition children {A} (t : Tree A) : list (Tree A) :=
  match t with Node _ ch => ch end.

(** All nodes of a forest, parents before children, left to right. *)
Fixpoint tree_nodes {A} (t : Tree A) : list A :=
  match t with Node f ch => f :: concat (map tree_nodes ch) end.
Definition forest_nodes {A} (l : list (Tree A)) : list A :=
  concat (map tree_nodes l).

Fixpoint tree_map {A B} (f : A -> B) (t : Tree A) : Tree B :=
  match t with Node a ch => Node (f a) (map (tree_map f) ch) end.

Module BlockEntity.
(** The fields of a Logseq [BlockEntity] the protocol reads. [parent_id] is
    [parent.id], [properties_samepage] is [properties?.samepage]. The host
    delivers page trees with their children expanded. *)
Record t := mk {
  uuid : string;
  content : string;
  parent_id : Z;
  properties_samepage : option string;
  viewType : option ViewType
}.
End BlockEntity.

Definition BlockEntity := Tree BlockEntity.t.

Module PageEntity.
Record t := mk {
  uuid : string;
  originalName : string
}.
End PageEntity.

Module InputTextNode.
(** [addr] is the identity of the JavaScript object: [applyState] reaches a
    node both through the tree and through [mapping], and assigns to its
    [content] through the latter. *)
Record t := mk {
  addr : nat;
  content : string;
  uuid : string;
  viewType : ViewType
}.
Definition set_content (s : string) (n : t) : t :=
  mk (addr n) s (uuid n) (viewType n).
End InputTextNode.

Definition InputTextNode := Tree InputTextNode.t.

(** An element of [flattenTree]'s result: [{ ...t, order, parentUuid }]. *)
Record Flat (A : Type) := mkFlat {
  node : A;
  order : nat;
  parentUuid : string
}.
Arguments mkFlat {A} node order parentUuid.
Arguments node {A} f.
Arguments order {A} f.
Arguments parentUuid {A} f.

(** [l.flatMap((x, i) => f(i, x))], with [i] counted from [from]. *)
Definition flatMap_indexed {A B} (f : nat -> A -> list B) : nat -> list A -> list B :=
  fix go (from : nat) (l : list A) : list B :=
    match l with
    | [] => []
    | x :: l' => f from x ++ go (S from) l'
    end.

Section FlattenTree.
Context {A : Type} (uuid : A -> string).

Fixpoint flattenNode (parentUuid : string) (order : nat) (t : Tree A)
  : list (Flat A) :=
  match t with
  | Node f ch =>
      mkFlat f order parentUuid
        :: flatMap_indexed (flattenNode (Js.or_else (uuid f) "")) O ch
  end.

Definition flattenTree (tree : list (Tree A)) (parentUuid : string)
  : list (Flat A) :=
  flatMap_indexed (flattenNode parentUuid) O tree.

End FlattenTree.

(** [isContentBlock]: [!b.content || b.content.replace(/[a-z]+:: [^\\n]+\\n?/g, "")],
    read for its truthiness, as [Array.prototype.filter] does. *)
Definition isContentBlock (b : BlockEntity) : bool :=
  let c := BlockEntity.content (fields b) in
  (negb (Js.truthy c) || Js.truthy (Regex.remove_all Regex.property c))%bool.

(** The [preContent] of [toAtJson]. *)
Definition preContent (uuid content : string) : string :=
  Regex.remove_first Regex.samepage_line
    (Regex.remove_first Regex.title_line
       (Regex.remove_first (Regex.id_line uuid) content)).

(** ** JavaScript objects used as ordered records *)

Module JsRecord.

Definition t (V : Type) := list (string * V).

Definition is_digit (c : ascii) : bool :=
  (Nat.leb 48 (nat_of_ascii c) && Nat.leb (nat_of_ascii c) 57)%bool.

Fixpoint digits_value (acc : N) (s : string) : option N :=
  match s with
  | EmptyString => Some acc
  | String c s' =>
      if is_digit c
      then digits_value (acc * 10 + N.of_nat (nat_of_ascii c - 48))%N s'
      else None
  end.

(** The array index a property key denotes, if any: the canonical decimal
    form of an integer below [2^32 - 1]. *)
Definition array_index (k : string) : option N :=
  match k with
  | EmptyString => None
  | String c rest =>
      if (Ascii.eqb c "0" && Js.truthy rest)%bool then None
      else if Nat.ltb 10 (String.length k) then None
      else
        match digits_value 0%N k with
        | Some n => if (n <? 4294967295)%N then Some n else None
        | None => None
        end
  end.

Section Ops.
Context {V : Type}.

Definition get (k : string) (r : t V) : option V :=
  snd <$> List.find (fun e => String.eqb (fst e) k) r.

Definition has (k : string) (r : t V) : bool :=
  match get k r with Some _ => true | None => false end.

(** Assignment to a key the object already has: the key keeps its place. *)
Fixpoint overwrite (k : string) (v : V) (r : t V) : t V :=
  match r with
  | [] => []
  | (k', v') :: r' =>
      if String.eqb k' k then (k, v) :: r' else (k', v') :: overwrite k v r'
  end.

(** A new key that is an array index goes before the first key that is a
    larger index or no index at all. *)
Fixpoint insert_index (n : N) (k : string) (v : V) (r : t V) : t V :=
  match r with
  | [] => [(k, v)]
  | (k', v') :: r' =>
      match array_index k' with
      | Some n' =>
          if (n' <? n)%N then (k', v') :: insert_index n k v r'
          else (k, v) :: r
      | None => (k, v) :: r
      end
  end.

(** An own property [k] defined with value [v], as [Object.fromEntries]
    does for each entry. Own keys are kept in the order [Object.keys]
    reports them: array indices ascending, then the other keys in creation
    order. *)
Definition define (k : string) (v : V) (r : t V) : t V :=
  if has k r then overwrite k v r
  else
    match array_index k with
    | Some n => insert_index n k v r
    | None => r ++ [(k, v)]
    end.

(** [r[k] = v]. The key ["__proto__"] is the accessor every object
    inherits: unless the object has an own property of that name, the
    assignment goes to the setter, which replaces the prototype when [v] is
    an object and does nothing otherwise; no own key is made. The
    prototype is never read here: the protocol looks such a record up at
    its own keys, and at [""], which no prototype has. *)
Definition set (k : string) (v : V) (r : t V) : t V :=
  if has k r then overwrite k v r
  else if String.eqb k "__proto__" then r
  else define k v r.

Definition fromEntries (es : list (string * V)) : t V :=
  fold_left (fun r e => define (fst e) (snd e) r) es [].

Definition keys (r : t V) : list string := map fst r.
Definition values (r : t V) : list V := map snd r.
Definition entries (r : t V) : list (string * V) := r.

End Ops.
End JsRecord.

(** ** The host: Logseq's editor, and the identifier stores *)

(** What [Editor.getBlock] is given: a database id, a uuid, or [undefined]
    when the uuid was looked up in a record that does not have it. *)
Inductive BlockKey := ById (id : Z) | ByUuid (uuid : string) | ByUndefined.

Definition key_of (u : option string) : BlockKey :=
  match u with Some s => ByUuid s | None => ByUndefined end.

(** The calls the protocol makes. [GetPageByPropertyId] is the query of
    [util/getPageByPropertyId]: the page that carries the notebook page id. *)
Inductive HostCall :=
| GetPageByPropertyId (id : string)
| GetPage (id : Z)
| GetBlock (key : BlockKey) (includeChildren : bool)
| GetPageBlocksTree (page : string)
| UpdateBlock (uuid content : string)
| RenamePage (oldName : option string) (newName : string)
| UpsertBlockProperty (uuid key value : string)
| RemoveBlock (uuid : string)
| InsertBlock (srcBlock content : string) (before : bool)
| AppendBlockInPage (page : option string) (content : string)
| MoveBlock (srcBlock : string) (targetBlock : option string).

(** What each call resolves with; [None] is [null]. *)
Definition Response (c : HostCall) : Type :=
  match c with
  | GetPageByPropertyId _ | GetPage _ => option PageEntity.t
  | GetBlock _ _ => option BlockEntity
  | GetPageBlocksTree _ => option (list BlockEntity)
  | InsertBlock _ _ _ | AppendBlockInPage _ _ => option BlockEntity
  | UpdateBlock _ _ | RenamePage _ _ | UpsertBlockProperty _ _ _
  | RemoveBlock _ | MoveBlock _ _ => unit
  end.

(** The calls that change the notebook. *)
Definition is_mutation (c : HostCall) : bool :=
  match c with
  | UpdateBlock _ _ | RenamePage _ _ | UpsertBlockProperty _ _ _
  | RemoveBlock _ | InsertBlock _ _ _ | AppendBlockInPage _ _
  | MoveBlock _ _ => true
  | _ => false
  end.

(** A settled promise: resolved with a value, or rejected with an error, of
    which the protocol reads the [message]. *)
Inductive Outcome (A : Type) := Resolved (a : A) | Rejected (message : string).
Arguments Resolved {A} a.
Arguments Rejected {A} message.

(** A notebook host with states [H]: each call settles and leaves the host
    in a next state. *)
Class Editor (H : Type) :=
  perform : forall c : HostCall, H -> Outcome (Response c) * H.

Record World (H : Type) := mkWorld {
  host : H;
  (** the calls made so far, oldest first *)
  calls : list HostCall;
  (** the object stores ["logseq-to-samepage"] and ["samepage-to-logseq"] *)
  logseq_to_samepage : gmap string string;
  samepage_to_logseq : gmap string string;
  (** how many uuids [v4] has produced *)
  drawn : nat
}.
Arguments mkWorld {H} host calls logseq_to_samepage samepage_to_logseq drawn.
Arguments host {H} w.
Arguments calls {H} w.
Arguments logseq_to_samepage {H} w.
Arguments samepage_to_logseq {H} w.
Arguments drawn {H} w.

(** An asynchronous computation: run from a world, it settles and leaves a
    world behind. Nothing is undone when it rejects. *)
Definition Promise (H A : Type) : Type := World H -> Outcome A * World H.

Section Promises.
Context {H : Type}.

Definition resolve {A} (a : A) : Promise H A := fun w => (Resolved a, w).
Definition reject {A} (message : string) : Promise H A :=
  fun w => (Rejected message, w).

(** [p.then(k)] *)
Definition and_then {A B} (p : Promise H A) (k : A -> Promise H B)
  : Promise H B :=
  fun w =>
    match p w with
    | (Resolved a, w') => k a w'
    | (Rejected m, w') => (Rejected m, w')
    end.

(** [p.catch(k)], [k] being given the message of the error. *)
Definition catch {A} (p : Promise H A) (k : string -> Promise H A)
  : Promise H A :=
  fun w =>
    match p w with
    | (Resolved a, w') => (Resolved a, w')
    | (Rejected m, w') => k m w'
    end.

#[global] Instance promise_ret : MRet (Promise H) := @resolve.
#[global] Instance promise_bind : MBind (Promise H) :=
  fun A B k p => and_then p k.

Definition call `{Editor H} (c : HostCall) : Promise H (Response c) :=
  fun w =>
    let '(r, h) := perform c (host w) in
    (r, mkWorld h (calls w ++ [c]) (logseq_to_samepage w)
          (samepage_to_logseq w) (drawn w)).

(** [db.get(store, key).then((v) => (v as string) || "")] *)
Definition logseqToSamepage (s : string) : Promise H string :=
  fun w => (Resolved (default "" (logseq_to_samepage w !! s)), w).

Definition samepageToLogseq (s : string) : Promise H string :=
  fun w => (Resolved (default "" (samepage_to_logseq w !! s)), w).

Definition saveIdMap (logseq samepage : string) : Promise H unit :=
  fun w =>
    (Resolved tt,
     mkWorld (host w) (calls w)
       (<[logseq := samepage]> (logseq_to_samepage w))
       (<[samepage := logseq]> (samepage_to_logseq w)) (drawn w)).

Definition removeIdMap (logseq samepage : string) : Promise H unit :=
  fun w =>
    (Resolved tt,
     mkWorld (host w) (calls w)
       (delete logseq (logseq_to_samepage w))
       (delete samepage (samepage_to_logseq w)) (drawn w)).

Definition removeLogseqUuid (logseq : string) : Promise H unit :=
  samepage ← logseqToSamepage logseq; removeIdMap logseq samepage.

(** [promises.reduce((p, c) => p.then(c), Promise.resolve(""))] for thunks
    that pass a value [S] along. *)
Fixpoint chain {S} (promises : list (S -> Promise H S)) (s : S) : Promise H S :=
  match promises with
  | [] => resolve s
  | c :: rest => s' ← c s; chain rest s'
  end.

End Promises.

(** ** The encoder: [toAtJson] and [calculateState] *)

Section Encoder.
Context {H : Type} `{Editor H}.
(** [atJsonParser(blockGrammar, _)]: the inline markup parser with the
    block grammar of [util/blockGrammar]. *)
Context (atJsonParser : string -> InputSchema).
(** [v4()]: the [n]-th uuid drawn. *)
Context (v4 : nat -> string).

Definition draw_v4 : Promise H string :=
  fun w =>
    (Resolved (v4 (drawn w)),
     mkWorld (host w) (calls w) (logseq_to_samepage w)
       (samepage_to_logseq w) (S (drawn w))).

(** The identifier of a block: the stored one, or a fresh one that is
    stored before it is used. *)
Definition identifier_of (uuid : string) : Promise H string :=
  identifier ← logseqToSamepage uuid;
  if Js.truthy identifier then mret identifier
  else
    samepageUuid ← draw_v4;
    _ ← saveIdMap uuid samepageUuid;
    mret samepageUuid.

Definition rebase (index : Z) (a : Annotation) : Annotation :=
  mkAnnotation (start a + index) (end_ a + index) (type a).

Definition concat_schema (p c : InputSchema) : InputSchema :=
  mkSchema (content p +:+ content c) (annotations p ++ annotations c).

(** The [reduce] of [toAtJson]: each element is given the index
    [startIndex + pc.length] once the elements before it have settled. *)
Definition reduce_nodes (each : BlockEntity -> Z -> Promise H InputSchema)
  (startIndex : Z)
  : list BlockEntity -> InputSchema -> Promise H InputSchema :=
  fix go (nodes : list BlockEntity) (p : InputSchema) : Promise H InputSchema :=
    match nodes with
    | [] => mret p
    | n :: rest =>
        c ← each n (startIndex + Js.len (content p));
        go rest (concat_schema p c)
    end.

(** The function [toAtJson] maps over [nodes]. *)
Fixpoint toAtJson_node (level : Z) (viewType : ViewType) (n : BlockEntity)
  (index : Z) {struct n} : Promise H InputSchema :=
  match n with
  | Node f ch =>
      identifier ← identifier_of (BlockEntity.uuid f);
      let pre := preContent (BlockEntity.uuid f) (BlockEntity.content f) in
      let parsed := atJsonParser pre in
      let end' := Js.len (content parsed) + index in
      let blockAnnotations :=
        [mkAnnotation index end' (block identifier level viewType)] in
      kids ← reduce_nodes
                (toAtJson_node (level + 1)
                   (default viewType (BlockEntity.viewType f)))
                end' ch (mkSchema "" []);
      mret (mkSchema (content parsed +:+ content kids)
              ((blockAnnotations ++ map (rebase index) (annotations parsed))
                 ++ annotations kids))
  end.

Definition toAtJson (nodes : list BlockEntity) (level : Z) (startIndex : Z)
  (viewType : ViewType) : Promise H InputSchema :=
  reduce_nodes (toAtJson_node level viewType) startIndex nodes (mkSchema "" []).

Definition parent_id_or_0 (b : option BlockEntity) : Z :=
  match b with Some b => BlockEntity.parent_id (fields b) | None => 0 end.

Definition calculateState (notebookPageId : string) : Promise H InputSchema :=
  page ← call (GetPageByPropertyId notebookPageId);
  tree ← match page with
          | Some p => call (GetPageBlocksTree (PageEntity.originalName p))
          | None => mret (Some [])
          end;
  nodes ← match tree with
           | Some t => mret (List.filter isContentBlock t)
           | None => reject "Cannot read properties of null (reading 'filter')"
           end;
  b ← call (GetBlock (ByUuid notebookPageId) false);
  parent ← call (GetBlock (ById (parent_id_or_0 b)) false);
  parentUuid ←
    match parent with
    | Some p =>
        if Js.truthy (BlockEntity.uuid (fields p))
        then mret (BlockEntity.uuid (fields p))
        else
          pg ← call (GetPage (parent_id_or_0 b));
          mret (match pg with Some pg => PageEntity.uuid pg | None => "" end)
    | None =>
        pg ← call (GetPage (parent_id_or_0 b));
        mret (match pg with Some pg => PageEntity.uuid pg | None => "" end)
    end;
  title ← match page with
           | Some p => mret (PageEntity.originalName p)
           | None =>
               blk ← call (GetBlock (ByUuid notebookPageId) false);
               mret (match blk with
                     | Some blk => BlockEntity.content (fields blk)
                     | None => ""
                     end)
           end;
  let startIndex := Js.len title in
  doc ← toAtJson nodes 0 startIndex bullet;
  mret (mkSchema (title +:+ content doc)
          (mkAnnotation 0 startIndex (metadata title parentUuid)
             :: annotations doc)).

End Encoder.

(** ** The reconciler: [applyState] *)

Module ContentAnnotation.
Record t := mk {
  start : Z;
  end_ : Z;
  annotations : list Annotation
}.
Definition push (a : Annotation) (ca : t) : t :=
  mk (start ca) (end_ ca) (annotations ca ++ [a]).
End ContentAnnotation.

(** [ca.start <= anno.start && anno.end <= ca.end] *)
Definition encloses (ca : ContentAnnotation.t) (anno : Annotation) : bool :=
  ((ContentAnnotation.start ca <=? start anno)
   && (end_ anno <=? ContentAnnotation.end_ ca))%bool.

(** *** Reading the annotations *)

(** [f] applied to the last element: [nodes[nodes.length - 1]]. *)
Definition on_last {A} (f : A -> A) : list A -> list A :=
  fix go (l : list A) : list A :=
    match l with
    | [] => []
    | [x] => [f x]
    | x :: l' => x :: go l'
    end.

Definition is_nil {A} (l : list A) : bool :=
  match l with [] => true | _ :: _ => false end.

(** [insertAtLevel(parentNode.children, level, parentNode.uuid)], as the
    parent node it leaves. The record [parents] the source also fills is
    never read and is left out. *)
Fixpoint insertBelow {A} (currentBlock : Tree A) (level : Z)
  (parentNode : Tree A) {struct parentNode} : Tree A :=
  match parentNode with
  | Node f nodes =>
      Node f
        (if ((level =? 0) || is_nil nodes)%bool
         then nodes ++ [currentBlock]
         else on_last (insertBelow currentBlock (level - 1)) nodes)
  end.

Definition insertAtLevel {A} (currentBlock : Tree A)
  (nodes : list (Tree A)) (level : Z) : list (Tree A) :=
  if ((level =? 0) || is_nil nodes)%bool
  then nodes ++ [currentBlock]
  else on_last (insertBelow currentBlock (level - 1)) nodes.

(** What the loop over [state.annotations] builds. [metadata_seen] holds
    the [title] and [parent] the last [initialPromise] closes over. *)
Record Expected := mkExpected {
  expectedTree : list InputTextNode;
  mapping : JsRecord.t nat;
  contentAnnotations : JsRecord.t ContentAnnotation.t;
  metadata_seen : option (string * string)
}.

Definition no_expected : Expected := mkExpected [] [] [] None.

(** [Object.values(contentAnnotations).find(...)] followed by the [push]
    into the entry found. *)
Fixpoint push_to_first (anno : Annotation)
  (r : JsRecord.t ContentAnnotation.t) : JsRecord.t ContentAnnotation.t :=
  match r with
  | [] => []
  | (k, ca) :: r' =>
      if encloses ca anno
      then (k, ContentAnnotation.push anno ca) :: r'
      else (k, ca) :: push_to_first anno r'
  end.

(** The callback of [state.annotations.forEach]. A new node object gets
    the next free address. *)
Definition read_annotation (text : string) (x : Expected) (anno : Annotation)
  : Expected :=
  match type anno with
  | block identifier level _ =>
      let a := List.length (forest_nodes (expectedTree x)) in
      let currentBlock :=
        Node (InputTextNode.mk a (Js.slice text (start anno) (end_ anno))
                identifier bullet) [] in
      mkExpected
        (insertAtLevel currentBlock (expectedTree x) level)
        (JsRecord.set identifier a (mapping x))
        (JsRecord.set identifier
           (ContentAnnotation.mk (start anno) (end_ anno) [])
           (contentAnnotations x))
        (metadata_seen x)
  | metadata title parent =>
      mkExpected (expectedTree x) (mapping x) (contentAnnotations x)
        (Some (title, parent))
  | _ =>
      mkExpected (expectedTree x) (mapping x)
        (push_to_first anno (contentAnnotations x)) (metadata_seen x)
  end.

Definition read_annotations (state : InputSchema) : Expected :=
  fold_left (read_annotation (content state)) (annotations state) no_expected.

(** *** Writing each block's markup *)

Definition content_at (a : nat) (tree : list InputTextNode) : option string :=
  InputTextNode.content
    <$> List.find (fun n => Nat.eqb (InputTextNode.addr n) a) (forest_nodes tree).

(** [block.content = s] for the node object at address [a]. *)
Definition assign_content (a : nat) (s : string) (tree : list InputTextNode)
  : list InputTextNode :=
  map (tree_map (fun n =>
                   if Nat.eqb (InputTextNode.addr n) a
                   then InputTextNode.set_content s n else n)) tree.

Definition normalize (offset : Z) (a : Annotation) : Annotation :=
  mkAnnotation (start a - offset) (end_ a - offset) (type a).

(** The callback of [Object.entries(contentAnnotations).forEach]. Both
    records receive a key together, so [mapping[blockUid]] is there. *)
Definition write_block (mapping : JsRecord.t nat)
  (tree : list InputTextNode) (e : string * ContentAnnotation.t)
  : list InputTextNode :=
  let '(blockUid, contentAnnotation) := e in
  match JsRecord.get blockUid mapping with
  | None => tree
  | Some a =>
      match content_at a tree with
      | None => tree
      | Some text =>
          let offset := ContentAnnotation.start contentAnnotation in
          let normalizedAnnotations :=
            map (normalize offset)
              (ContentAnnotation.annotations contentAnnotation) in
          assign_content a
            (Serializer.annotatedText text normalizedAnnotations) tree
      end
  end.

Definition write_blocks (x : Expected) : list InputTextNode :=
  fold_left (write_block (mapping x))
    (JsRecord.entries (contentAnnotations x)) (expectedTree x).

(** *** The two trees, keyed by identifier *)

Definition expectedTreeMapping (notebookPageId : string)
  (tree : list InputTextNode) : JsRecord.t (Flat InputTextNode.t) :=
  JsRecord.fromEntries
    (map (fun n => (InputTextNode.uuid (node n), n))
       (List.filter (fun n => Js.truthy (InputTextNode.uuid (node n)))
          (flattenTree InputTextNode.uuid tree notebookPageId))).

Definition actualTreeMappingOf (notebookPageId : string)
  (tree : list BlockEntity) : JsRecord.t (Flat BlockEntity.t) :=
  JsRecord.fromEntries
    (map (fun n => (BlockEntity.uuid (node n), n))
       (flattenTree BlockEntity.uuid (List.filter isContentBlock tree)
          notebookPageId)).

(** *** The three classes of identifiers *)

Section Classify.
Context (actualTreeMapping : JsRecord.t (Flat BlockEntity.t)).
Context (expectedSamepageToLogseq : JsRecord.t string).

Definition uuidsToCreate : list (string * string) :=
  List.filter
    (fun e => (negb (Js.truthy (snd e))
               || negb (JsRecord.has (snd e) actualTreeMapping))%bool)
    (JsRecord.entries expectedSamepageToLogseq).

Definition expectedUuids : list string :=
  List.filter Js.truthy (JsRecord.values expectedSamepageToLogseq).

Definition uuidsToDelete : list string :=
  List.filter
    (fun k => negb (existsb (String.eqb k) expectedUuids))
    (JsRecord.keys actualTreeMapping).

Definition uuidsToUpdate : list (string * string) :=
  List.filter (fun e => JsRecord.has (snd e) actualTreeMapping)
    (JsRecord.entries expectedSamepageToLogseq).

End Classify.

(** *** The operations and their execution *)

(** One thunk of [promises], by the data it closes over. *)
Inductive Op :=
| Initial (meta : option (string * string))
| Remove (uuid : string)
| Insert (samepageUuid : string)
| UpdateOrMove (samepageUuid logseqUuid : string).

(** The place an operation has in [promises]. *)
Definition phase (o : Op) : nat :=
  match o with
  | Initial _ => 0
  | Remove _ => 1
  | Insert _ => 2
  | UpdateOrMove _ _ => 3
  end%nat.

Definition promises (meta : option (string * string))
  (actualTreeMapping : JsRecord.t (Flat BlockEntity.t))
  (expectedSamepageToLogseq : JsRecord.t string) : list Op :=
  ([Initial meta]
     ++ map Remove (uuidsToDelete actualTreeMapping expectedSamepageToLogseq))
    ++ map (fun e => Insert (fst e))
         (uuidsToCreate actualTreeMapping expectedSamepageToLogseq)
    ++ map (fun e => UpdateOrMove (fst e) (snd e))
         (uuidsToUpdate actualTreeMapping expectedSamepageToLogseq).

Section Reconciler.
Context {H : Type} `{Editor H}.
Context (notebookPageId : string).
Context (expectedTreeMapping : JsRecord.t (Flat InputTextNode.t)).
Context (actualTreeMapping : JsRecord.t (Flat BlockEntity.t)).

(** [b.properties?.samepage && b.properties?.samepage !== notebookPageId] *)
Definition claims_other_page (b : BlockEntity) : bool :=
  match BlockEntity.properties_samepage (fields b) with
  | Some s => (Js.truthy s && negb (String.eqb s notebookPageId))%bool
  | None => false
  end.

(** [node.originalName || (node as BlockEntity).content] for a page: a page
    has no [content]. *)
Definition page_title (p : PageEntity.t) : option string :=
  if Js.truthy (PageEntity.originalName p)
  then Some (PageEntity.originalName p) else None.

Definition rename_or_retitle (title parent : string)
  (existingTitle : option string) : Promise H unit :=
  if bool_decide (existingTitle = Some title) then mret tt
  else if Js.truthy parent then
    blk ← call (GetBlock (ByUuid notebookPageId) false);
    match blk with
    | Some b => call (UpdateBlock (BlockEntity.uuid (fields b)) title)
    | None => mret tt
    end
  else
    tree ← call (GetPageBlocksTree title);
    _ ← match tree with
         | Some t =>
             match List.find claims_other_page t with
             | Some b =>
                 call (UpsertBlockProperty (BlockEntity.uuid (fields b))
                         "samepage" notebookPageId)
             | None => mret tt
             end
         | None => mret tt
         end;
    call (RenamePage existingTitle title).

(** [initialPromise]: the identity until a metadata annotation is read. *)
Definition initialPromise (meta : option (string * string)) : Promise H unit :=
  match meta with
  | None => mret tt
  | Some (title, parent) =>
      catch
        (existing ←
           (if Js.truthy parent then
              blk ← call (GetBlock (ByUuid notebookPageId) false);
              mret ((fun b => Some (BlockEntity.content (fields b))) <$> blk)
            else
              pg ← call (GetPageByPropertyId notebookPageId);
              mret (page_title <$> pg));
         match existing with
         | Some existingTitle => rename_or_retitle title parent existingTitle
         | None => reject ("Missing page with id: " +:+ notebookPageId)
         end)
        (fun message =>
           reject ("Failed to initialize page metadata: " +:+ message))
  end.

Definition removeOp (uuid : string) : Promise H unit :=
  catch
    (_ ← call (RemoveBlock uuid); removeLogseqUuid uuid)
    (fun message =>
       reject ("Failed to remove block " +:+ uuid +:+ ": " +:+ message)).

(** [block && upsertBlockProperty(block.uuid, "id", block.uuid).then(() => block.uuid)];
    [None] is a falsy result. *)
Definition stamp_id (block : option BlockEntity) : Promise H (option string) :=
  match block with
  | Some b =>
      let u := BlockEntity.uuid (fields b) in
      _ ← call (UpsertBlockProperty u "id" u); mret (Some u)
  | None => mret None
  end.

Definition insertOp (samepageUuid : string)
  (expectedSamepageToLogseq : JsRecord.t string)
  : Promise H (JsRecord.t string) :=
  match JsRecord.get samepageUuid expectedTreeMapping with
  | None => reject "Cannot destructure property 'parentUuid'"
  | Some n =>
      catch
        (uuid ←
           (if String.eqb (parentUuid n) notebookPageId then
              p ← call (GetPageByPropertyId notebookPageId);
              match p with
              | None => reject ("Failed to find page " +:+ notebookPageId)
              | Some p =>
                  tree ← call (GetPageBlocksTree (PageEntity.originalName p));
                  match tree with
                  | None =>
                      reject "Cannot read properties of null (reading 'length')"
                  | Some tree =>
                      (* minus 1 because of the persistent id hack *)
                      block ←
                        (if Z.of_nat (order n) <? Z.of_nat (List.length tree) - 1
                         then
                           match nth_error tree (S (order n)) with
                           | Some next =>
                               call (InsertBlock (BlockEntity.uuid (fields next))
                                       (InputTextNode.content (node n)) true)
                           | None =>
                               reject "Cannot read properties of undefined (reading 'uuid')"
                           end
                         else
                           call (AppendBlockInPage
                                   (Some (PageEntity.originalName p))
                                   (InputTextNode.content (node n))));
                      stamp_id block
                  end
              end
            else
              let parent := JsRecord.get (parentUuid n) expectedSamepageToLogseq in
              block ← call (GetBlock (key_of parent) true);
              created ←
                match block with
                | None =>
                    reject ("Referencing parent " +:+ parentUuid n
                              +:+ " but none exists")
                | Some b =>
                    match nth_error (children b) (order n) with
                    | Some sibling =>
                        call (InsertBlock (BlockEntity.uuid (fields sibling))
                                (InputTextNode.content (node n)) false)
                    | None =>
                        call (AppendBlockInPage parent
                                (InputTextNode.content (node n)))
                    end
                end;
              stamp_id created);
         match uuid with
         | Some u =>
             if Js.truthy u then
               _ ← saveIdMap u samepageUuid;
               mret (JsRecord.set samepageUuid u expectedSamepageToLogseq)
             else reject "null block uuid created"
         | None => reject "null block uuid created"
         end)
        (fun message =>
           reject ("Failed to insert block " +:+ samepageUuid +:+ ": "
                     +:+ message))
  end.

Definition updateOp (samepageUuid logseqUuid : string)
  (expectedSamepageToLogseq : JsRecord.t string) : Promise H unit :=
  match JsRecord.get samepageUuid expectedTreeMapping,
        JsRecord.get logseqUuid actualTreeMapping with
  | Some n, Some actual =>
      let parentUuid' :=
        if String.eqb (parentUuid n) notebookPageId
        then Some (parentUuid n)
        else JsRecord.get (parentUuid n) expectedSamepageToLogseq in
      (* it's possible we may need to await from above and repull *)
      if (negb (bool_decide (Some (parentUuid actual) = parentUuid'))
          || negb (Nat.eqb (order actual) (order n)))%bool
      then
        catch (call (MoveBlock logseqUuid parentUuid'))
          (fun message =>
             reject ("Failed to move block " +:+ samepageUuid +:+ ": "
                       +:+ message))
      else if negb (String.eqb (BlockEntity.content (node actual))
                      (InputTextNode.content (node n)))
      then
        catch (call (UpdateBlock logseqUuid (InputTextNode.content (node n))))
          (fun message =>
             reject ("Failed to update block " +:+ samepageUuid +:+ ": "
                       +:+ message))
      else mret tt
  | _, _ => reject "Cannot destructure property 'parentUuid'"
  end.

(** The thunk of an operation. The record [expectedSamepageToLogseq] is
    shared by all of them: an insert writes the uuid of the block it made,
    and the operations after it read the record as it then is. *)
Definition run_op (o : Op) (expectedSamepageToLogseq : JsRecord.t string)
  : Promise H (JsRecord.t string) :=
  match o with
  | Initial meta =>
      _ ← initialPromise meta; mret expectedSamepageToLogseq
  | Remove uuid =>
      _ ← removeOp uuid; mret expectedSamepageToLogseq
  | Insert samepageUuid => insertOp samepageUuid expectedSamepageToLogseq
  | UpdateOrMove samepageUuid logseqUuid =>
      _ ← updateOp samepageUuid logseqUuid expectedSamepageToLogseq;
      mret expectedSamepageToLogseq
  end.

Definition run_ops (ops : list Op) : JsRecord.t string -> Promise H (JsRecord.t string) :=
  chain (map run_op ops).

End Reconciler.

Section ApplyState.
Context {H : Type} `{Editor H}.

(** [Promise.all] over reads of the store, which leave the world as it is. *)
Fixpoint lookup_all (ks : list string) : Promise H (list (string * string)) :=
  match ks with
  | [] => mret []
  | k :: ks' =>
      r ← samepageToLogseq k;
      rest ← lookup_all ks';
      mret ((k, r) :: rest)
  end.

Definition readActualTree (notebookPageId : string)
  : Promise H (JsRecord.t (Flat BlockEntity.t)) :=
  page ← call (GetPageByPropertyId notebookPageId);
  tree ← match page with
          | Some p =>
              t ← call (GetPageBlocksTree (PageEntity.originalName p));
              mret (default [] t)
          | None => mret []
          end;
  mret (actualTreeMappingOf notebookPageId tree).

(** Everything [applyState] computes before it runs an operation. *)
Record Plan := mkPlan {
  plan_expected : JsRecord.t (Flat InputTextNode.t);
  plan_actual : JsRecord.t (Flat BlockEntity.t);
  plan_samepageToLogseq : JsRecord.t string;
  plan_ops : list Op
}.

Definition plan (notebookPageId : string) (state : InputSchema)
  : Promise H Plan :=
  let x := read_annotations state in
  let expectedTree := write_blocks x in
  let expected := expectedTreeMapping notebookPageId expectedTree in
  actual ← readActualTree notebookPageId;
  pairs ← lookup_all (JsRecord.keys expected);
  let expectedSamepageToLogseq := JsRecord.fromEntries pairs in
  mret (mkPlan expected actual expectedSamepageToLogseq
          (promises (metadata_seen x) actual expectedSamepageToLogseq)).

Definition applyState (notebookPageId : string) (state : InputSchema)
  : Promise H (JsRecord.t string) :=
  p ← plan notebookPageId state;
  run_ops notebookPageId (plan_expected p) (plan_actual p) (plan_ops p)
    (plan_samepageToLogseq p).

End ApplyState.

(** ** The page states kept in IndexedDB *)

Module PageStates.

(** The key of a page in the object store ["pages"]:
    [`${graph?.name || "null"}/${notebookPageId}`]; [None] is the name of a
    graph that is [null]. *)
Definition key (graphName : option string) (notebookPageId : string) : string :=
  Js.or_else (default "" graphName) "null" +:+ "/" +:+ notebookPageId.

Definition loadState {V} (graphName : option string) (notebookPageId : string)
  (pages : gmap string V) : option V :=
  pages !! key graphName notebookPageId.

Definition saveState {V} (graphName : option string) (notebookPageId : string)
  (state : V) (pages : gmap string V) : gmap string V :=
  <[key graphName notebookPageId := state]> pages.

Definition removeState {V} (graphName : option string)
  (notebookPageId : string) (pages : gmap string V) : gmap string V :=
  delete (key graphName notebookPageId) pages.

End PageStates.

(** ** Vocabulary of the properties *)

(** Every character of [s] satisfies [p]. *)
Fixpoint all_chars (p : ascii -> bool) (s : string) : bool :=
  match s with
  | EmptyString => true
  | String c s' => (p c && all_chars p s')%bool
  end.

(** A property line [key:: value]: a key of lower-case letters and a value
    that stays on the line, neither empty. *)
Definition is_property (kv : string * string) : bool :=
  (Js.truthy (fst kv) && all_chars Regex.is_lower (fst kv)
   && Js.truthy (snd kv) && all_chars Regex.not_newline (snd kv))%bool.

Definition property_line (kv : string * string) : string :=
  fst kv +:+ ":: " +:+ snd kv.

(** Property lines, each closed by a newline. *)
Fixpoint property_lines (l : list (string * string)) : string :=
  match l with
  | [] => ""
  | kv :: l' => property_line kv +:+ Regex.nl +:+ property_lines l'
  end.

Definition block_with_content (c : string) : BlockEntity :=
  Node (BlockEntity.mk "6581e0d7-2f6e-4f7e-9a3c-0d1e2f3a4b5c" c 0 None None) [].

(** The characters of a uuid: hexadecimal digits and dashes. *)
Definition is_uuid_char (c : ascii) : bool :=
  (Regex.is_hex c || Ascii.eqb c "-")%bool.

(** [n] hexadecimal digits. *)
Definition hex_group (n : nat) (s : string) : bool :=
  (Nat.eqb (String.length s) n && all_chars Regex.is_hex s)%bool.

(** The five groups of a uuid, written out with their dashes. *)
Definition uuid_of_groups (a b c d e : string) : string :=
  a +:+ "-" +:+ b +:+ "-" +:+ c +:+ "-" +:+ d +:+ "-" +:+ e.

Definition uuid_groups (a b c d e : string) : bool :=
  (hex_group 8 a && hex_group 4 b && hex_group 4 c && hex_group 4 d
   && hex_group 12 e)%bool.

(** The three property lines [toAtJson] looks for, each with the newline
    before it. *)
Definition id_property (uuid : string) : string :=
  Regex.nl +:+ "id:: " +:+ uuid.
Definition title_property (title : string) : string :=
  Regex.nl +:+ "title:: " +:+ title.
Definition samepage_property (samepage : string) : string :=
  Regex.nl +:+ "samepage:: " +:+ samepage.

(** The document [toAtJson] resolves with, for blocks whose identifiers
    are given by [idof]: the same traversal without the identifier store. *)
Definition encode_nodes (each : BlockEntity -> Z -> InputSchema)
  (startIndex : Z) : list BlockEntity -> InputSchema -> InputSchema :=
  fix go (nodes : list BlockEntity) (p : InputSchema) : InputSchema :=
    match nodes with
    | [] => p
    | n :: rest =>
        go rest (concat_schema p (each n (startIndex + Js.len (content p))))
    end.

Fixpoint encode_node (atJsonParser : string -> InputSchema)
  (idof : string -> string) (level : Z) (viewType : ViewType)
  (n : BlockEntity) (index : Z) {struct n} : InputSchema :=
  match n with
  | Node f ch =>
      let parsed :=
        atJsonParser (preContent (BlockEntity.uuid f) (BlockEntity.content f)) in
      let end' := Js.len (content parsed) + index in
      let kids :=
        encode_nodes
          (encode_node atJsonParser idof (level + 1)
             (default viewType (BlockEntity.viewType f)))
          end' ch (mkSchema "" []) in
      mkSchema (content parsed +:+ content kids)
        (([mkAnnotation index end'
             (block (idof (BlockEntity.uuid f)) level viewType)]
            ++ map (rebase index) (annotations parsed))
           ++ annotations kids)
  end.

Definition encode (atJsonParser : string -> InputSchema)
  (idof : string -> string) (nodes : list BlockEntity) (level startIndex : Z)
  (viewType : ViewType) : InputSchema :=
  encode_nodes (encode_node atJsonParser idof level viewType) startIndex nodes
    (mkSchema "" []).

(** An annotation without the identifier a block annotation carries. *)
Definition anonymous (a : Annotation) : Annotation :=
  match type a with
  | block _ level viewType => mkAnnotation (start a) (end_ a) (block "" level viewType)
  | _ => a
  end.

(** Two documents that differ in block identifiers at most. *)
Definition same_layout (s s' : InputSchema) : Prop :=
  content s = content s'
  /\ map anonymous (annotations s) = map anonymous (annotations s').

(** [lo <= a.start <= a.end <= hi] *)
Definition within (lo hi : Z) (a : Annotation) : Prop :=
  lo <= start a /\ start a <= end_ a /\ end_ a <= hi.

(** The contract of the inline markup parser: its annotations address the
    plain text it returns. *)
Definition parser_in_bounds (atJsonParser : string -> InputSchema) : Prop :=
  forall s,
    Forall (within 0 (Js.len (content (atJsonParser s))))
      (annotations (atJsonParser s)).

(** *** A small notebook to run the protocol on *)

(** One page with its blocks. The blocks listed in [locked] reject being
    removed, updated or moved; [frozen_title] makes a rename reject. *)
Record Notebook := mkNotebook {
  nb_page : option PageEntity.t;
  nb_tree : list BlockEntity;
  nb_locked : list string;
  nb_frozen_title : bool;
  nb_created : nat
}.

Definition is_locked (u : string) (h : Notebook) : bool :=
  existsb (String.eqb u) (nb_locked h).

Definition new_block (n : nat) (c : string) : BlockEntity :=
  Node (BlockEntity.mk
          (match n with
           | O => "0a000000-0000-4000-8000-000000000000"
           | S O => "0b000000-0000-4000-8000-000000000000"
           | _ => "0c000000-0000-4000-8000-000000000000"
           end) c 0 None None) [].

Definition guarded (u : string) (h : Notebook) : Outcome unit * Notebook :=
  if is_locked u h then (Rejected "block is locked", h) else (Resolved tt, h).

Definition create (c : string) (h : Notebook)
  : Outcome (option BlockEntity) * Notebook :=
  (Resolved (Some (new_block (nb_created h) c)),
   mkNotebook (nb_page h) (nb_tree h) (nb_locked h) (nb_frozen_title h)
     (S (nb_created h))).

#[global] Instance notebook_editor : Editor Notebook :=
  fun c =>
    match c return Notebook -> Outcome (Response c) * Notebook with
    | GetPageByPropertyId _ => fun h => (Resolved (nb_page h), h)
    | GetPage _ => fun h => (Resolved None, h)
    | GetBlock _ _ => fun h => (Resolved None, h)
    | GetPageBlocksTree _ => fun h => (Resolved (Some (nb_tree h)), h)
    | UpdateBlock u _ => guarded u
    | RenamePage _ _ =>
        fun h =>
          if nb_frozen_title h then (Rejected "page name is taken", h)
          else (Resolved tt, h)
    | UpsertBlockProperty _ _ _ => fun h => (Resolved tt, h)
    | RemoveBlock u => guarded u
    | InsertBlock _ c _ => create c
    | AppendBlockInPage _ c => create c
    | MoveBlock u _ => guarded u
    end.

Definition fresh_world (h : Notebook) : World Notebook :=
  mkWorld h [] ∅ ∅ O.

(** A parser for the examples: a text that opens with ["*"] is emphasised
    as a whole, any other text is plain. *)
Definition star_parser (s : string) : InputSchema :=
  match s with
  | String c rest =>
      if Ascii.eqb c "*"
      then mkSchema rest [mkAnnotation 0 (Js.len rest) bold]
      else mkSchema s []
  | EmptyString => mkSchema s []
  end.

Definition demo_uuid (n : nat) : string :=
  match n with
  | O => "11111111-1111-4111-8111-111111111111"
  | S O => "22222222-2222-4222-8222-222222222222"
  | S (S O) => "33333333-3333-4333-8333-333333333333"
  | _ => "44444444-4444-4444-8444-444444444444"
  end.

Definition demo_block (u c : string) (ch : list BlockEntity) : BlockEntity :=
  Node (BlockEntity.mk u c 0 None None) ch.

Definition demo_page : PageEntity.t :=
  PageEntity.mk "9e000000-0000-4000-8000-000000000000" "Home".

(** The page [Home] with a block, its child and a second block. *)
Definition demo_notebook : Notebook :=
  mkNotebook (Some demo_page)
    [demo_block "a1000000-0000-4000-8000-000000000000" "*hello"
       [demo_block "a2000000-0000-4000-8000-000000000000" "world" []];
     demo_block "a3000000-0000-4000-8000-000000000000" "bye" []]
    [] false O.

(** The document a promise resolves with, the empty one when it rejects. *)
Definition resolved_with {H} (r : Outcome InputSchema * World H) : InputSchema :=
  match fst r with
  | Resolved d => d
  | Rejected _ => mkSchema "" []
  end.

(** *** Trees and their depth-first listing *)

(** The nodes of a tree with their depth, parents before children: the
    order and the levels the encoder emits block annotations in. *)
Fixpoint dfs {A} (level : Z) (t : Tree A) : list (Z * A) :=
  match t with
  | Node f ch => (level, f) :: concat (map (dfs (level + 1)) ch)
  end.

Definition dfs_forest {A} (level : Z) (F : list (Tree A)) : list (Z * A) :=
  concat (map (dfs level) F).

(** Inserting leaves one after the other, each at its level. *)
Definition rebuild {A} (l : list (Z * A)) (T : list (Tree A)) : list (Tree A) :=
  fold_left (fun T e => insertAtLevel (Node (snd e) []) T (fst e)) l T.

(** [F] appended to the children found [d] steps down the last branch of
    [T]. *)
Fixpoint graft {A} (d : nat) (F : list (Tree A)) (T : list (Tree A))
  : list (Tree A) :=
  match d with
  | O => T ++ F
  | S d' => on_last (fun n => Node (fields n) (graft d' F (children n))) T
  end.

(** The last branch of [T] is at least [d] nodes long. *)
Fixpoint deep {A} (d : nat) (T : list (Tree A)) : Prop :=
  match d with
  | O => True
  | S d' =>
      match List.last (map Some T) None with
      | Some n => deep d' (children n)
      | None => False
      end
  end.

(** The shape of a tree: its nodes without their fields. *)
Definition shape {A} (t : Tree A) : Tree unit := tree_map (fun _ => tt) t.

Definition is_inline (t : AnnotationType) : bool :=
  match t with
  | block _ _ _ | metadata _ _ => false
  | _ => true
  end.

(** The parser returns inline annotations only. *)
Definition inline_only (atJsonParser : string -> InputSchema) : Prop :=
  forall s,
    Forall (fun a => is_inline (type a) = true) (annotations (atJsonParser s)).

(** The levels of the block annotations, in document order. *)
Fixpoint block_levels (anns : list Annotation) : list Z :=
  match anns with
  | [] => []
  | a :: rest =>
      match type a with
      | block _ level _ => level :: block_levels rest
      | _ => block_levels rest
      end
  end.

(** The node objects [applyState] makes for the block annotations, each
    with its level; [a] is the address of the first. *)
Fixpoint block_payloads (text : string) (a : nat) (anns : list Annotation)
  : list (Z * InputTextNode.t) :=
  match anns with
  | [] => []
  | anno :: rest =>
      match type anno with
      | block identifier level _ =>
          (level,
           InputTextNode.mk a (Js.slice text (start anno) (end_ anno))
             identifier bullet)
            :: block_payloads text (S a) rest
      | _ => block_payloads text a rest
      end
  end.

(** The nodes [calculateState] encodes when run on host [h]: the content
    blocks of the page the host finds for the id, none without a page. *)
Definition nodes_read {H} `{Editor H} (notebookPageId : string) (h : H)
  (nodes : list BlockEntity) : Prop :=
  match perform (GetPageByPropertyId notebookPageId) h with
  | (Resolved (Some p), h1) =>
      match perform (GetPageBlocksTree (PageEntity.originalName p)) h1 with
      | (Resolved (Some t), _) => nodes = List.filter isContentBlock t
      | _ => False
      end
  | (Resolved None, _) => nodes = []
  | _ => False
  end.

(** Four blocks at levels 0, 1, 1 and 0. *)
Definition four_blocks : InputSchema :=
  mkSchema "abcd"
    [mkAnnotation 0 1 (block "b1" 0 bullet);
     mkAnnotation 1 2 (block "b2" 1 bullet);
     mkAnnotation 2 3 (block "b3" 1 bullet);
     mkAnnotation 3 4 (block "b4" 0 bullet)].

(** The range of [anno] lies within the range of the annotation [b]. *)
Definition covers (b anno : Annotation) : bool :=
  ((start b <=? start anno) && (end_ anno <=? end_ b))%bool.

Definition is_block (t : AnnotationType) : bool :=
  match t with block _ _ _ => true | _ => false end.

(** No block annotation of [anns] covers [anno]. *)
Definition uncovered (anno : Annotation) (anns : list Annotation) : Prop :=
  Forall (fun b => is_block (type b) = true -> covers b anno = false) anns.

(** *** The identifier stores *)

(** The global identifier the store gives a local one, [""] for none. *)
Definition global_of {H} (w : World H) (logseq : string) : string :=
  default "" (logseq_to_samepage w !! logseq).

Definition local_of {H} (w : World H) (samepage : string) : string :=
  default "" (samepage_to_logseq w !! samepage).

(** The two stores hold the same pairs of identifiers: the bijection of
    the data model. *)
Definition stores_agree {H} (w : World H) : Prop :=
  forall l g,
    (global_of w l = g /\ g <> "") <-> (local_of w g = l /\ l <> "").

(** The identifiers of the block annotations, in document order. *)
Fixpoint block_identifiers (anns : list Annotation) : list string :=
  match anns with
  | [] => []
  | a :: rest =>
      match type a with
      | block identifier _ _ => identifier :: block_identifiers rest
      | _ => block_identifiers rest
      end
  end.

(** The desired document's block set. *)
Definition desired_set (state : InputSchema) : list string :=
  List.filter Js.truthy (block_identifiers (annotations state)).

(** The tree [applyState] reads from host [h]: the blocks of the page the
    host finds for the id, none without a page or when the host has no
    tree for it. *)
Definition tree_read {H} `{Editor H} (notebookPageId : string) (h : H)
  (tree : list BlockEntity) : Prop :=
  match perform (GetPageByPropertyId notebookPageId) h with
  | (Resolved (Some p), h1) =>
      match perform (GetPageBlocksTree (PageEntity.originalName p)) h1 with
      | (Resolved t, _) => tree = default [] t
      | _ => False
      end
  | (Resolved None, _) => tree = []
  | _ => False
  end.

(** The local ids of the actual tree: flattened and content-filtered. *)
Definition actual_ids (tree : list BlockEntity) : list string :=
  map BlockEntity.uuid (forest_nodes (List.filter isContentBlock tree)).

(** A notebook of three sibling blocks, all known to the stores, and a
    document that has the first and the third. *)
Definition three_blocks : Notebook :=
  mkNotebook (Some demo_page)
    [demo_block "a1000000-0000-4000-8000-000000000000" "A" [];
     demo_block "a2000000-0000-4000-8000-000000000000" "B" [];
     demo_block "a3000000-0000-4000-8000-000000000000" "C" []]
    [] false O.

Definition three_blocks_world : World Notebook :=
  mkWorld three_blocks []
    (<["a1000000-0000-4000-8000-000000000000" := demo_uuid 0]>
       (<["a2000000-0000-4000-8000-000000000000" := demo_uuid 1]>
          (<["a3000000-0000-4000-8000-000000000000" := demo_uuid 2]> ∅)))
    (<[demo_uuid 0 := "a1000000-0000-4000-8000-000000000000"]>
       (<[demo_uuid 1 := "a2000000-0000-4000-8000-000000000000"]>
          (<[demo_uuid 2 := "a3000000-0000-4000-8000-000000000000"]> ∅)))
    O.

Definition first_and_third : InputSchema :=
  mkSchema "HomeAC"
    [mkAnnotation 0 4 (metadata "Home" "");
     mkAnnotation 4 5 (block (demo_uuid 0) 0 bullet);
     mkAnnotation 5 6 (block (demo_uuid 2) 0 bullet)].

(** The plan a promise resolves with; an empty one when it rejects. *)
Definition planned {H} (r : Outcome Plan * World H) : Plan :=
  match fst r with
  | Resolved p => p
  | Rejected _ => mkPlan [] [] [] []
  end.

(** *** Order in a list *)

(** [x] comes before [y] in [l]. *)
Definition before {A} (x y : A) (l : list A) : Prop :=
  exists l1 l2 l3, l = l1 ++ x :: l2 ++ y :: l3.

(** Every entry of a flattened forest names as its parent the root or a
    node listed before it. *)
Definition parents_first {A} (uuid : A -> string) (root : string)
  (l : list (Flat A)) : Prop :=
  forall l1 c l2, l = l1 ++ c :: l2 ->
    parentUuid c = root
    \/ exists p, In p l1 /\ parentUuid c = Js.or_else (uuid (node p)) "".

(** Identifiers that are no array indices, as uuids are. *)
Definition plain_keys (ks : list string) : Prop :=
  Forall (fun k => JsRecord.array_index k = None) ks.

(** A key an assignment to the record reaches: an own key, or a new key
    other than ["__proto__"]. *)
Definition assignable {V} (k : string) (r : JsRecord.t V) : bool :=
  (JsRecord.has k r || negb (String.eqb k "__proto__"))%bool.

(** Identifiers an assignment makes an own key of, in creation order:
    no array indices, and not the inherited accessor ["__proto__"]. *)
Definition ordinary_keys (ks : list string) : Prop :=
  Forall (fun k => JsRecord.array_index k = None /\ k <> "__proto__") ks.

(** *** What a rejection says *)

(** The last call made was rejected by the host with [detail]. *)
Definition rejected_by_host {H : Type} `{Editor H} (w : World H)
  (detail : string) : Prop :=
  exists before c h,
    calls w = before ++ [c] /\ perform c h = (Rejected detail, host w).

(** The message names the kind of the operation and, for a block
    operation, the identifier of the block it was for; what follows is the
    message of the error underneath. For the metadata operation this is
    [Missing page with id: ...] with the page id, or what the host
    rejected a call with; for a removal, a move and an update it is what
    the host rejected the call with. [w] is the world the operation
    left. *)
Definition failure_says {H : Type} `{Editor H} (notebookPageId : string)
  (o : Op) (w : World H) (message : string) : Prop :=
  match o with
  | Initial _ =>
      exists detail,
        message = "Failed to initialize page metadata: " +:+ detail
        /\ (detail = "Missing page with id: " +:+ notebookPageId
            \/ rejected_by_host w detail)
  | Remove uuid =>
      exists detail,
        message = "Failed to remove block " +:+ uuid +:+ ": " +:+ detail
        /\ rejected_by_host w detail
  | Insert samepageUuid =>
      exists detail,
        message = "Failed to insert block " +:+ samepageUuid +:+ ": " +:+ detail
  | UpdateOrMove samepageUuid _ =>
      exists detail,
        (message = "Failed to move block " +:+ samepageUuid +:+ ": " +:+ detail
         \/ message
            = "Failed to update block " +:+ samepageUuid +:+ ": " +:+ detail)
        /\ rejected_by_host w detail
  end.

(** A promise rejects with an error [P] describes or with what the host
    rejected its last call with. *)
Definition fails_with {H : Type} `{Editor H} {A : Type} (P : string -> Prop)
  (m : Promise H A) : Prop :=
  forall w e w1, m w = (Rejected e, w1) -> P e \/ rejected_by_host w1 e.

(** [hay.includes(needle)] *)
Fixpoint includes (needle hay : string) : bool :=
  match Js.strip_prefix needle hay with
  | Some _ => true
  | None =>
      match hay with
      | String _ hay' => includes needle hay'
      | EmptyString => false
      end
  end.

(** The page [Home] without blocks, and a document with a block and its
    child, neither known to the stores. *)
Definition empty_page : Notebook :=
  mkNotebook (Some demo_page) [] [] false O.

Definition two_new_blocks : InputSchema :=
  mkSchema "Homeparentchild"
    [mkAnnotation 0 4 (metadata "Home" "");
     mkAnnotation 4 10 (block (demo_uuid 0) 0 bullet);
     mkAnnotation 10 15 (block (demo_uuid 1) 1 bullet)].

(** The notebook of three blocks with the second one locked. *)
Definition locked_world : World Notebook :=
  mkWorld
    (mkNotebook (Some demo_page) (nb_tree three_blocks)
       ["a2000000-0000-4000-8000-000000000000"] false O)
    [] (logseq_to_samepage three_blocks_world)
    (samepage_to_logseq three_blocks_world) O.

(** The page [Home], whose title cannot change, and a document that
    renames it. *)
Definition frozen_page : Notebook :=
  mkNotebook (Some demo_page) [] [] true O.

Definition renamed : InputSchema :=
  mkSchema "Renamed" [mkAnnotation 0 7 (metadata "Renamed" "")].

(** The page [Home] with one block that carries its [id::] property, as
    a block does once [applyState] has inserted it; the stores know the
    block. *)
Definition stamped_block : Notebook :=
  mkNotebook (Some demo_page)
    [demo_block "a1000000-0000-4000-8000-000000000000"
       ("hello" +:+ id_property "a1000000-0000-4000-8000-000000000000") []]
    [] false O.

Definition stamped_world : World Notebook :=
  mkWorld stamped_block []
    (<["a1000000-0000-4000-8000-000000000000" := demo_uuid 0]> ∅)
    (<[demo_uuid 0 := "a1000000-0000-4000-8000-000000000000"]> ∅)
    O.

(** [applyState(id, await calculateState(id))] *)
Definition round_trip {H} `{Editor H} (atJsonParser : string -> InputSchema)
  (v4 : nat -> string) (notebookPageId : string)
  : Promise H (JsRecord.t string) :=
  doc ← calculateState atJsonParser v4 notebookPageId;
  applyState notebookPageId doc.

(** *** Vocabulary of the further properties *)

(** The length of the delimiters the serializer writes for an annotation. *)
Definition delimiters (a : Annotation) : Z :=
  Js.len (Serializer.prefix (Serializer.appliedAnnotation a))
  + Js.len (Serializer.suffix (Serializer.appliedAnnotation a)).

Definition total_delimiters (anns : list Annotation) : Z :=
  fold_right (fun a n => delimiters a + n) 0 anns.

(** The annotation types the serializer has delimiters for. *)
Definition is_markup (t : AnnotationType) : bool :=
  match t with
  | bold | highlighting | italics | strikethrough | link _ => true
  | _ => false
  end.

(** What the parser makes of a block: [atJsonParser(blockGrammar, preContent)]. *)
Definition parsed_of (atJsonParser : string -> InputSchema)
  (f : BlockEntity.t) : InputSchema :=
  atJsonParser (preContent (BlockEntity.uuid f) (BlockEntity.content f)).

(** A block annotation with the view type [applyState] gives every node. *)
Definition bulleted (a : Annotation) : Annotation :=
  match type a with
  | block identifier level _ =>
      mkAnnotation (start a) (end_ a) (block identifier level bullet)
  | _ => a
  end.

(** The annotations of blocks laid out one after the other from [index]:
    for each block its block annotation, then its inline annotations. *)
Fixpoint segments (atJsonParser : string -> InputSchema)
  (idof : string -> string) (index : Z) (blocks : list (Z * BlockEntity.t))
  : list Annotation :=
  match blocks with
  | [] => []
  | (level, f) :: rest =>
      let parsed := parsed_of atJsonParser f in
      let end' := Js.len (content parsed) + index in
      (mkAnnotation index end' (block (idof (BlockEntity.uuid f)) level bullet)
         :: map (rebase index) (annotations parsed))
        ++ segments atJsonParser idof end' rest
  end.

(** The plain texts of the blocks, one after the other. *)
Fixpoint plain_text (atJsonParser : string -> InputSchema)
  (blocks : list (Z * BlockEntity.t)) : string :=
  match blocks with
  | [] => ""
  | (_, f) :: rest =>
      content (parsed_of atJsonParser f) +:+ plain_text atJsonParser rest
  end.

(** The ranges of the block annotations, in document order. *)
Fixpoint block_ranges (anns : list Annotation) : list (Z * Z) :=
  match anns with
  | [] => []
  | a :: rest =>
      match type a with
      | block _ _ _ => (start a, end_ a) :: block_ranges rest
      | _ => block_ranges rest
      end
  end.

(** Ranges that follow one another from [lo] to [hi] without a gap. *)
Fixpoint chained (lo hi : Z) (ranges : list (Z * Z)) : Prop :=
  match ranges with
  | [] => lo = hi
  | (s, e) :: rest => s = lo /\ s <= e /\ chained e hi rest
  end.

(** Every block of the forest has an identifier in the store. *)
Definition populated {H} (w : World H) (blocks : list BlockEntity.t) : Prop :=
  Forall (fun f => Js.truthy (global_of w (BlockEntity.uuid f)) = true) blocks.

(** The node objects [applyState] makes for blocks, the first at address
    [a], each with the text [text_of] gives it. *)
Fixpoint nodes_with (text_of : BlockEntity.t -> string)
  (idof : string -> string) (a : nat) (blocks : list (Z * BlockEntity.t))
  : list (Z * InputTextNode.t) :=
  match blocks with
  | [] => []
  | (level, f) :: rest =>
      (level,
       InputTextNode.mk a (text_of f) (idof (BlockEntity.uuid f)) bullet)
        :: nodes_with text_of idof (S a) rest
  end.

(** The entries of [mapping] for blocks: identifier and node address. *)
Fixpoint addresses (idof : string -> string) (a : nat)
  (blocks : list (Z * BlockEntity.t)) : list (string * nat) :=
  match blocks with
  | [] => []
  | (_, f) :: rest =>
      (idof (BlockEntity.uuid f), a) :: addresses idof (S a) rest
  end.

(** The entries of [contentAnnotations] for blocks laid out from [index]. *)
Fixpoint ranges_made (atJsonParser : string -> InputSchema)
  (idof : string -> string) (index : Z) (blocks : list (Z * BlockEntity.t))
  : list (string * ContentAnnotation.t) :=
  match blocks with
  | [] => []
  | (_, f) :: rest =>
      let parsed := parsed_of atJsonParser f in
      let end' := Js.len (content parsed) + index in
      (idof (BlockEntity.uuid f),
       ContentAnnotation.mk index end' (map (rebase index) (annotations parsed)))
        :: ranges_made atJsonParser idof end' rest
  end.

(** The plain text the parser reads off a block. *)
Definition plain_of (atJsonParser : string -> InputSchema)
  (f : BlockEntity.t) : string :=
  content (parsed_of atJsonParser f).

(** The parser's annotations of a block are inline ones, and each spans
    at least one character of the plain text. *)
Definition spans_text (atJsonParser : string -> InputSchema)
  (f : BlockEntity.t) : Prop :=
  Forall (fun a => is_inline (type a) = true
                   /\ 0 <= start a /\ start a < end_ a
                   /\ end_ a <= Js.len (plain_of atJsonParser f))
    (annotations (parsed_of atJsonParser f)).

(** The text the serializer writes for what the parser read off a block. *)
Definition serialized (atJsonParser : string -> InputSchema)
  (f : BlockEntity.t) : string :=
  Serializer.annotatedText (plain_of atJsonParser f)
    (annotations (parsed_of atJsonParser f)).

(** What [applyState] compares of a node it expects: identifier and text. *)
Definition labelled (n : InputTextNode.t) : string * string :=
  (InputTextNode.uuid n, InputTextNode.content n).

(** The store of [w'] has every identifier the store of [w] has. *)
Definition extends {H} (w w' : World H) : Prop :=
  forall u, Js.truthy (global_of w u) = true -> global_of w' u = global_of w u.

(** The ranges blocks take when laid out one after the other from [index]. *)
Fixpoint tiling (atJsonParser : string -> InputSchema) (index : Z)
  (blocks : list (Z * BlockEntity.t)) : list (Z * Z) :=
  match blocks with
  | [] => []
  | (_, f) :: rest =>
      let end' := Js.len (plain_of atJsonParser f) + index in
      (index, end') :: tiling atJsonParser end' rest
  end.

(** Two entries of flattened forests that stand for the same node: the
    nodes agree under [gA] and [gB], the sibling indices are equal, and the
    parents are the two roots or two nodes that agree. *)
Definition flat_related {A B C : Type} (uA : A -> string) (uB : B -> string)
  (gA : A -> C) (gB : B -> C) (ra rb : string) (scope : list B)
  (ea : Flat A) (eb : Flat B) : Prop :=
  gA (node ea) = gB (node eb)
  /\ order ea = order eb
  /\ ((parentUuid ea = ra /\ parentUuid eb = rb)
      \/ exists fa fb,
           In fb scope /\ gA fa = gB fb
           /\ parentUuid ea = Js.or_else (uA fa) ""
           /\ parentUuid eb = Js.or_else (uB fb) "").

(** The host knows [notebookPageId] as the page [p] with the blocks [t],
    not as a block, and has nothing at the database id 0; it answers these
    reads without changing. *)
Definition serves_page {H} `{Editor H} (notebookPageId : string) (h : H)
  (p : PageEntity.t) (t : list BlockEntity) : Prop :=
  perform (GetPageByPropertyId notebookPageId) h = (Resolved (Some p), h)
  /\ perform (GetPageBlocksTree (PageEntity.originalName p)) h
     = (Resolved (Some t), h)
  /\ perform (GetBlock (ByUuid notebookPageId) false) h = (Resolved None, h)
  /\ perform (GetBlock (ById 0) false) h = (Resolved None, h)
  /\ perform (GetPage 0) h = (Resolved None, h).

(** From [w] to [w'] the notebook was only read: the host, the stores and
    the uuids drawn are as they were, and no call changed the notebook. *)
Definition quiet {H} (w w' : World H) : Prop :=
  host w' = host w
  /\ logseq_to_samepage w' = logseq_to_samepage w
  /\ samepage_to_logseq w' = samepage_to_logseq w
  /\ drawn w' = drawn w
  /\ List.filter is_mutation (calls w') = List.filter is_mutation (calls w).

(** The serializer gives back the block's own text for what the parser
    read off it. *)
Definition reproduced (atJsonParser : string -> InputSchema)
  (f : BlockEntity.t) : Prop :=
  serialized atJsonParser f = BlockEntity.content f.

(** The document [calculateState] makes of a page titled [title] with the
    content blocks [nodes], whose identifiers are given by [idof]. *)
Definition encoded_page (atJsonParser : string -> InputSchema)
  (idof : string -> string) (nodes : list BlockEntity) (title parent : string)
  : InputSchema :=
  let s := encode atJsonParser idof nodes 0 (Js.len title) bullet in
  mkSchema (title +:+ content s)
    (mkAnnotation 0 (Js.len title) (metadata title parent) :: annotations s).

(** A parser for the examples: a text wrapped in ["**"] is bold as a
    whole, any other text is plain. *)
Definition whole_bold_parser (s : string) : InputSchema :=
  match Js.strip_prefix "**" s with
  | Some r =>
      let n := Js.len r in
      if ((2 <? n) && String.eqb (Js.slice_from r (n - 2)) "**")%bool
      then mkSchema (Js.slice r 0 (n - 2)) [mkAnnotation 0 (n - 2) bold]
      else mkSchema s []
  | None => mkSchema s []
  end.

(** The page [Home] with a bold block, its child and a second block, all
    known to the stores. *)
Definition outline : Notebook :=
  mkNotebook (Some demo_page)
    [demo_block "a1000000-0000-4000-8000-000000000000" "**hello**"
       [demo_block "a2000000-0000-4000-8000-000000000000" "world" []];
     demo_block "a3000000-0000-4000-8000-000000000000" "bye" []]
    [] false O.

Definition outline_world : World Notebook :=
  mkWorld outline [] (logseq_to_samepage three_blocks_world)
    (samepage_to_logseq three_blocks_world) O.

(** No character of [s] is a slash. *)
Definition slash_free (s : string) : bool :=
  all_chars (fun c => negb (Ascii.eqb c "/")) s.

(** The text with the delimiters of each annotation written around its
    span, for annotations that follow one another from [pos]. *)
Fixpoint render (text : string) (pos : Z) (anns : list Annotation) : string :=
  match anns with
  | [] => Js.slice_from text pos
  | a :: rest =>
      Js.slice text pos (start a)
        +:+ Serializer.prefix (Serializer.appliedAnnotation a)
        +:+ Js.slice text (start a) (end_ a)
        +:+ Serializer.suffix (Serializer.appliedAnnotation a)
        +:+ render text (end_ a) rest
  end.

(** Annotations that follow one another between [pos] and [hi], none
    overlapping the next, each spanning at least one character. *)
Fixpoint in_reading_order (pos hi : Z) (anns : list Annotation) : Prop :=
  match anns with
  | [] => pos <= hi
  | a :: rest =>
      pos <= start a /\ start a < end_ a /\ in_reading_order (end_ a) hi rest
  end.

(** *** How the operations are run *)

(** The operations run in turn from the record [s] and the world [w]: each
    one starts from what the one before it left, and only if that one
    resolved; the first rejection is the result. *)
Inductive runs_in_turn {H : Type} `{Editor H} (notebookPageId : string)
  (expected : JsRecord.t (Flat InputTextNode.t))
  (actual : JsRecord.t (Flat BlockEntity.t))
  : list Op -> JsRecord.t string -> World H
    -> Outcome (JsRecord.t string) -> World H -> Prop :=
| turn_done (s : JsRecord.t string) (w : World H) :
    runs_in_turn notebookPageId expected actual [] s w (Resolved s) w
| turn_next (o : Op) (ops : list Op) (s s1 : JsRecord.t string)
    (w w1 w2 : World H) (r : Outcome (JsRecord.t string)) :
    run_op notebookPageId expected actual o s w = (Resolved s1, w1) ->
    runs_in_turn notebookPageId expected actual ops s1 w1 r w2 ->
    runs_in_turn notebookPageId expected actual (o :: ops) s w r w2
| turn_stop (o : Op) (ops : list Op) (s : JsRecord.t string)
    (w w1 : World H) (e : string) :
    run_op notebookPageId expected actual o s w = (Rejected e, w1) ->
    runs_in_turn notebookPageId expected actual (o :: ops) s w (Rejected e) w1.

(** The calls the metadata operation makes. *)
Definition initial_call (notebookPageId : string)
  (meta : option (string * string)) (c : HostCall) : bool :=
  match meta with
  | None => false
  | Some (title, _) =>
      match c with
      | GetBlock (ByUuid u) false => String.eqb u notebookPageId
      | GetPageByPropertyId u => String.eqb u notebookPageId
      | GetPageBlocksTree t => String.eqb t title
      | UpdateBlock _ t => String.eqb t title
      | UpsertBlockProperty _ k v =>
          (String.eqb k "samepage" && String.eqb v notebookPageId)%bool
      | RenamePage _ t => String.eqb t title
      | _ => false
      end
  end.

(** The calls an insertion makes. *)
Definition insert_call (notebookPageId : string) (c : HostCall) : bool :=
  match c with
  | GetPageByPropertyId u => String.eqb u notebookPageId
  | GetPageBlocksTree _ => true
  | GetBlock _ true => true
  | InsertBlock _ _ _ | AppendBlockInPage _ _ => true
  | UpsertBlockProperty u k v => (String.eqb k "id" && String.eqb u v)%bool
  | _ => false
  end.

(** [t] is a list of calls operation [o] can make: reads and writes of its
    own kind for the metadata operation and for an insertion, the one
    [removeBlock] of a removal, and at most one [moveBlock] or
    [updateBlock] of the block for an update. *)
Definition made_by (notebookPageId : string) (o : Op) (t : list HostCall)
  : Prop :=
  match o with
  | Initial meta => forallb (initial_call notebookPageId meta) t = true
  | Remove uuid => t = [RemoveBlock uuid]
  | Insert _ => forallb (insert_call notebookPageId) t = true
  | UpdateOrMove _ logseqUuid =>
      t = []
      \/ (exists target, t = [MoveBlock logseqUuid target])
      \/ (exists text, t = [UpdateBlock logseqUuid text])
  end.

(** Every call a promise makes satisfies [P], and the calls made so far
    stay as they are. *)
Definition makes {H : Type} {A : Type} (P : HostCall -> bool)
  (m : Promise H A) : Prop :=
  forall w r w1, m w = (r, w1) ->
    exists t, calls w1 = calls w ++ t /\ forallb P t = true.

(** A document that has the identifier of its first block again on a
    block nested under the second, and a document whose two blocks, a
    parent and its child, are identified by array indices. *)
Definition repeated_identifier : InputSchema :=
  mkSchema "Homeabc"
    [mkAnnotation 0 4 (metadata "Home" "");
     mkAnnotation 4 5 (block (demo_uuid 0) 0 bullet);
     mkAnnotation 5 6 (block (demo_uuid 1) 0 bullet);
     mkAnnotation 6 7 (block (demo_uuid 0) 1 bullet)].

Definition index_identifiers : InputSchema :=
  mkSchema "Homeab"
    [mkAnnotation 0 4 (metadata "Home" "");
     mkAnnotation 4 5 (block "2" 0 bullet);
     mkAnnotation 5 6 (block "1" 1 bullet)].

(** *** The removals *)

(** The blocks [uuids] removed in turn from [w]: the host removes each
    block, and then the block's entry goes from [logseq-to-samepage] and
    the entry of the identifier it had there from [samepage-to-logseq]. *)
Inductive removed {H : Type} `{Editor H}
  : list string -> World H -> World H -> Prop :=
| removed_nil (w : World H) : removed [] w w
| removed_cons (uuid : string) (uuids : list string) (w w' : World H) (h : H) :
    perform (RemoveBlock uuid) (host w) = (Resolved tt, h) ->
    removed uuids
      (mkWorld h (calls w ++ [RemoveBlock uuid])
         (delete uuid (logseq_to_samepage w))
         (delete (global_of w uuid) (samepage_to_logseq w)) (drawn w)) w' ->
    removed (uuid :: uuids) w w'.

(** The page [Home] with one block that holds a property only, known to
    the stores, and a document with the block's identifier. *)
Definition property_only_page : Notebook :=
  mkNotebook (Some demo_page)
    [demo_block "a1000000-0000-4000-8000-000000000000" "tags:: draft" []]
    [] false O.

Definition property_only_world : World Notebook :=
  mkWorld property_only_page []
    (<["a1000000-0000-4000-8000-000000000000" := demo_uuid 0]> ∅)
    (<[demo_uuid 0 := "a1000000-0000-4000-8000-000000000000"]> ∅)
    O.

Definition one_block : InputSchema :=
  mkSchema "Homehello"
    [mkAnnotation 0 4 (metadata "Home" "");
     mkAnnotation 4 9 (block (demo_uuid 0) 0 bullet)].

(** The same page later: the first block has text now, and the block
    [applyState] made for the document is beside it; the stores are as
    [applyState] left them. *)
Definition both_blocks_page : Notebook :=
  mkNotebook (Some demo_page)
    [demo_block "a1000000-0000-4000-8000-000000000000" "a draft" [];
     demo_block "0a000000-0000-4000-8000-000000000000" "hello" []]
    [] false O.

Definition both_blocks_world : World Notebook :=
  let after :=
    snd (applyState "9e000000-0000-4000-8000-000000000000" one_block
           property_only_world) in
  mkWorld both_blocks_page [] (logseq_to_samepage after)
    (samepage_to_logseq after) O.

(** A text made of property lines only, the last one closed by a newline
    or not. *)
Definition only_properties (s : string) : Prop :=
  exists l,
    l <> [] /\ forallb is_property l = true
    /\ (s = property_lines l \/ s +:+ Regex.nl = property_lines l).

(** The page [Home] with a block and, nested under it, a block that holds
    a property only. *)
Definition nested_property_page : Notebook :=
  mkNotebook (Some demo_page)
    [demo_block "a1000000-0000-4000-8000-000000000000" "hello"
       [demo_block "a2000000-0000-4000-8000-000000000000" "tags:: draft" []]]
    [] false O.

(** *** What the three patterns of [toAtJson] match *)

(** [m] is what a pattern matches at the head of [m ++ rest]. For
    [/\nid:: <uuid>/] it is the newline, [id:: ] and the uuid; for
    [/\ntitle:: [^\n]+/] the newline, [title:: ] and what is left of the
    line, which is not empty; for the [samepage] pattern the newline,
    [samepage:: ] and five groups of hexadecimal digits. *)
Definition id_match (uuid : string) (m rest : string) : Prop :=
  m = id_property uuid.

Definition title_match (m rest : string) : Prop :=
  exists t,
    m = title_property t /\ Js.truthy t = true
    /\ all_chars Regex.not_newline t = true
    /\ Js.count_while Regex.not_newline rest = O.

Definition samepage_match (m rest : string) : Prop :=
  exists a b c d e,
    uuid_groups a b c d e = true
    /\ m = samepage_property (uuid_of_groups a b c d e).

(** [s'] is [s] without the leftmost match: the text before the match and
    the text after it, or [s] itself when nothing matches. *)
Definition without_first (matches : string -> string -> Prop)
  (s s' : string) : Prop :=
  (exists pre m post,
      s = pre +:+ m +:+ post
      /\ matches m post
      /\ (forall p1 p2 m' post',
             pre = p1 +:+ p2 -> p2 <> "" ->
             p2 +:+ m +:+ post = m' +:+ post' -> ~ matches m' post')
      /\ s' = pre +:+ post)
  \/ ((forall p1 m' post', s = p1 +:+ m' +:+ post' -> ~ matches m' post')
      /\ s' = s).

(** The pattern [re] finds at the head of a text what [matches]
    describes. *)
Definition recognises (re : Regex.Pattern)
  (matches : string -> string -> Prop) : Prop :=
  forall s n,
    re s = Some n
    <-> exists m post, s = m +:+ post /\ matches m post /\ n = String.length m.

(** * Part II: properties *)

(** ** Strings *)

Lemma append_cons (x : ascii) (a b : string) :
  String x a +:+ b = String x (a +:+ b).
Proof. reflexivity. Qed.

Lemma append_nil_l (b : string) : "" +:+ b = b.
Proof. reflexivity. Qed.

Lemma length_append (a b : string) :
  String.length (a +:+ b) = (String.length a + String.length b)%nat.
Proof.
  induction a as [|c a IH]; [reflexivity |].
  rewrite append_cons. simpl. now rewrite IH.
Qed.

Lemma len_append (a b : string) : Js.len (a +:+ b) = Js.len a + Js.len b.
Proof. unfold Js.len. rewrite length_append. lia. Qed.

Lemma len_nonneg (s : string) : 0 <= Js.len s.
Proof. unfold Js.len. lia. Qed.

Lemma append_assoc (a b c : string) : (a +:+ b) +:+ c = a +:+ (b +:+ c).
Proof.
  induction a as [|x a IH]; [reflexivity |].
  rewrite !append_cons. now rewrite IH.
Qed.

Lemma append_nil_r (a : string) : a +:+ "" = a.
Proof.
  induction a as [|x a IH]; [reflexivity |].
  rewrite append_cons. now rewrite IH.
Qed.

Lemma truthy_spec (s : string) : Js.truthy s = true <-> s <> "".
Proof. destruct s; cbn; split; congruence. Qed.

Lemma drop_append (a b : string) : Js.drop (String.length a) (a +:+ b) = b.
Proof.
  induction a as [|x a IH]; [now destruct b |].
  rewrite append_cons. simpl. exact IH.
Qed.

Lemma strip_prefix_append (p s : string) : Js.strip_prefix p (p +:+ s) = Some s.
Proof.
  induction p as [|x p IH]; [now destruct s |].
  rewrite append_cons. simpl. now rewrite Ascii.eqb_refl.
Qed.

(** ** The serializer *)

Lemma annotatedText_cons (text : string) (c : Annotation) (later : list Annotation) :
  Serializer.annotatedText text (c :: later)
  = Serializer.annotatedText
      (Serializer.wrap text c (Serializer.appliedAnnotation c))
      (map (Serializer.shift c (Serializer.appliedAnnotation c)) later).
Proof.
  unfold Serializer.annotatedText.
  cbn [List.length Serializer.reduce Serializer.step].
  now rewrite length_map.
Qed.

(** C1. After the substring addressed by [c] is wrapped, the reducer goes on
    with every later annotation [a] moved: its [start] by the prefix length
    when [a.start >= c.start] plus the suffix length when
    [a.start >= c.end]; its [end] by the prefix length when
    [a.end >= c.start] plus the suffix length when [a.end > c.end]. On
    ["helloworld"] with bold [0,5) then link [5,10) to ["x"] the result is
    ["**hello**[world](x)"]. *)
Theorem serializer_shifts_later_annotations :
  (forall (text : string) (c : Annotation) (later : list Annotation),
      let ap := Serializer.appliedAnnotation c in
      let pl := Js.len (Serializer.prefix ap) in
      let sl := Js.len (Serializer.suffix ap) in
      Serializer.annotatedText text (c :: later)
      = Serializer.annotatedText (Serializer.wrap text c ap)
          (map (Serializer.shift c ap) later)
      /\ Forall2
           (fun a a' =>
              start a' = start a
                         + (if start c <=? start a then pl else 0)
                         + (if end_ c <=? start a then sl else 0)
              /\ end_ a' = end_ a
                           + (if start c <=? end_ a then pl else 0)
                           + (if end_ c <? end_ a then sl else 0)
              /\ type a' = type a)
           later (map (Serializer.shift c ap) later))
  /\ Serializer.annotatedText "helloworld"
       [mkAnnotation 0 5 bold; mkAnnotation 5 10 (link "x")]
     = "**hello**[world](x)".
Proof.
  split; [| reflexivity].
  intros text c later ap pl sl. split.
  - apply annotatedText_cons.
  - induction later as [|a later IH]; cbn [map]; constructor; [| exact IH].
    unfold Serializer.shift. cbn [start end_ type]. fold ap pl sl.
    rewrite !Z.geb_leb, Z.gtb_ltb. repeat split; lia.
Qed.

(** ** The content-block filter *)

Lemma count_while_all (p : ascii -> bool) (a b : string) :
  all_chars p a = true ->
  Js.count_while p b = O ->
  Js.count_while p (a +:+ b) = String.length a.
Proof.
  intros Ha Hb. induction a as [|c a IH]; [exact Hb |].
  rewrite append_cons. simpl in *.
  apply andb_prop in Ha as [Hc Ha]. rewrite Hc. now rewrite IH.
Qed.

Lemma remove_all_from_skip (re : Regex.Pattern) (s1 s2 : string) :
  Regex.remove_all_from re (String.length s1) (s1 +:+ s2)
  = Regex.remove_all_from re O s2.
Proof.
  induction s1 as [|c s1 IH]; [now destruct s2 |].
  rewrite append_cons. simpl. exact IH.
Qed.

Lemma remove_all_match (re : Regex.Pattern) (m rest : string) :
  m <> "" ->
  re (m +:+ rest) = Some (String.length m) ->
  Regex.remove_all re (m +:+ rest) = Regex.remove_all re rest.
Proof.
  intros Hm Hre. unfold Regex.remove_all.
  destruct m as [|c m]; [congruence |].
  rewrite append_cons in *. cbn [Regex.remove_all_from].
  rewrite Hre. cbn [String.length]. apply remove_all_from_skip.
Qed.

(** The pattern at the head of [key:: value] followed by [tail], a text
    that is empty or opens with a newline. *)
Lemma property_matches (k v tail : string) :
  is_property (k, v) = true ->
  Js.count_while Regex.not_newline tail = O ->
  Regex.property (k +:+ ":: " +:+ v +:+ tail)
  = Some (String.length k + 3 + String.length v
          + match tail with
            | String c _ => if Ascii.eqb c Regex.newline then 1 else 0
            | EmptyString => 0
            end)%nat.
Proof.
  unfold is_property. cbn [fst snd]. intros Hkv Htail.
  apply andb_prop in Hkv as [Hkv Hv2]. apply andb_prop in Hkv as [Hkv Hv1].
  apply andb_prop in Hkv as [Hk1 Hk2].
  unfold Regex.property.
  rewrite (count_while_all _ k _ Hk2) by reflexivity.
  destruct k as [|kc k]; [discriminate |].
  cbn [String.length].
  change (S (String.length k)) with (String.length (String kc k)).
  rewrite drop_append.
  rewrite strip_prefix_append.
  rewrite (count_while_all _ v _ Hv2) by exact Htail.
  destruct v as [|vc v]; [discriminate |].
  cbn [String.length].
  change (S (String.length v)) with (String.length (String vc v)).
  rewrite drop_append. reflexivity.
Qed.

(** The pattern matches a property line at the head of a text, together
    with the newline that closes it. *)
Lemma property_matches_line (kv : string * string) (rest : string) :
  is_property kv = true ->
  Regex.property (property_line kv +:+ Regex.nl +:+ rest)
  = Some (String.length (property_line kv +:+ Regex.nl)).
Proof.
  destruct kv as [k v]. intros Hkv. unfold property_line. cbn [fst snd].
  rewrite !append_assoc.
  rewrite (property_matches k v (Regex.nl +:+ rest) Hkv) by reflexivity.
  f_equal. rewrite !length_append. unfold Regex.nl.
  rewrite append_cons. cbn [String.length]. rewrite Ascii.eqb_refl. lia.
Qed.

(** The same for a last line that no newline closes. *)
Lemma property_matches_open_line (kv : string * string) :
  is_property kv = true ->
  Regex.property (property_line kv)
  = Some (String.length (property_line kv)).
Proof.
  destruct kv as [k v]. intros Hkv. unfold property_line. cbn [fst snd].
  rewrite <- (append_nil_r v) at 1.
  rewrite (property_matches k v "" Hkv) by reflexivity.
  f_equal. rewrite !length_append. cbn [String.length]. lia.
Qed.

Lemma property_line_nonempty (kv : string * string) (rest : string) :
  is_property kv = true -> property_line kv +:+ rest <> "".
Proof.
  destruct kv as [[|c k] v]; [discriminate |].
  unfold property_line. cbn [fst]. now rewrite append_cons.
Qed.

Lemma remove_all_property_lines (l : list (string * string)) (rest : string) :
  forallb is_property l = true ->
  Regex.remove_all Regex.property (property_lines l +:+ rest)
  = Regex.remove_all Regex.property rest.
Proof.
  induction l as [|kv l IH]; intros Hl; [reflexivity |].
  cbn [forallb] in Hl. apply andb_prop in Hl as [Hkv Hl].
  cbn [property_lines]. rewrite !append_assoc.
  rewrite <- (append_assoc (property_line kv) Regex.nl).
  rewrite remove_all_match.
  - now apply IH.
  - now apply property_line_nonempty.
  - rewrite append_assoc. now apply property_matches_line.
Qed.

(** ** What the encoder removes from a block's content *)

Lemma hex_run_group (n : nat) (a r : string) :
  hex_group n a = true -> Regex.hex_run n (a +:+ r) = Some r.
Proof.
  unfold hex_group. revert a. induction n as [|n IH]; intros a Ha;
    apply andb_prop in Ha as [Hn Hhex]; destruct a as [|c a];
    try discriminate.
  - reflexivity.
  - rewrite append_cons. cbn [Regex.hex_run]. cbn [all_chars] in Hhex.
    apply andb_prop in Hhex as [Hc Hhex]. rewrite Hc.
    apply IH. cbn in Hn. now rewrite Hn, Hhex.
Qed.

Lemma samepage_line_matches (a b c d e rest : string) :
  uuid_groups a b c d e = true ->
  Regex.samepage_line
    (Regex.nl +:+ "samepage:: " +:+ uuid_of_groups a b c d e +:+ rest)
  = Some (String.length
            (Regex.nl +:+ "samepage:: " +:+ uuid_of_groups a b c d e)).
Proof.
  unfold uuid_groups. intros Hg.
  apply andb_prop in Hg as [Hg He]. apply andb_prop in Hg as [Hg Hd].
  apply andb_prop in Hg as [Hg Hc]. apply andb_prop in Hg as [Ha Hb].
  unfold Regex.samepage_line.
  rewrite <- append_assoc with (a := Regex.nl).
  rewrite strip_prefix_append.
  unfold uuid_of_groups. rewrite !append_assoc.
  rewrite (hex_run_group 8 a _ Ha). cbn [mbind option_bind].
  assert (Hdash : forall x, Regex.dash ("-" +:+ x) = Some x) by reflexivity.
  rewrite !Hdash. cbn [mbind option_bind].
  rewrite (hex_run_group 4 b _ Hb). cbn [mbind option_bind].
  rewrite Hdash. cbn [mbind option_bind].
  rewrite (hex_run_group 4 c _ Hc). cbn [mbind option_bind].
  rewrite Hdash. cbn [mbind option_bind].
  rewrite (hex_run_group 4 d _ Hd). cbn [mbind option_bind].
  rewrite Hdash. cbn [mbind option_bind].
  rewrite (hex_run_group 12 e _ He).
  f_equal. rewrite !length_append.
  unfold hex_group in *.
  apply andb_prop in Ha as [Ha _]. apply andb_prop in Hb as [Hb _].
  apply andb_prop in Hc as [Hc _]. apply andb_prop in Hd as [Hd _].
  apply andb_prop in He as [He _].
  apply Nat.eqb_eq in Ha, Hb, Hc, Hd, He.
  rewrite Ha, Hb, Hc, Hd, He. reflexivity.
Qed.

(** ** Block trees *)

Lemma Tree_induction {A} (P : Tree A -> Prop) :
  (forall f ch, Forall P ch -> P (Node f ch)) -> forall t, P t.
Proof.
  intros step. fix IH 1. intros [f ch]. apply step.
  induction ch as [|c ch IHch]; constructor; [apply IH | exact IHch].
Qed.

(** ** Promises *)

Section PromiseFacts.
Context {H : Type}.

Lemma bind_resolved {A B} (m : Promise H A) (k : A -> Promise H B)
  (w w1 : World H) (a : A) :
  m w = (Resolved a, w1) -> (m ≫= k) w = k a w1.
Proof.
  intros Hm. unfold mbind, promise_bind, and_then. now rewrite Hm.
Qed.

Lemma bind_rejected {A B} (m : Promise H A) (k : A -> Promise H B)
  (w w1 : World H) (e : string) :
  m w = (Rejected e, w1) -> (m ≫= k) w = (Rejected e, w1).
Proof.
  intros Hm. unfold mbind, promise_bind, and_then. now rewrite Hm.
Qed.

Lemma ret_resolved {A} (a : A) (w : World H) :
  (mret a : Promise H A) w = (Resolved a, w).
Proof. reflexivity. Qed.

End PromiseFacts.

(** ** The encoder is total, and its layout does not depend on the store *)

(** What the encoder leaves alone: the host and the record of calls. *)
Definition same_host {H} (w w' : World H) : Prop :=
  host w' = host w /\ calls w' = calls w.

Lemma same_layout_refl (s : InputSchema) : same_layout s s.
Proof. split; reflexivity. Qed.

Lemma same_layout_concat (p p' c c' : InputSchema) :
  same_layout p p' -> same_layout c c' ->
  same_layout (concat_schema p c) (concat_schema p' c').
Proof.
  intros [Hc Ha] [Hc' Ha']. split; cbn.
  - now rewrite Hc, Hc'.
  - now rewrite !map_app, Ha, Ha'.
Qed.

Section EncoderFacts.
Context {H : Type} `{Editor H}.
Context (atJsonParser : string -> InputSchema).
Context (v4 : nat -> string).

Lemma identifier_of_resolves (uuid : string) (w : World H) :
  exists identifier w',
    identifier_of v4 uuid w = (Resolved identifier, w') /\ same_host w w'.
Proof.
  unfold identifier_of.
  destruct (Js.truthy (default "" (logseq_to_samepage w !! uuid))) eqn:Ht.
  - eexists _, w. split; [| split; reflexivity].
    erewrite bind_resolved by reflexivity. now rewrite Ht.
  - eexists _, _. split.
    + erewrite bind_resolved by reflexivity. rewrite Ht.
      erewrite bind_resolved by reflexivity.
      erewrite bind_resolved by reflexivity. reflexivity.
    + split; reflexivity.
Qed.

Lemma reduce_nodes_layout
  (each : BlockEntity -> Z -> Promise H InputSchema)
  (each' : BlockEntity -> Z -> InputSchema) (startIndex : Z)
  (nodes : list BlockEntity) :
  Forall (fun n => forall index (w : World H), exists c w',
              each n index w = (Resolved c, w') /\ same_host w w'
              /\ same_layout c (each' n index)) nodes ->
  forall p p' w, same_layout p p' ->
    exists r w',
      reduce_nodes each startIndex nodes p w = (Resolved r, w')
      /\ same_host w w'
      /\ same_layout r (encode_nodes each' startIndex nodes p').
Proof.
  induction 1 as [|n rest Hn _ IH]; intros p p' w Hp.
  - exists p, w. repeat split; apply Hp.
  - destruct (Hn (startIndex + Js.len (content p)) w)
      as (c & w1 & Hc & [Hh1 Hc1] & Hl).
    assert (Hlen : content p = content p') by apply Hp.
    destruct (IH (concat_schema p c)
                (concat_schema p' (each' n (startIndex + Js.len (content p'))))
                w1) as (r & w2 & Hr & [Hh2 Hc2] & Hl2).
    { apply same_layout_concat; [exact Hp |]. now rewrite <- Hlen. }
    exists r, w2. split; [| split; [split |]].
    + cbn [reduce_nodes]. erewrite bind_resolved by exact Hc. exact Hr.
    + now rewrite Hh2.
    + now rewrite Hc2.
    + exact Hl2.
Qed.

(** [toAtJson] settles for every tree: it resolves, it leaves the host
    alone, and but for the identifiers its document is [encode]'s. *)
Lemma toAtJson_node_layout (idof : string -> string) (n : BlockEntity) :
  forall level viewType index (w : World H), exists s w',
    toAtJson_node atJsonParser v4 level viewType n index w = (Resolved s, w')
    /\ same_host w w'
    /\ same_layout s (encode_node atJsonParser idof level viewType n index).
Proof.
  induction n as [f ch IH] using Tree_induction.
  intros level viewType index w.
  destruct (identifier_of_resolves (BlockEntity.uuid f) w)
    as (identifier & w1 & Hid & [Hh1 Hc1]).
  set (parsed := atJsonParser
                   (preContent (BlockEntity.uuid f) (BlockEntity.content f))).
  set (end' := Js.len (content parsed) + index).
  destruct (reduce_nodes_layout
              (toAtJson_node atJsonParser v4 (level + 1)
                 (default viewType (BlockEntity.viewType f)))
              (encode_node atJsonParser idof (level + 1)
                 (default viewType (BlockEntity.viewType f)))
              end' ch) with (p := mkSchema "" []) (p' := mkSchema "" []) (w := w1)
    as (kids & w2 & Hkids & [Hh2 Hc2] & [Hkc Hka]).
  { eapply List.Forall_impl; [| exact IH]. intros c Hc i w'. apply Hc. }
  { apply same_layout_refl. }
  eexists _, w2. split; [| split; [split |]].
  - cbn [toAtJson_node]. erewrite bind_resolved by exact Hid.
    fold parsed. fold end'.
    erewrite bind_resolved by exact Hkids. reflexivity.
  - now rewrite Hh2.
  - now rewrite Hc2.
  - cbn [encode_node]. fold parsed. fold end'. split; cbn [content annotations].
    + now rewrite Hkc.
    + rewrite !map_app, Hka. reflexivity.
Qed.

Lemma toAtJson_layout (idof : string -> string) (nodes : list BlockEntity)
  (level startIndex : Z) (viewType : ViewType) (w : World H) :
  exists s w',
    toAtJson atJsonParser v4 nodes level startIndex viewType w = (Resolved s, w')
    /\ same_host w w'
    /\ same_layout s (encode atJsonParser idof nodes level startIndex viewType).
Proof.
  unfold toAtJson, encode.
  apply reduce_nodes_layout; [| apply same_layout_refl].
  apply Forall_forall. intros n _ index w0. apply toAtJson_node_layout.
Qed.

End EncoderFacts.

(** ** Offsets of the encoded document *)

Lemma within_widen (lo hi lo' hi' : Z) (a : Annotation) :
  lo' <= lo -> hi <= hi' -> within lo hi a -> within lo' hi' a.
Proof. unfold within. lia. Qed.

Lemma within_anonymous (lo hi : Z) (a : Annotation) :
  within lo hi (anonymous a) <-> within lo hi a.
Proof. unfold within, anonymous. destruct a as [s e []]; cbn; tauto. Qed.

Lemma within_rebase (hi index : Z) (a : Annotation) :
  within 0 hi a -> within index (hi + index) (rebase index a).
Proof. unfold within, rebase. cbn. lia. Qed.

Lemma Forall_within_layout (lo hi : Z) (l l' : list Annotation) :
  map anonymous l = map anonymous l' ->
  Forall (within lo hi) l' -> Forall (within lo hi) l.
Proof.
  revert l'. induction l as [|a l IH]; intros [|a' l'] Hmap Hl';
    try discriminate; constructor.
  - cbn in Hmap. injection Hmap as Ha _. inversion Hl'; subst.
    apply within_anonymous. rewrite Ha. now apply within_anonymous.
  - cbn in Hmap. injection Hmap as _ Hmap. inversion Hl'; subst.
    now apply (IH l').
Qed.

Section EncodeBounds.
Context (atJsonParser : string -> InputSchema).
Context (idof : string -> string).
Hypothesis parser_ok : parser_in_bounds atJsonParser.

Definition in_bounds_from (index : Z) (s : InputSchema) : Prop :=
  Forall (within index (index + Js.len (content s))) (annotations s).

Lemma encode_nodes_bounds (each : BlockEntity -> Z -> InputSchema)
  (startIndex : Z) (nodes : list BlockEntity) :
  Forall (fun n => forall index, 0 <= index ->
                     in_bounds_from index (each n index)) nodes ->
  0 <= startIndex ->
  forall p, in_bounds_from startIndex p ->
            in_bounds_from startIndex (encode_nodes each startIndex nodes p).
Proof.
  intros Hall Hstart. induction Hall as [|n rest Hn _ IH]; intros p Hp.
  - exact Hp.
  - cbn [encode_nodes]. apply IH. unfold in_bounds_from, concat_schema.
    cbn [content annotations]. rewrite len_append.
    pose proof (len_nonneg (content p)) as Hlp.
    pose proof (len_nonneg (content (each n (startIndex + Js.len (content p)))))
      as Hlc.
    apply Forall_app. split.
    + eapply List.Forall_impl; [| exact Hp].
      intros a. apply within_widen; lia.
    + eapply List.Forall_impl; [| apply Hn; lia].
      intros a. apply within_widen; lia.
Qed.

Lemma encode_node_bounds (n : BlockEntity) :
  forall level viewType index, 0 <= index ->
    in_bounds_from index (encode_node atJsonParser idof level viewType n index).
Proof.
  induction n as [f ch IH] using Tree_induction.
  intros level viewType index Hindex. cbn [encode_node].
  set (parsed := atJsonParser
                   (preContent (BlockEntity.uuid f) (BlockEntity.content f))).
  set (end' := Js.len (content parsed) + index).
  set (kids := encode_nodes _ end' ch (mkSchema "" [])).
  pose proof (len_nonneg (content parsed)) as Hlp.
  assert (Hkids : in_bounds_from end' kids).
  { apply encode_nodes_bounds; [| lia | constructor].
    eapply List.Forall_impl; [| exact IH]. intros c Hc i Hi. now apply Hc. }
  pose proof (len_nonneg (content kids)) as Hlk.
  unfold in_bounds_from in *. cbn [content annotations].
  rewrite len_append.
  apply Forall_app; split; [apply Forall_app; split |].
  - constructor; [| constructor]. unfold within, end'. cbn. lia.
  - apply Forall_map. eapply List.Forall_impl; [| apply parser_ok].
    fold parsed. intros a Ha. apply (within_rebase _ index) in Ha.
    unfold compose. revert Ha. apply within_widen; lia.
  - eapply List.Forall_impl; [| exact Hkids].
    intros a. apply within_widen; unfold end'; lia.
Qed.

Lemma encode_bounds (nodes : list BlockEntity) (level startIndex : Z)
  (viewType : ViewType) :
  0 <= startIndex ->
  in_bounds_from startIndex
    (encode atJsonParser idof nodes level startIndex viewType).
Proof.
  intros Hs. unfold encode. apply encode_nodes_bounds; [| exact Hs | constructor].
  apply Forall_forall. intros n _ index Hi. now apply encode_node_bounds.
Qed.

End EncodeBounds.

Section PromiseInversion.
Context {H : Type}.

Lemma bind_resolved_inv {A B} (m : Promise H A) (k : A -> Promise H B)
  (w w' : World H) (b : B) :
  (m ≫= k) w = (Resolved b, w') ->
  exists a w1, m w = (Resolved a, w1) /\ k a w1 = (Resolved b, w').
Proof.
  unfold mbind, promise_bind, and_then.
  destruct (m w) as [[a|e] w1]; intros Hk; [eauto | discriminate].
Qed.

End PromiseInversion.

Ltac bind_inv Hb :=
  let a := fresh "a" in
  let w := fresh "w" in
  let Hm := fresh "Hm" in
  apply bind_resolved_inv in Hb; destruct Hb as (a & w & Hm & Hb).

Section CalculateStateFacts.
Context {H : Type} `{Editor H}.
Context (atJsonParser : string -> InputSchema).
Context (v4 : nat -> string).

Lemma call_resolved_inv (c : HostCall) (w w' : World H) (r : Response c) :
  call c w = (Resolved r, w') ->
  exists h, perform c (host w) = (Resolved r, h) /\ host w' = h.
Proof.
  unfold call. destruct (perform c (host w)) as [o h]. intros Hc.
  injection Hc as -> <-. now exists h.
Qed.

(** What a resolved [calculateState] is made of: a title, a parent and the
    document of the nodes read from the host, shifted past the title. *)
Lemma calculateState_inv (notebookPageId : string) (w w' : World H)
  (doc : InputSchema) :
  calculateState atJsonParser v4 notebookPageId w = (Resolved doc, w') ->
  exists title parentUuid nodes s w1,
    nodes_read notebookPageId (host w) nodes
    /\ toAtJson atJsonParser v4 nodes 0 (Js.len title) bullet w1
       = (Resolved s, w')
    /\ doc = mkSchema (title +:+ content s)
               (mkAnnotation 0 (Js.len title) (metadata title parentUuid)
                  :: annotations s).
Proof.
  unfold calculateState. intros Hrun.
  bind_inv Hrun. bind_inv Hrun. bind_inv Hrun. bind_inv Hrun. bind_inv Hrun.
  bind_inv Hrun. bind_inv Hrun. bind_inv Hrun.
  injection Hrun as <- <-.
  do 5 eexists. split; [| split; [eassumption | reflexivity]].
  unfold nodes_read.
  apply (call_resolved_inv (GetPageByPropertyId notebookPageId)) in Hm
      as (h & -> & Hh).
  destruct a as [p|].
  - apply (call_resolved_inv (GetPageBlocksTree (PageEntity.originalName p)))
      in Hm0 as (h0 & Hp & _).
    rewrite Hh in Hp.
    rewrite Hp. destruct a0 as [t|]; [| discriminate].
    now injection Hm1 as <- _.
  - injection Hm0 as <- _. now injection Hm1 as <- _.
Qed.

End CalculateStateFacts.

(** C9. Every annotation of the document [calculateState] resolves with
    (the metadata annotation, the block annotations and the inline ones)
    lies within the content: [0 <= a.start <= a.end <= content.length],
    for a parser whose annotations lie within its own plain text. *)
Theorem calculateState_offsets_in_bounds {H : Type} `{Editor H}
  (atJsonParser : string -> InputSchema) (v4 : nat -> string)
  (notebookPageId : string) (w w' : World H) (doc : InputSchema) :
  parser_in_bounds atJsonParser ->
  calculateState atJsonParser v4 notebookPageId w = (Resolved doc, w') ->
  Forall (fun a => 0 <= start a /\ start a <= end_ a
                   /\ end_ a <= Js.len (content doc))
    (annotations doc).
Proof.
  intros Hparser Hrun.
  apply calculateState_inv in Hrun
      as (title & parentUuid & nodes & s & w1 & _ & Hs & ->).
  destruct (toAtJson_layout atJsonParser v4 (fun _ => "") nodes 0
              (Js.len title) bullet w1) as (s' & w2 & Hs' & _ & [Hc Ha]).
  rewrite Hs in Hs'. injection Hs' as <- <-.
  pose proof (len_nonneg title) as Ht.
  pose proof (len_nonneg (content s)) as Hls.
  cbn [content annotations]. rewrite len_append. constructor.
  - cbn. lia.
  - pose proof (encode_bounds atJsonParser (fun _ => "") Hparser nodes 0
                  (Js.len title) bullet Ht) as Hb.
    unfold in_bounds_from in Hb. rewrite <- Hc in Hb.
    eapply List.Forall_impl; [| exact (Forall_within_layout _ _ _ _ Ha Hb)].
    intros a. unfold within. lia.
Qed.

Lemma star_parser_in_bounds : parser_in_bounds star_parser.
Proof.
  intros [|c s]; [constructor |]. unfold star_parser.
  destruct (Ascii.eqb c "*"); cbn [content annotations]; [| constructor].
  constructor; [| constructor]. unfold within. cbn. pose proof (len_nonneg s). lia.
Qed.

Lemma calculateState_offsets_in_bounds_witness :
  let doc :=
    resolved_with
      (calculateState star_parser demo_uuid
         "9e000000-0000-4000-8000-000000000000" (fresh_world demo_notebook)) in
  content doc = "Homehelloworldbye"
  /\ Forall (fun a => 0 <= start a /\ start a <= end_ a
                      /\ end_ a <= Js.len (content doc))
       (annotations doc).
Proof.
  split; [vm_compute; reflexivity |].
  eapply (calculateState_offsets_in_bounds star_parser demo_uuid
            "9e000000-0000-4000-8000-000000000000"
            (fresh_world demo_notebook)).
  - exact star_parser_in_bounds.
  - vm_compute. reflexivity.
Defined.

(** ** Rebuilding the tree from the levels *)

Section OnLast.
Context {A : Type}.

Lemma on_last_snoc (f : A -> A) (l : list A) (x : A) :
  on_last f (l ++ [x]) = l ++ [f x].
Proof.
  induction l as [|y l IH]; [reflexivity |].
  cbn [app on_last]. destruct (l ++ [x]) eqn:E.
  - now destruct l.
  - now rewrite <- IH.
Qed.

Lemma on_last_nil (f : A -> A) : on_last f [] = [].
Proof. reflexivity. Qed.

Lemma list_snoc_cases (l : list A) : l = [] \/ exists l' x, l = l' ++ [x].
Proof.
  induction l as [|y l IH]; [now left | right].
  destruct IH as [-> | (l' & x & ->)].
  - now exists [], y.
  - now exists (y :: l'), x.
Qed.

Lemma last_snoc (l : list A) (x : A) :
  List.last (map Some (l ++ [x])) None = Some x.
Proof. rewrite map_app. cbn [map]. apply List.last_last. Qed.

End OnLast.

Lemma insertBelow_unfold {A} (cur : Tree A) (level : Z) (n : Tree A) :
  insertBelow cur level n = Node (fields n) (insertAtLevel cur (children n) level).
Proof. destruct n as [f nodes]. reflexivity. Qed.

Lemma is_nil_snoc {A} (l : list A) (x : A) : is_nil (l ++ [x]) = false.
Proof. now destruct l. Qed.

(** In a tree deep enough, [insertAtLevel] puts the node [level] steps
    down the last branch, after the children already there. *)
Lemma insertAtLevel_graft {A} (cur : Tree A) (d : nat) :
  forall T, deep d T -> insertAtLevel cur T (Z.of_nat d) = graft d [cur] T.
Proof.
  induction d as [|d IH]; intros T HT.
  - reflexivity.
  - cbn [deep] in HT. destruct (list_snoc_cases T) as [-> | (T' & n & ->)];
      [contradiction |].
    rewrite last_snoc in HT.
    unfold insertAtLevel. rewrite is_nil_snoc.
    replace (Z.of_nat (S d) =? 0) with false by (symmetry; apply Z.eqb_neq; lia).
    cbn [orb graft]. rewrite !on_last_snoc. f_equal. f_equal.
    rewrite insertBelow_unfold. f_equal.
    replace (Z.of_nat (S d) - 1) with (Z.of_nat d) by lia.
    now apply IH.
Qed.

Lemma graft_nil {A} (d : nat) : forall T : list (Tree A), graft d [] T = T.
Proof.
  induction d as [|d IH]; intros T; cbn [graft]; [apply app_nil_r |].
  destruct (list_snoc_cases T) as [-> | (T' & n & ->)]; [reflexivity |].
  rewrite on_last_snoc, IH. now destruct n.
Qed.

Lemma graft_graft {A} (d : nat) (F G : list (Tree A)) :
  forall T, graft d F (graft d G T) = graft d (G ++ F) T.
Proof.
  induction d as [|d IH]; intros T; cbn [graft]; [now rewrite app_assoc |].
  destruct (list_snoc_cases T) as [-> | (T' & n & ->)]; [reflexivity |].
  rewrite !on_last_snoc. cbn [fields children]. now rewrite IH.
Qed.

Lemma graft_children {A} (d : nat) (a : A) (ch : list (Tree A)) :
  forall T, deep d T ->
    graft (S d) ch (graft d [Node a []] T) = graft d [Node a ch] T.
Proof.
  induction d as [|d IH]; intros T HT.
  - cbn [graft]. now rewrite on_last_snoc.
  - cbn [deep] in HT. destruct (list_snoc_cases T) as [-> | (T' & n & ->)];
      [contradiction |].
    rewrite last_snoc in HT.
    change (graft (S (S d)) ch ?X)
      with (on_last (fun n => Node (fields n) (graft (S d) ch (children n))) X).
    change (graft (S d) ?F (T' ++ [n]))
      with (on_last (fun n => Node (fields n) (graft d F (children n)))
              (T' ++ [n])).
    rewrite !on_last_snoc. cbn [fields children]. now rewrite IH.
Qed.

Lemma deep_graft {A} (d : nat) (F : list (Tree A)) :
  forall T, deep d T -> deep d (graft d F T).
Proof.
  induction d as [|d IH]; intros T HT; [exact I |].
  cbn [deep] in HT. destruct (list_snoc_cases T) as [-> | (T' & n & ->)];
    [contradiction |].
  rewrite last_snoc in HT. cbn [graft deep].
  rewrite on_last_snoc, last_snoc. cbn [children]. now apply IH.
Qed.

Lemma deep_graft_leaf {A} (d : nat) (a : A) :
  forall T, deep d T -> deep (S d) (graft d [Node a []] T).
Proof.
  induction d as [|d IH]; intros T HT.
  - cbn [graft deep]. now rewrite last_snoc.
  - cbn [deep] in HT. destruct (list_snoc_cases T) as [-> | (T' & n & ->)];
      [contradiction |].
    rewrite last_snoc in HT.
    change (graft (S d) ?F (T' ++ [n]))
      with (on_last (fun n => Node (fields n) (graft d F (children n)))
              (T' ++ [n])).
    rewrite on_last_snoc.
    change (deep (S (S d)) ?X)
      with (match List.last (map Some X) None with
            | Some n => deep (S d) (children n)
            | None => False
            end).
    rewrite last_snoc. cbn [children]. now apply IH.
Qed.

Lemma rebuild_app {A} (l1 l2 : list (Z * A)) (T : list (Tree A)) :
  rebuild (l1 ++ l2) T = rebuild l2 (rebuild l1 T).
Proof. apply fold_left_app. Qed.

Lemma rebuild_forest {A} (F : list (Tree A)) :
  Forall (fun t => forall d T, deep d T ->
            rebuild (dfs (Z.of_nat d) t) T = graft d [t] T) F ->
  forall d T, deep d T ->
    rebuild (dfs_forest (Z.of_nat d) F) T = graft d F T.
Proof.
  induction 1 as [|t F Ht _ IH]; intros d T HT.
  - symmetry. apply graft_nil.
  - unfold dfs_forest in *. cbn [map concat]. rewrite rebuild_app.
    rewrite Ht by exact HT. rewrite IH by (now apply deep_graft).
    now rewrite graft_graft.
Qed.

Lemma rebuild_tree {A} (t : Tree A) :
  forall d T, deep d T -> rebuild (dfs (Z.of_nat d) t) T = graft d [t] T.
Proof.
  induction t as [a ch IH] using Tree_induction. intros d T HT.
  cbn [dfs]. unfold rebuild at 1. cbn [fold_left fst snd].
  rewrite insertAtLevel_graft by exact HT.
  replace (Z.of_nat d + 1) with (Z.of_nat (S d)) by lia.
  fold (dfs_forest (Z.of_nat (S d)) ch).
  change (fold_left ?f ?l ?T0) with (rebuild l T0).
  rewrite (rebuild_forest ch IH) by (now apply deep_graft_leaf).
  now apply graft_children.
Qed.

(** Inserting the nodes of a forest in depth-first order, each at its
    depth, rebuilds the forest. *)
Lemma rebuild_dfs {A} (F : list (Tree A)) : rebuild (dfs_forest 0 F) [] = F.
Proof.
  change 0 with (Z.of_nat 0).
  rewrite rebuild_forest; [reflexivity | | exact I].
  apply Forall_forall. intros t _. apply rebuild_tree.
Qed.

Lemma on_last_map {A B} (g : A -> B) (f : A -> A) (f' : B -> B) (l : list A) :
  (forall x, g (f x) = f' (g x)) ->
  map g (on_last f l) = on_last f' (map g l).
Proof.
  intros Hfg. destruct (list_snoc_cases l) as [-> | (l' & x & ->)];
    [reflexivity |].
  rewrite on_last_snoc, !map_app. cbn [map].
  now rewrite on_last_snoc, Hfg.
Qed.

Lemma is_nil_map {A B} (g : A -> B) (l : list A) : is_nil (map g l) = is_nil l.
Proof. now destruct l. Qed.

Lemma tree_map_insertBelow {A B} (g : A -> B) (cur : Tree A) (n : Tree A) :
  forall level,
    tree_map g (insertBelow cur level n)
    = insertBelow (tree_map g cur) level (tree_map g n).
Proof.
  induction n as [f nodes IH] using Tree_induction. intros level.
  cbn [insertBelow tree_map]. f_equal. rewrite is_nil_map.
  destruct ((level =? 0) || is_nil nodes)%bool.
  - now rewrite map_app.
  - destruct (list_snoc_cases nodes) as [-> | (l' & x & ->)]; [reflexivity |].
    rewrite on_last_snoc, !map_app. cbn [map]. rewrite on_last_snoc.
    f_equal. f_equal. apply Forall_app in IH as [_ IH].
    inversion IH; subst. auto.
Qed.

Lemma tree_map_insertAtLevel {A B} (g : A -> B) (cur : Tree A)
  (T : list (Tree A)) (level : Z) :
  map (tree_map g) (insertAtLevel cur T level)
  = insertAtLevel (tree_map g cur) (map (tree_map g) T) level.
Proof.
  unfold insertAtLevel. rewrite is_nil_map.
  destruct ((level =? 0) || is_nil T)%bool.
  - now rewrite map_app.
  - apply on_last_map. intros x. apply tree_map_insertBelow.
Qed.

Lemma tree_map_rebuild {A B} (g : A -> B) (l : list (Z * A)) :
  forall T,
    map (tree_map g) (rebuild l T)
    = rebuild (map (fun e => (fst e, g (snd e))) l) (map (tree_map g) T).
Proof.
  induction l as [|e l IH]; intros T; [reflexivity |].
  unfold rebuild in *. cbn [fold_left map fst snd].
  rewrite IH. now rewrite tree_map_insertAtLevel.
Qed.

Lemma dfs_tree_map {A B} (g : A -> B) (t : Tree A) :
  forall level,
    dfs level (tree_map g t) = map (fun e => (fst e, g (snd e))) (dfs level t).
Proof.
  induction t as [a ch IH] using Tree_induction. intros level.
  cbn [tree_map dfs map fst snd]. f_equal.
  induction IH as [|c ch Hc _ IHch]; [reflexivity |].
  cbn [map concat]. now rewrite map_app, Hc, IHch.
Qed.

Lemma dfs_forest_tree_map {A B} (g : A -> B) (F : list (Tree A)) (level : Z) :
  dfs_forest level (map (tree_map g) F)
  = map (fun e => (fst e, g (snd e))) (dfs_forest level F).
Proof.
  unfold dfs_forest. induction F as [|t F IH]; [reflexivity |].
  cbn [map concat]. now rewrite map_app, dfs_tree_map, IH.
Qed.

(** *** The tree [applyState] reads off the annotations *)

Lemma tree_nodes_insertBelow {A} (cur : Tree A) (n : Tree A) :
  forall level,
    List.length (tree_nodes (insertBelow cur level n))
    = (List.length (tree_nodes n) + List.length (tree_nodes cur))%nat.
Proof.
  induction n as [f nodes IH] using Tree_induction. intros level.
  cbn [insertBelow tree_nodes List.length].
  destruct ((level =? 0) || is_nil nodes)%bool eqn:E.
  - rewrite map_app, concat_app, !length_app. cbn [map concat].
    rewrite app_nil_r. lia.
  - destruct (list_snoc_cases nodes) as [-> | (l' & x & ->)].
    { rewrite orb_true_r in E. discriminate. }
    rewrite on_last_snoc, !map_app, !concat_app, !length_app. cbn [map concat].
    rewrite !app_nil_r. apply Forall_app in IH as [_ IH].
    inversion IH as [|? ? Hx _]; subst. rewrite Hx. lia.
Qed.

Lemma forest_nodes_insertAtLevel {A} (cur : Tree A) (T : list (Tree A))
  (level : Z) :
  List.length (forest_nodes (insertAtLevel cur T level))
  = (List.length (forest_nodes T) + List.length (tree_nodes cur))%nat.
Proof.
  unfold insertAtLevel, forest_nodes.
  destruct ((level =? 0) || is_nil T)%bool eqn:E.
  - rewrite map_app, concat_app, !length_app. cbn [map concat].
    rewrite app_nil_r. lia.
  - destruct (list_snoc_cases T) as [-> | (l' & x & ->)].
    { rewrite orb_true_r in E. discriminate. }
    rewrite on_last_snoc, !map_app, !concat_app, !length_app. cbn [map concat].
    rewrite !app_nil_r, tree_nodes_insertBelow. lia.
Qed.

(** The expected tree is rebuilt from the block annotations alone. *)
Lemma read_annotations_tree (text : string) (anns : list Annotation) :
  forall x,
    expectedTree (fold_left (read_annotation text) anns x)
    = rebuild
        (block_payloads text (List.length (forest_nodes (expectedTree x))) anns)
        (expectedTree x).
Proof.
  induction anns as [|anno anns IH]; intros x; [reflexivity |].
  cbn [fold_left block_payloads]. rewrite IH. unfold read_annotation.
  destruct (type anno); cbn [expectedTree]; try reflexivity.
  rewrite forest_nodes_insertAtLevel. cbn [tree_nodes map concat List.length].
  replace (List.length (forest_nodes (expectedTree x)) + 1)%nat
    with (S (List.length (forest_nodes (expectedTree x)))) by lia.
  reflexivity.
Qed.

Lemma block_payloads_levels (text : string) (anns : list Annotation) :
  forall a, map fst (block_payloads text a anns) = block_levels anns.
Proof.
  induction anns as [|anno anns IH]; intros a; [reflexivity |].
  cbn [block_payloads block_levels].
  destruct (type anno); cbn [map fst]; now rewrite IH.
Qed.

Lemma read_annotations_shape (text : string) (anns : list Annotation) :
  map shape (expectedTree (fold_left (read_annotation text) anns no_expected))
  = rebuild (map (fun level => (level, tt)) (block_levels anns)) [].
Proof.
  rewrite read_annotations_tree. unfold shape. rewrite tree_map_rebuild.
  cbn [no_expected expectedTree map]. f_equal.
  rewrite <- block_payloads_levels with (text := text) (a := O).
  rewrite map_map. reflexivity.
Qed.

(** *** The levels the encoder emits *)

Lemma block_levels_app (l1 l2 : list Annotation) :
  block_levels (l1 ++ l2) = block_levels l1 ++ block_levels l2.
Proof.
  induction l1 as [|a l1 IH]; [reflexivity |].
  cbn [app block_levels]. destruct (type a); cbn [app]; now rewrite IH.
Qed.

Lemma block_levels_anonymous (l : list Annotation) :
  block_levels (map anonymous l) = block_levels l.
Proof.
  induction l as [|a l IH]; [reflexivity |].
  cbn [map block_levels]. unfold anonymous at 1.
  destruct (type a) eqn:E; cbn [type]; rewrite ?E, IH; reflexivity.
Qed.

Lemma block_levels_inline (index : Z) (l : list Annotation) :
  Forall (fun a => is_inline (type a) = true) l ->
  block_levels (map (rebase index) l) = [].
Proof.
  induction 1 as [|a l Ha _ IH]; [reflexivity |].
  cbn [map block_levels rebase type]. destruct (type a); try discriminate;
    exact IH.
Qed.

Section EncodeLevels.
Context (atJsonParser : string -> InputSchema).
Context (idof : string -> string).
Hypothesis parser_inline : inline_only atJsonParser.

Lemma encode_nodes_levels (each : BlockEntity -> Z -> InputSchema)
  (level startIndex : Z) (nodes : list BlockEntity) :
  Forall (fun n => forall index,
            block_levels (annotations (each n index))
            = map fst (dfs level n)) nodes ->
  forall p,
    block_levels (annotations (encode_nodes each startIndex nodes p))
    = block_levels (annotations p) ++ map fst (dfs_forest level nodes).
Proof.
  induction 1 as [|n rest Hn _ IH]; intros p.
  - cbn. now rewrite app_nil_r.
  - cbn [encode_nodes]. rewrite IH. unfold concat_schema, dfs_forest.
    cbn [annotations map concat].
    rewrite block_levels_app, Hn, map_app. now rewrite app_assoc.
Qed.

Lemma encode_node_levels (n : BlockEntity) :
  forall level viewType index,
    block_levels (annotations (encode_node atJsonParser idof level viewType n index))
    = map fst (dfs level n).
Proof.
  induction n as [f ch IH] using Tree_induction.
  intros level viewType index. cbn [encode_node annotations dfs map fst].
  rewrite !block_levels_app. cbn [block_levels type app].
  rewrite block_levels_inline by apply parser_inline. cbn [app]. f_equal.
  rewrite (encode_nodes_levels _ (level + 1)); [reflexivity |].
  eapply List.Forall_impl; [| exact IH]. intros c Hc i. apply Hc.
Qed.

Lemma encode_levels (nodes : list BlockEntity) (level startIndex : Z)
  (viewType : ViewType) :
  block_levels (annotations (encode atJsonParser idof nodes level startIndex viewType))
  = map fst (dfs_forest level nodes).
Proof.
  unfold encode. rewrite (encode_nodes_levels _ level); [reflexivity |].
  apply Forall_forall. intros n _ index. apply encode_node_levels.
Qed.

End EncodeLevels.

Lemma nodes_read_functional {H} `{Editor H} (notebookPageId : string) (h : H)
  (nodes nodes' : list BlockEntity) :
  nodes_read notebookPageId h nodes -> nodes_read notebookPageId h nodes' ->
  nodes = nodes'.
Proof.
  unfold nodes_read.
  destruct (perform (GetPageByPropertyId notebookPageId) h) as [[[p|]|] h1];
    try contradiction; [| congruence].
  destruct (perform (GetPageBlocksTree (PageEntity.originalName p)) h1)
    as [[[t|]|] h2]; try contradiction. congruence.
Qed.

(** C5. [applyState] puts each block annotation, in document order, at the
    depth its [level] gives, as the last child along the last branch; on
    the annotations [calculateState] emitted for a forest this rebuilds the
    shape of the forest; blocks at levels 0, 1, 1, 0 become a root with two
    children followed by a second root. *)
Theorem applyState_rebuilds_the_tree {H : Type} `{Editor H}
  (atJsonParser : string -> InputSchema) (v4 : nat -> string) :
  (forall (notebookPageId : string) (w w' : World H) (doc : InputSchema)
          (nodes : list BlockEntity),
      inline_only atJsonParser ->
      calculateState atJsonParser v4 notebookPageId w = (Resolved doc, w') ->
      nodes_read notebookPageId (host w) nodes ->
      map shape (expectedTree (read_annotations doc)) = map shape nodes)
  /\ (forall (currentBlock : InputTextNode) (d : nat)
             (nodes : list InputTextNode),
         deep d nodes ->
         insertAtLevel currentBlock nodes (Z.of_nat d)
         = graft d [currentBlock] nodes)
  /\ map (tree_map InputTextNode.uuid)
       (expectedTree (read_annotations four_blocks))
     = [Node "b1" [Node "b2" []; Node "b3" []]; Node "b4" []].
Proof.
  split; [| split; [| reflexivity]].
  - intros notebookPageId w w' doc nodes Hinline Hrun Hread.
    apply calculateState_inv in Hrun
        as (title & parentUuid & nodes' & s & w1 & Hread' & Hs & ->).
    rewrite (nodes_read_functional _ _ _ _ Hread Hread').
    destruct (toAtJson_layout atJsonParser v4 (fun _ => "") nodes' 0
                (Js.len title) bullet w1) as (s' & w2 & Hs' & _ & [_ Ha]).
    rewrite Hs in Hs'. injection Hs' as <- <-.
    unfold read_annotations. cbn [content annotations].
    rewrite read_annotations_shape. cbn [block_levels type].
    rewrite <- block_levels_anonymous, Ha, block_levels_anonymous.
    rewrite (encode_levels _ _ Hinline). rewrite map_map. cbn [fst].
    rewrite <- (rebuild_dfs (map shape nodes')). f_equal.
    unfold shape. rewrite dfs_forest_tree_map. reflexivity.
  - intros currentBlock d nodes. apply insertAtLevel_graft.
Qed.

Lemma star_parser_inline_only : inline_only star_parser.
Proof.
  intros [|c s]; [constructor |]. unfold star_parser.
  destruct (Ascii.eqb c "*"); cbn [annotations]; repeat constructor.
Qed.

Lemma applyState_rebuilds_the_tree_witness :
  map shape
    (expectedTree
       (read_annotations
          (resolved_with
             (calculateState star_parser demo_uuid
                "9e000000-0000-4000-8000-000000000000"
                (fresh_world demo_notebook)))))
  = map shape (nb_tree demo_notebook)
  /\ map shape (nb_tree demo_notebook) = [Node tt [Node tt []]; Node tt []].
Proof.
  split; [| reflexivity].
  eapply (proj1 (applyState_rebuilds_the_tree star_parser demo_uuid)
            "9e000000-0000-4000-8000-000000000000"
            (fresh_world demo_notebook)).
  - exact star_parser_inline_only.
  - vm_compute. reflexivity.
  - vm_compute. reflexivity.
Defined.

(** ** The block annotation spans what the parser was given *)

Lemma toAtJson_node_emits {H : Type} `{Editor H}
  (atJsonParser : string -> InputSchema) (v4 : nat -> string)
  (f : BlockEntity.t) (ch : list BlockEntity) (level : Z)
  (viewType : ViewType) (index : Z) (w : World H) :
  let parsed :=
    atJsonParser (preContent (BlockEntity.uuid f) (BlockEntity.content f)) in
  exists identifier kids w',
    toAtJson_node atJsonParser v4 level viewType (Node f ch) index w
    = (Resolved
         (mkSchema (content parsed +:+ content kids)
            (mkAnnotation index (Js.len (content parsed) + index)
               (block identifier level viewType)
               :: map (rebase index) (annotations parsed) ++ annotations kids)),
       w').
Proof.
  intros parsed.
  destruct (identifier_of_resolves v4 (BlockEntity.uuid f) w)
    as (identifier & w1 & Hid & _).
  destruct (reduce_nodes_layout (H := H)
              (toAtJson_node atJsonParser v4 (level + 1)
                 (default viewType (BlockEntity.viewType f)))
              (encode_node atJsonParser (fun _ => "") (level + 1)
                 (default viewType (BlockEntity.viewType f)))
              (Js.len (content parsed) + index) ch)
    with (p := mkSchema "" []) (p' := mkSchema "" []) (w := w1)
    as (kids & w2 & Hkids & _).
  { apply Forall_forall. intros n _ i w0. apply toAtJson_node_layout. }
  { apply same_layout_refl. }
  exists identifier, kids, w2.
  cbn [toAtJson_node]. erewrite bind_resolved by exact Hid.
  fold parsed. erewrite bind_resolved by exact Hkids. reflexivity.
Qed.

(** ** Records *)

Section RecordFacts.
Context {V : Type}.

Lemma in_overwrite (k k0 : string) (v v0 : V) (r : JsRecord.t V) :
  In (k, v) (JsRecord.overwrite k0 v0 r) -> (k, v) = (k0, v0) \/ In (k, v) r.
Proof.
  induction r as [|[k' v'] r IH]; cbn [JsRecord.overwrite]; [tauto |].
  destruct (String.eqb k' k0); cbn [In]; intuition.
Qed.

Lemma in_insert_index (n : N) (k k0 : string) (v v0 : V) (r : JsRecord.t V) :
  In (k, v) (JsRecord.insert_index n k0 v0 r) ->
  (k, v) = (k0, v0) \/ In (k, v) r.
Proof.
  induction r as [|[k' v'] r IH]; cbn [JsRecord.insert_index In]; [intuition |].
  destruct (JsRecord.array_index k') as [n'|]; [destruct (n' <? n)%N |];
    cbn [In]; intuition.
Qed.

Lemma in_define (k k0 : string) (v v0 : V) (r : JsRecord.t V) :
  In (k, v) (JsRecord.define k0 v0 r) -> (k, v) = (k0, v0) \/ In (k, v) r.
Proof.
  unfold JsRecord.define. destruct (JsRecord.has k0 r).
  - apply in_overwrite.
  - destruct (JsRecord.array_index k0).
    + apply in_insert_index.
    + rewrite in_app_iff. cbn [In]. intuition.
Qed.

Lemma in_set (k k0 : string) (v v0 : V) (r : JsRecord.t V) :
  In (k, v) (JsRecord.set k0 v0 r) -> (k, v) = (k0, v0) \/ In (k, v) r.
Proof.
  unfold JsRecord.set. destruct (JsRecord.has k0 r).
  - apply in_overwrite.
  - destruct (String.eqb k0 "__proto__"); [now right | apply in_define].
Qed.

End RecordFacts.

(** ** Annotations outside every block *)

(** Every entry of [contentAnnotations] has the range of a block
    annotation among [anns]. *)
Definition ranges_from (anns : list Annotation)
  (r : JsRecord.t ContentAnnotation.t) : Prop :=
  forall k ca, In (k, ca) r ->
    exists b, In b anns /\ is_block (type b) = true
              /\ ContentAnnotation.start ca = start b
              /\ ContentAnnotation.end_ ca = end_ b.

Lemma in_push_to_first (anno : Annotation) (k : string)
  (ca : ContentAnnotation.t) (r : JsRecord.t ContentAnnotation.t) :
  In (k, ca) (push_to_first anno r) ->
  exists ca', In (k, ca') r
              /\ ContentAnnotation.start ca = ContentAnnotation.start ca'
              /\ ContentAnnotation.end_ ca = ContentAnnotation.end_ ca'.
Proof.
  induction r as [|[k' c'] r IH]; cbn [push_to_first]; [intros [] |].
  destruct (encloses c' anno); cbn [In].
  - intros [E | Hin]; [injection E as <- <- | ]; eauto 6.
  - intros [E | Hin]; [injection E as <- <-; eauto 6 |].
    destruct (IH Hin) as (ca' & ? & ? & ?). eauto 6.
Qed.

Lemma read_annotation_ranges (text : string) (anns : list Annotation)
  (x : Expected) (anno : Annotation) :
  ranges_from anns (contentAnnotations x) ->
  ranges_from (anns ++ [anno])
    (contentAnnotations (read_annotation text x anno)).
Proof.
  intros Hx k ca. unfold read_annotation.
  assert (Hold : forall ca', In (k, ca') (contentAnnotations x) ->
            exists b, In b (anns ++ [anno]) /\ is_block (type b) = true
                      /\ ContentAnnotation.start ca' = start b
                      /\ ContentAnnotation.end_ ca' = end_ b).
  { intros ca' Hin. destruct (Hx k ca' Hin) as (b & Hb & ?).
    exists b. split; [apply in_app_iff; now left | assumption]. }
  destruct (type anno) eqn:E; cbn [contentAnnotations]; try (apply Hold);
    try (intros Hin; apply in_push_to_first in Hin as (ca' & Hin & -> & ->);
         now apply Hold).
  intros Hin. apply in_set in Hin as [Heq | Hin]; [| now apply Hold].
  injection Heq as -> ->. exists anno. rewrite E.
  repeat split. apply in_app_iff. right. now left.
Qed.

Lemma read_annotations_ranges (text : string) (anns : list Annotation) :
  ranges_from anns
    (contentAnnotations (fold_left (read_annotation text) anns no_expected)).
Proof.
  induction anns as [|anno anns IH] using rev_ind.
  - intros k ca [].
  - rewrite fold_left_app. cbn [fold_left]. now apply read_annotation_ranges.
Qed.

Lemma push_to_first_uncovered (anno : Annotation)
  (r : JsRecord.t ContentAnnotation.t) :
  (forall k ca, In (k, ca) r -> encloses ca anno = false) ->
  push_to_first anno r = r.
Proof.
  induction r as [|[k ca] r IH]; intros Hr; [reflexivity |].
  cbn [push_to_first]. rewrite (Hr k ca) by now left.
  f_equal. apply IH. intros k' ca' Hin. apply (Hr k' ca'). now right.
Qed.

(** An inline annotation that no block annotation read before it covers
    leaves no trace in what [applyState] has read. *)
Lemma read_uncovered_annotation (text : string) (before : list Annotation)
  (anno : Annotation) :
  is_inline (type anno) = true ->
  uncovered anno before ->
  read_annotation text (fold_left (read_annotation text) before no_expected) anno
  = fold_left (read_annotation text) before no_expected.
Proof.
  intros Hinline Hun.
  pose proof (read_annotations_ranges text before) as Hr.
  set (x := fold_left (read_annotation text) before no_expected) in *.
  assert (Hpush : push_to_first anno (contentAnnotations x) = contentAnnotations x).
  { apply push_to_first_uncovered. intros k ca Hin.
    destruct (Hr k ca Hin) as (b & Hb & Hblock & Hs & He).
    unfold uncovered in Hun. rewrite Forall_forall in Hun.
    pose proof (Hun b (proj2 (list_elem_of_In _ _) Hb) Hblock) as Hc.
    unfold encloses, covers in *. now rewrite Hs, He. }
  unfold read_annotation.
  destruct (type anno); try discriminate; rewrite Hpush; now destruct x.
Qed.

(** C10. An annotation that is neither a block nor the metadata and whose
    range lies within no block annotation's range is ignored: the document
    with it and the document without it are read alike, and [applyState]
    does on the one what it does on the other, rejections included. *)
Theorem applyState_ignores_uncovered_annotation {H : Type} `{Editor H}
  (notebookPageId text : string) (before after : list Annotation)
  (anno : Annotation) :
  is_inline (type anno) = true ->
  uncovered anno (before ++ anno :: after) ->
  read_annotations (mkSchema text (before ++ anno :: after))
  = read_annotations (mkSchema text (before ++ after))
  /\ write_blocks (read_annotations (mkSchema text (before ++ anno :: after)))
     = write_blocks (read_annotations (mkSchema text (before ++ after)))
  /\ applyState (H := H) notebookPageId (mkSchema text (before ++ anno :: after))
     = applyState notebookPageId (mkSchema text (before ++ after)).
Proof.
  intros Hinline Hun.
  assert (Hread :
    read_annotations (mkSchema text (before ++ anno :: after))
    = read_annotations (mkSchema text (before ++ after))).
  { unfold read_annotations. cbn [content annotations].
    rewrite !fold_left_app. cbn [fold_left].
    rewrite read_uncovered_annotation; [reflexivity | exact Hinline |].
    unfold uncovered in *. now apply Forall_app in Hun as [Hun _]. }
  split; [exact Hread | split].
  - now rewrite Hread.
  - unfold applyState, plan. now rewrite Hread.
Qed.

Lemma applyState_ignores_uncovered_annotation_witness :
  read_annotations
    (mkSchema "hello world"
       ([mkAnnotation 0 5 (block "b1" 0 bullet)]
          ++ mkAnnotation 6 11 bold :: []))
  = read_annotations
      (mkSchema "hello world" ([mkAnnotation 0 5 (block "b1" 0 bullet)] ++ [])).
Proof.
  apply (proj1 (applyState_ignores_uncovered_annotation (H := Notebook)
                  "9e000000-0000-4000-8000-000000000000" "hello world"
                  [mkAnnotation 0 5 (block "b1" 0 bullet)] []
                  (mkAnnotation 6 11 bold) eq_refl
                  ltac:(repeat constructor; cbn; intros; try reflexivity;
                        discriminate))).
Defined.

(** ** More on records *)

Section RecordLookup.
Context {V : Type}.
Implicit Types (r : JsRecord.t V) (k : string) (v : V).

Lemma get_cons k k' v' r :
  JsRecord.get k ((k', v') :: r)
  = if String.eqb k' k then Some v' else JsRecord.get k r.
Proof. unfold JsRecord.get. cbn. now destruct (String.eqb k' k). Qed.

Lemma get_nil k : JsRecord.get k ([] : JsRecord.t V) = None.
Proof. reflexivity. Qed.

Lemma has_cons k k' v' r :
  JsRecord.has k ((k', v') :: r) = (String.eqb k' k || JsRecord.has k r)%bool.
Proof. unfold JsRecord.has. rewrite get_cons. now destruct (String.eqb k' k). Qed.

Lemma has_in_keys k r : JsRecord.has k r = true <-> In k (JsRecord.keys r).
Proof.
  induction r as [|[k' v'] r IH]; [cbn; intuition discriminate |].
  rewrite has_cons, orb_true_iff, IH, String.eqb_eq. cbn. tauto.
Qed.

Lemma has_false_not_in k r : JsRecord.has k r = false <-> ~ In k (JsRecord.keys r).
Proof. rewrite <- has_in_keys. now destruct (JsRecord.has k r). Qed.

Lemma get_some_in k v r : JsRecord.get k r = Some v -> In (k, v) r.
Proof.
  induction r as [|[k' v'] r IH]; [discriminate |].
  rewrite get_cons. destruct (String.eqb k' k) eqn:E.
  - apply String.eqb_eq in E as ->. intros [= ->]. now left.
  - intros Hg. right. now apply IH.
Qed.

Lemma in_get_nodup k v r :
  List.NoDup (JsRecord.keys r) -> In (k, v) r -> JsRecord.get k r = Some v.
Proof.
  induction r as [|[k' v'] r IH]; [intros _ [] |].
  unfold JsRecord.keys in *. cbn [map fst]. intros Hnd Hin.
  apply List.NoDup_cons_iff in Hnd as [Hk' Hnd'].
  rewrite get_cons. destruct Hin as [[= -> ->] | Hin].
  - now rewrite String.eqb_refl.
  - destruct (String.eqb k' k) eqn:E; [| now apply IH].
    apply String.eqb_eq in E as ->. exfalso. apply Hk'.
    apply in_map_iff. now exists (k, v).
Qed.

Lemma get_overwrite k k0 v0 r :
  JsRecord.has k0 r = true ->
  JsRecord.get k (JsRecord.overwrite k0 v0 r)
  = if String.eqb k0 k then Some v0 else JsRecord.get k r.
Proof.
  induction r as [|[k' v'] r IH]; [discriminate |].
  rewrite has_cons. cbn [JsRecord.overwrite]. intros Hhas.
  destruct (String.eqb k' k0) eqn:E.
  - apply String.eqb_eq in E as ->. rewrite !get_cons.
    now destruct (String.eqb k0 k).
  - cbn [orb] in Hhas. rewrite !get_cons, IH by exact Hhas.
    destruct (String.eqb k' k) eqn:E1, (String.eqb k0 k) eqn:E2; try reflexivity.
    apply String.eqb_eq in E1 as ->. apply String.eqb_eq in E2 as ->.
    now rewrite String.eqb_refl in E.
Qed.

Lemma get_fresh_front k k0 v0 r :
  JsRecord.get k ((k0, v0) :: r)
  = if String.eqb k0 k then Some v0 else JsRecord.get k r.
Proof. apply get_cons. Qed.

Lemma get_insert_index n k k0 v0 r :
  JsRecord.has k0 r = false ->
  JsRecord.get k (JsRecord.insert_index n k0 v0 r)
  = if String.eqb k0 k then Some v0 else JsRecord.get k r.
Proof.
  induction r as [|[k' v'] r IH]; intros Hhas; [apply get_cons |].
  rewrite has_cons in Hhas. apply orb_false_iff in Hhas as [E Hhas].
  cbn [JsRecord.insert_index].
  destruct (JsRecord.array_index k') as [n'|]; [destruct (n' <? n)%N |];
    try apply get_cons.
  rewrite !get_cons, IH by exact Hhas.
  destruct (String.eqb k' k) eqn:E1, (String.eqb k0 k) eqn:E2; try reflexivity.
  apply String.eqb_eq in E1 as ->. apply String.eqb_eq in E2 as ->.
  now rewrite String.eqb_refl in E.
Qed.

Lemma get_snoc k k0 v0 r :
  JsRecord.has k0 r = false ->
  JsRecord.get k (r ++ [(k0, v0)])
  = if String.eqb k0 k then Some v0 else JsRecord.get k r.
Proof.
  induction r as [|[k' v'] r IH]; intros Hhas; [apply get_cons |].
  rewrite has_cons in Hhas. apply orb_false_iff in Hhas as [E Hhas].
  cbn [app]. rewrite !get_cons, IH by exact Hhas.
  destruct (String.eqb k' k) eqn:E1, (String.eqb k0 k) eqn:E2; try reflexivity.
  apply String.eqb_eq in E1 as ->. apply String.eqb_eq in E2 as ->.
  now rewrite String.eqb_refl in E.
Qed.

(** Reading a record after a property was defined. *)
Lemma get_define k k0 v0 r :
  JsRecord.get k (JsRecord.define k0 v0 r)
  = if String.eqb k0 k then Some v0 else JsRecord.get k r.
Proof.
  unfold JsRecord.define. destruct (JsRecord.has k0 r) eqn:Hhas.
  - now apply get_overwrite.
  - destruct (JsRecord.array_index k0).
    + now apply get_insert_index.
    + now apply get_snoc.
Qed.

Lemma set_define k0 v0 r :
  assignable k0 r = true -> JsRecord.set k0 v0 r = JsRecord.define k0 v0 r.
Proof.
  unfold assignable, JsRecord.set, JsRecord.define.
  destruct (JsRecord.has k0 r); [reflexivity |].
  cbn [orb]. intros Hk. apply negb_true_iff in Hk. now rewrite Hk.
Qed.

Lemma set_proto k0 v0 r :
  assignable k0 r = false -> JsRecord.set k0 v0 r = r.
Proof.
  unfold assignable, JsRecord.set.
  destruct (JsRecord.has k0 r); [discriminate |].
  cbn [orb]. intros Hk. apply negb_false_iff in Hk. now rewrite Hk.
Qed.

(** Reading a record after an assignment. *)
Lemma get_set k k0 v0 r :
  JsRecord.get k (JsRecord.set k0 v0 r)
  = if (assignable k0 r && String.eqb k0 k)%bool then Some v0
    else JsRecord.get k r.
Proof.
  destruct (assignable k0 r) eqn:Ha; cbn [andb].
  - rewrite set_define by exact Ha. apply get_define.
  - now rewrite set_proto.
Qed.

Lemma keys_overwrite k0 v0 r :
  JsRecord.keys (JsRecord.overwrite k0 v0 r) = JsRecord.keys r.
Proof.
  induction r as [|[k' v'] r IH]; [reflexivity |].
  cbn [JsRecord.overwrite]. destruct (String.eqb k' k0) eqn:E.
  - apply String.eqb_eq in E as ->. reflexivity.
  - unfold JsRecord.keys in *. cbn [map fst]. now rewrite IH.
Qed.

Lemma in_keys_insert_index n k k0 v0 r :
  In k (JsRecord.keys (JsRecord.insert_index n k0 v0 r))
  <-> k = k0 \/ In k (JsRecord.keys r).
Proof.
  unfold JsRecord.keys.
  induction r as [|[k' v'] r IH]; cbn [JsRecord.insert_index map fst In];
    [intuition |].
  destruct (JsRecord.array_index k') as [n'|]; [destruct (n' <? n)%N |];
    cbn [map fst In]; rewrite ?IH; intuition.
Qed.

Lemma nodup_keys_insert_index n k0 v0 r :
  ~ In k0 (JsRecord.keys r) -> List.NoDup (JsRecord.keys r) ->
  List.NoDup (JsRecord.keys (JsRecord.insert_index n k0 v0 r)).
Proof.
  induction r as [|[k' v'] r IH]; intros Hk0 Hnd.
  - cbn. constructor; [intros [] | constructor].
  - cbn [JsRecord.insert_index].
    assert (Hfront : List.NoDup (JsRecord.keys ((k0, v0) :: (k', v') :: r))).
    { cbn. apply List.NoDup_cons_iff. split; [| exact Hnd]. exact Hk0. }
    destruct (JsRecord.array_index k') as [n'|]; [destruct (n' <? n)%N |];
      try exact Hfront.
    cbn in Hk0, Hnd |- *. apply List.NoDup_cons_iff in Hnd as [Hk' Hnd].
    apply List.NoDup_cons_iff. split.
    + change (~ In k' (JsRecord.keys (JsRecord.insert_index n k0 v0 r))).
      rewrite in_keys_insert_index. intros [-> | Hin]; [| now apply Hk'].
      apply Hk0. now left.
    + apply IH; [| exact Hnd]. intros Hin. apply Hk0. now right.
Qed.

Lemma nodup_keys_define k0 v0 r :
  List.NoDup (JsRecord.keys r) ->
  List.NoDup (JsRecord.keys (JsRecord.define k0 v0 r)).
Proof.
  intros Hnd. unfold JsRecord.define. destruct (JsRecord.has k0 r) eqn:Hhas.
  - now rewrite keys_overwrite.
  - apply has_false_not_in in Hhas.
    destruct (JsRecord.array_index k0).
    + now apply nodup_keys_insert_index.
    + unfold JsRecord.keys in *. rewrite map_app. cbn [map fst].
      apply List.NoDup_app; [assumption | |].
      * constructor; [intros [] | constructor].
      * intros x Hx [<- | []]. now apply Hhas.
Qed.

Lemma in_keys_define k k0 v0 r :
  In k (JsRecord.keys (JsRecord.define k0 v0 r))
  <-> k = k0 \/ In k (JsRecord.keys r).
Proof.
  rewrite <- !has_in_keys. unfold JsRecord.has. rewrite get_define.
  destruct (String.eqb k0 k) eqn:E.
  - apply String.eqb_eq in E as ->. intuition.
  - apply String.eqb_neq in E.
    destruct (JsRecord.get k r); intuition congruence.
Qed.

Lemma fold_define_nodup (es : list (string * V)) :
  forall r, List.NoDup (JsRecord.keys r) ->
    List.NoDup (JsRecord.keys
             (fold_left (fun r e => JsRecord.define (fst e) (snd e) r) es r)).
Proof.
  induction es as [|e es IH]; intros r Hr; [exact Hr |].
  cbn [fold_left]. apply IH. now apply nodup_keys_define.
Qed.

Lemma nodup_keys_fromEntries (es : list (string * V)) :
  List.NoDup (JsRecord.keys (JsRecord.fromEntries es)).
Proof. apply fold_define_nodup. constructor. Qed.

Lemma fold_define_keys (es : list (string * V)) :
  forall r k,
    In k (JsRecord.keys
            (fold_left (fun r e => JsRecord.define (fst e) (snd e) r) es r))
    <-> In k (map fst es) \/ In k (JsRecord.keys r).
Proof.
  induction es as [|e es IH]; intros r k; [cbn; tauto |].
  cbn [fold_left map In]. rewrite IH, in_keys_define. intuition.
Qed.

Lemma in_keys_fromEntries (es : list (string * V)) (k : string) :
  In k (JsRecord.keys (JsRecord.fromEntries es)) <-> In k (map fst es).
Proof. unfold JsRecord.fromEntries. rewrite fold_define_keys. cbn. tauto. Qed.

(** A key that is no array index and is new goes last. *)
Lemma define_plain_fresh k0 v0 r :
  JsRecord.array_index k0 = None -> ~ In k0 (JsRecord.keys r) ->
  JsRecord.define k0 v0 r = r ++ [(k0, v0)].
Proof.
  intros Hplain Hfresh. unfold JsRecord.define.
  apply has_false_not_in in Hfresh. now rewrite Hfresh, Hplain.
Qed.

Lemma set_plain_fresh k0 v0 r :
  JsRecord.array_index k0 = None -> k0 <> "__proto__" ->
  ~ In k0 (JsRecord.keys r) ->
  JsRecord.set k0 v0 r = r ++ [(k0, v0)].
Proof.
  intros Hplain Hproto Hfresh. rewrite set_define.
  - now apply define_plain_fresh.
  - unfold assignable. apply String.eqb_neq in Hproto. rewrite Hproto.
    apply orb_true_r.
Qed.

Lemma fold_define_plain (es : list (string * V)) :
  Forall (fun e => JsRecord.array_index (fst e) = None) es ->
  forall r, List.NoDup (JsRecord.keys r ++ map fst es) ->
    fold_left (fun r e => JsRecord.define (fst e) (snd e) r) es r = r ++ es.
Proof.
  induction 1 as [|[k v] es Hk _ IH]; intros r Hnd.
  - now rewrite app_nil_r.
  - cbn [fold_left fst snd map] in *.
    rewrite define_plain_fresh; [| exact Hk |].
    + rewrite IH.
      * now rewrite <- app_assoc.
      * unfold JsRecord.keys in *. rewrite map_app. cbn [map fst].
        now rewrite <- app_assoc.
    + apply List.NoDup_remove_2 in Hnd.
      intros Hin. apply Hnd. apply in_app_iff. now left.
Qed.

(** With keys that are no array indices and do not repeat,
    [Object.fromEntries] keeps the entries as they come. *)
Lemma fromEntries_plain (es : list (string * V)) :
  Forall (fun e => JsRecord.array_index (fst e) = None) es ->
  List.NoDup (map fst es) ->
  JsRecord.fromEntries es = es.
Proof.
  intros Hplain Hnd. unfold JsRecord.fromEntries.
  now rewrite fold_define_plain.
Qed.

End RecordLookup.

(** ** Flattening *)

Section FlattenFacts.
Context {A : Type} (uuid : A -> string).

Lemma flatMap_indexed_nodes (f : nat -> Tree A -> list (Flat A))
  (l : list (Tree A)) :
  Forall (fun t => forall i, map node (f i t) = tree_nodes t) l ->
  forall from, map node (flatMap_indexed f from l) = forest_nodes l.
Proof.
  induction 1 as [|t l Ht _ IH]; intros from; [reflexivity |].
  cbn [flatMap_indexed]. unfold forest_nodes in *. cbn [map concat].
  now rewrite map_app, Ht, IH.
Qed.

Lemma flattenNode_nodes (t : Tree A) :
  forall parentUuid order,
    map node (flattenNode uuid parentUuid order t) = tree_nodes t.
Proof.
  induction t as [f ch IH] using Tree_induction. intros parentUuid order.
  cbn [flattenNode map node tree_nodes]. f_equal.
  apply (flatMap_indexed_nodes _ ch).
  eapply List.Forall_impl; [| exact IH]. intros c Hc i. apply Hc.
Qed.

(** [flattenTree] lists the nodes of the forest, parents first. *)
Lemma flattenTree_nodes (tree : list (Tree A)) (parentUuid : string) :
  map node (flattenTree uuid tree parentUuid) = forest_nodes tree.
Proof.
  unfold flattenTree. apply flatMap_indexed_nodes.
  apply Forall_forall. intros t _ i. apply flattenNode_nodes.
Qed.

End FlattenFacts.

Lemma forest_nodes_map {A B} (g : A -> B) (T : list (Tree A)) :
  forest_nodes (map (tree_map g) T) = map g (forest_nodes T).
Proof.
  assert (Htree : forall t : Tree A, tree_nodes (tree_map g t) = map g (tree_nodes t)).
  { induction t as [a ch IH] using Tree_induction.
    cbn [tree_map tree_nodes map]. f_equal.
    induction IH as [|c ch Hc _ IHch]; [reflexivity |].
    cbn [map concat]. now rewrite map_app, Hc, IHch. }
  unfold forest_nodes. induction T as [|t T IH]; [reflexivity |].
  cbn [map concat]. now rewrite map_app, Htree, IH.
Qed.

Lemma forest_nodes_snoc {A} (T : list (Tree A)) (t : Tree A) :
  forest_nodes (T ++ [t]) = forest_nodes T ++ tree_nodes t.
Proof.
  unfold forest_nodes. rewrite map_app, concat_app. cbn [map concat].
  now rewrite app_nil_r.
Qed.

(** A node [insertAtLevel] adds comes last in the depth-first order,
    whatever its level. *)
Lemma tree_nodes_insertBelow_leaf {A} (a : A) (n : Tree A) :
  forall level,
    tree_nodes (insertBelow (Node a []) level n) = tree_nodes n ++ [a].
Proof.
  induction n as [f nodes IH] using Tree_induction. intros level.
  cbn [insertBelow tree_nodes]. cbn [app]. f_equal.
  change (concat (map tree_nodes ?l)) with (forest_nodes l).
  destruct ((level =? 0) || is_nil nodes)%bool eqn:E.
  - now rewrite forest_nodes_snoc.
  - destruct (list_snoc_cases nodes) as [-> | (l' & x & ->)].
    { rewrite orb_true_r in E. discriminate. }
    rewrite on_last_snoc, !forest_nodes_snoc.
    apply Forall_app in IH as [_ IH]. inversion IH as [|? ? Hx _]; subst.
    now rewrite Hx, app_assoc.
Qed.

Lemma forest_nodes_insertAtLevel_leaf {A} (a : A) (T : list (Tree A))
  (level : Z) :
  forest_nodes (insertAtLevel (Node a []) T level) = forest_nodes T ++ [a].
Proof.
  unfold insertAtLevel.
  destruct ((level =? 0) || is_nil T)%bool eqn:E.
  - now rewrite forest_nodes_snoc.
  - destruct (list_snoc_cases T) as [-> | (l' & x & ->)].
    { rewrite orb_true_r in E. discriminate. }
    rewrite on_last_snoc, !forest_nodes_snoc, tree_nodes_insertBelow_leaf.
    now rewrite app_assoc.
Qed.

Lemma forest_nodes_rebuild {A} (l : list (Z * A)) :
  forall T, forest_nodes (rebuild l T) = forest_nodes T ++ map snd l.
Proof.
  induction l as [|e l IH]; intros T; [now rewrite app_nil_r |].
  unfold rebuild in *. cbn [fold_left map].
  now rewrite IH, forest_nodes_insertAtLevel_leaf, <- app_assoc.
Qed.

Lemma block_payloads_identifiers (text : string) (anns : list Annotation) :
  forall a,
    map (fun e => InputTextNode.uuid (snd e)) (block_payloads text a anns)
    = block_identifiers anns.
Proof.
  induction anns as [|anno anns IH]; intros a; [reflexivity |].
  cbn [block_payloads block_identifiers].
  destruct (type anno); cbn [map snd InputTextNode.uuid]; now rewrite IH.
Qed.

(** The nodes of the expected tree carry the identifiers of the block
    annotations, in document order. *)
Lemma expectedTree_identifiers (state : InputSchema) :
  map InputTextNode.uuid (forest_nodes (expectedTree (read_annotations state)))
  = block_identifiers (annotations state).
Proof.
  unfold read_annotations. rewrite read_annotations_tree, forest_nodes_rebuild.
  cbn [no_expected expectedTree forest_nodes map concat app].
  rewrite map_map. apply block_payloads_identifiers.
Qed.

Lemma assign_content_identifiers (a : nat) (s : string)
  (T : list InputTextNode) :
  map InputTextNode.uuid (forest_nodes (assign_content a s T))
  = map InputTextNode.uuid (forest_nodes T).
Proof.
  unfold assign_content. rewrite forest_nodes_map, map_map.
  apply map_ext. intros n. now destruct (Nat.eqb (InputTextNode.addr n) a).
Qed.

Lemma write_block_identifiers (m : JsRecord.t nat) (T : list InputTextNode)
  (e : string * ContentAnnotation.t) :
  map InputTextNode.uuid (forest_nodes (write_block m T e))
  = map InputTextNode.uuid (forest_nodes T).
Proof.
  unfold write_block. destruct e as [k ca].
  destruct (JsRecord.get k m); [| reflexivity].
  destruct (content_at n T); [| reflexivity].
  apply assign_content_identifiers.
Qed.

Lemma write_blocks_identifiers (x : Expected) :
  map InputTextNode.uuid (forest_nodes (write_blocks x))
  = map InputTextNode.uuid (forest_nodes (expectedTree x)).
Proof.
  unfold write_blocks. generalize (expectedTree x) as T.
  induction (JsRecord.entries (contentAnnotations x)) as [|e es IH]; intros T;
    [reflexivity |].
  cbn [fold_left]. now rewrite IH, write_block_identifiers.
Qed.

(** The keys of [expectedTreeMapping] are the desired document's block
    set. *)
Lemma expectedTreeMapping_keys (notebookPageId : string) (state : InputSchema)
  (g : string) :
  In g (JsRecord.keys
          (expectedTreeMapping notebookPageId
             (write_blocks (read_annotations state))))
  <-> In g (desired_set state).
Proof.
  unfold expectedTreeMapping, desired_set.
  rewrite in_keys_fromEntries, map_map. cbn [fst].
  rewrite <- expectedTree_identifiers, <- write_blocks_identifiers.
  rewrite <- (flattenTree_nodes InputTextNode.uuid _ notebookPageId).
  rewrite map_map. rewrite !in_map_iff. setoid_rewrite filter_In.
  split.
  - intros (n & <- & Hn & Ht). split; [| exact Ht].
    apply in_map_iff. now exists n.
  - intros [Hin Ht]. apply in_map_iff in Hin as (n & <- & Hn).
    exists n. repeat split; assumption.
Qed.

(** ** What the content-block filter drops *)

Lemma count_while_split (p : ascii -> bool) (s : string) :
  exists a b,
    s = a +:+ b /\ String.length a = Js.count_while p s
    /\ all_chars p a = true /\ Js.count_while p b = O.
Proof.
  induction s as [|c s (a & b & E & Hlen & Ha & Hb)].
  - exists "", "". repeat split.
  - cbn [Js.count_while]. destruct (p c) eqn:Hc.
    + exists (String c a), b. rewrite append_cons, <- E.
      cbn [String.length all_chars]. rewrite Hc, Ha, Hlen. repeat split.
      exact Hb.
    + exists "", (String c s). cbn [Js.count_while]. rewrite Hc.
      repeat split.
Qed.

Lemma strip_prefix_inv (p s r : string) :
  Js.strip_prefix p s = Some r -> s = p +:+ r.
Proof.
  revert s. induction p as [|a p IH]; intros s; cbn [Js.strip_prefix].
  - now intros [= ->].
  - destruct s as [|b s]; [discriminate |].
    destruct (Ascii.eqb a b) eqn:E; [| discriminate].
    apply Ascii.eqb_eq in E as ->. intros Hr. rewrite append_cons.
    now rewrite (IH s Hr).
Qed.

Lemma count_while_zero (s : string) :
  Js.count_while Regex.not_newline s = O ->
  s = "" \/ exists s', s = Regex.nl +:+ s'.
Proof.
  destruct s as [|c s]; [now left |]. cbn [Js.count_while].
  destruct (Regex.not_newline c) eqn:E; [discriminate |]. intros _. right.
  exists s. unfold Regex.not_newline in E. apply negb_false_iff in E.
  apply Ascii.eqb_eq in E as ->. reflexivity.
Qed.

(** What the pattern matches at the head of a text: a property line with
    the newline that closes it, or a property line that ends the text. *)
Lemma property_inv (s : string) (n : nat) :
  Regex.property s = Some n ->
  exists kv rest,
    is_property kv = true
    /\ ((s = property_line kv +:+ Regex.nl +:+ rest
         /\ n = String.length (property_line kv +:+ Regex.nl))
        \/ (s = property_line kv /\ rest = ""
            /\ n = String.length (property_line kv))).
Proof.
  unfold Regex.property.
  destruct (count_while_split Regex.is_lower s)
    as (k & s1 & Es & Hklen & Hk & _).
  destruct (Js.count_while Regex.is_lower s) as [|k'] eqn:Ek; [discriminate |].
  rewrite Es at 1. rewrite <- Hklen, drop_append.
  destruct (Js.strip_prefix ":: " s1) as [r|] eqn:Er; [| discriminate].
  apply strip_prefix_inv in Er.
  destruct (count_while_split Regex.not_newline r)
    as (v & tail & Ev & Hvlen & Hv & Htail).
  destruct (Js.count_while Regex.not_newline r) as [|v'] eqn:Ecv;
    [discriminate |].
  rewrite Ev at 1. rewrite <- Hvlen, drop_append.
  assert (Hkv : is_property (k, v) = true).
  { unfold is_property. cbn [fst snd]. rewrite Hk, Hv.
    destruct k; [discriminate |]. destruct v; [discriminate |]. reflexivity. }
  assert (Hs : s = property_line (k, v) +:+ tail).
  { unfold property_line. cbn [fst snd]. rewrite Es, Er, Ev.
    now rewrite !append_assoc. }
  intros [= <-]. exists (k, v).
  destruct (count_while_zero tail Htail) as [-> | (rest & ->)].
  - exists "". split; [exact Hkv |]. right. rewrite append_nil_r in Hs.
    split; [exact Hs | split; [reflexivity |]].
    unfold property_line. cbn [fst snd]. rewrite !length_append.
    cbn [String.length]. lia.
  - exists rest. split; [exact Hkv |]. left. split; [exact Hs |].
    unfold Regex.nl at 1. rewrite append_cons, Ascii.eqb_refl.
    unfold property_line. cbn [fst snd]. rewrite !length_append.
    unfold Regex.nl. cbn [String.length]. lia.
Qed.

Lemma remove_all_from_drop (re : Regex.Pattern) (s : string) :
  forall k,
    (k <= String.length s)%nat ->
    Regex.remove_all_from re k s = Regex.remove_all_from re O (Js.drop k s).
Proof.
  induction s as [|c s IH]; intros [|k] Hk; try reflexivity.
  cbn [Regex.remove_all_from Js.drop]. apply IH. cbn in Hk. lia.
Qed.

Lemma append_nl_inj (a b : string) :
  a +:+ Regex.nl = b +:+ Regex.nl -> a = b.
Proof.
  revert b. induction a as [|x a IH]; intros [|y b] E.
  - reflexivity.
  - rewrite append_nil_l, append_cons in E. unfold Regex.nl in E.
    injection E as _ E. destruct b; discriminate.
  - rewrite append_nil_l, append_cons in E. unfold Regex.nl in E.
    injection E as _ E. destruct a; discriminate.
  - rewrite !append_cons in E. injection E as -> E. f_equal. now apply IH.
Qed.

Lemma property_lines_snoc (l : list (string * string)) (kv : string * string) :
  property_lines (l ++ [kv])
  = (property_lines l +:+ property_line kv) +:+ Regex.nl.
Proof.
  induction l as [|kv' l IH]; cbn [app property_lines].
  - now rewrite append_nil_r.
  - rewrite IH. now rewrite !append_assoc.
Qed.

(** When nothing is left of a text once the matches are taken away, the
    text is made of property lines. *)
Lemma remove_all_nothing_left (n : nat) :
  forall s,
    (String.length s <= n)%nat ->
    s <> "" ->
    Regex.remove_all Regex.property s = "" ->
    only_properties s.
Proof.
  induction n as [|n IH]; intros s Hlen Hne Hrem.
  - destruct s; [congruence | cbn in Hlen; lia].
  - destruct s as [|c s]; [congruence |].
    unfold Regex.remove_all in Hrem. cbn [Regex.remove_all_from] in Hrem.
    destruct (Regex.property (String c s)) as [[|k]|] eqn:Hre;
      try discriminate.
    destruct (property_inv _ _ Hre)
      as (kv & rest & Hkv & [[Es En] | (Es & -> & En)]).
    + assert (Hk : (k <= String.length s)%nat).
      { apply (f_equal String.length) in Es. cbn [String.length] in Es.
        rewrite <- append_assoc, length_append in Es. lia. }
      rewrite remove_all_from_drop in Hrem by exact Hk.
      assert (Hdrop : Js.drop k s = rest).
      { change (Js.drop k s) with (Js.drop (S k) (String c s)).
        rewrite Es, En, <- append_assoc. apply drop_append. }
      rewrite Hdrop in Hrem.
      destruct rest as [|c' rest'] eqn:Erest.
      * exists [kv]. cbn [forallb property_lines]. rewrite Hkv.
        repeat split; [discriminate |]. left. now rewrite Es.
      * rewrite <- Erest in *.
        destruct (IH rest) as (l & Hl & Hall & Hshape).
        { apply (f_equal String.length) in Es. cbn [String.length] in Es.
          rewrite <- append_assoc, length_append in Es.
          cbn [String.length] in Hlen. lia. }
        { rewrite Erest. discriminate. }
        { exact Hrem. }
        exists (kv :: l). cbn [forallb property_lines]. rewrite Hkv, Hall.
        repeat split; [discriminate |].
        destruct Hshape as [E | E]; [left | right].
        -- now rewrite Es, E.
        -- rewrite Es, <- E. now rewrite !append_assoc.
    + exists [kv]. cbn [forallb property_lines]. rewrite Hkv.
      repeat split; [discriminate |]. right.
      now rewrite Es, append_nil_r.
Qed.

Lemma only_properties_dropped (s : string) :
  only_properties s ->
  s <> "" /\ Regex.remove_all Regex.property s = "".
Proof.
  intros (l & Hne & Hall & Hshape).
  destruct (list_snoc_cases l) as [-> | (l' & kv & ->)]; [congruence |].
  rewrite forallb_app in Hall. apply andb_prop in Hall as [Hl Hkv].
  cbn [forallb] in Hkv. rewrite andb_true_r in Hkv.
  assert (Hopen : property_lines l' +:+ property_line kv <> ""
                  /\ Regex.remove_all Regex.property
                       (property_lines l' +:+ property_line kv) = "").
  { split.
    - destruct l' as [|kv' l'']; cbn [property_lines].
      + rewrite append_nil_l. rewrite <- (append_nil_r (property_line kv)).
        now apply property_line_nonempty.
      + cbn [forallb] in Hl. apply andb_prop in Hl as [Hkv' _].
        rewrite append_assoc. now apply property_line_nonempty.
    - rewrite remove_all_property_lines by exact Hl.
      rewrite <- (append_nil_r (property_line kv)).
      rewrite remove_all_match; [reflexivity | |].
      + rewrite <- (append_nil_r (property_line kv)).
        now apply property_line_nonempty.
      + rewrite append_nil_r. now apply property_matches_open_line. }
  destruct Hshape as [-> | E].
  - split.
    + rewrite property_lines_snoc. destruct Hopen as [Ho _].
      destruct (property_lines l' +:+ property_line kv); [congruence |].
      discriminate.
    + rewrite <- (append_nil_r (property_lines (l' ++ [kv]))).
      rewrite remove_all_property_lines; [reflexivity |].
      rewrite forallb_app, Hl. cbn [forallb]. now rewrite Hkv.
  - rewrite property_lines_snoc in E. apply append_nl_inj in E as ->.
    exact Hopen.
Qed.

(** C6 as the specification words it fails in two ways: the filter keeps a
    block whose content is empty, although nothing is left of it after the
    property lines are taken away; and it keeps a block that holds nothing
    but a property whose key has a character other than a lower-case
    letter. *)
Lemma filter_keeps_what_the_claim_drops :
  (isContentBlock (block_with_content "") = true
   /\ Regex.remove_all Regex.property
        (BlockEntity.content (fields (block_with_content ""))) = "")
  /\ (isContentBlock (block_with_content "background-color:: yellow") = true
      /\ Regex.remove_all Regex.property "background-color:: yellow"
         = "background-").
Proof. repeat split; vm_compute; reflexivity. Qed.

(** C6, amended. The filter drops a block exactly when its content is not
    empty and is made of property lines only, each a key of lower-case
    letters, [:: ] and a value that stays on the line, the last one closed
    by a newline or not; every other block is kept. The filter is applied
    to the blocks at the top of the page: the actual tree has every block
    nested under a block that was kept, and the encoder emits a block
    annotation for each of them. *)
Theorem isContentBlock_keeps {H : Type} `{Editor H} (b : BlockEntity) :
  (isContentBlock b = false
   <-> only_properties (BlockEntity.content (fields b)))
  /\ (forall (notebookPageId : string) (tree : list BlockEntity) (k : string),
         In k (JsRecord.keys (actualTreeMappingOf notebookPageId tree))
         <-> exists root f,
               In root tree /\ isContentBlock root = true
               /\ In f (tree_nodes root) /\ BlockEntity.uuid f = k)
  /\ (forall (atJsonParser : string -> InputSchema) (v4 : nat -> string)
             (notebookPageId : string) (w w' : World H) (doc : InputSchema)
             (page : PageEntity.t) (tree : list BlockEntity) (h1 h2 : H),
         inline_only atJsonParser ->
         perform (GetPageByPropertyId notebookPageId) (host w)
         = (Resolved (Some page), h1) ->
         perform (GetPageBlocksTree (PageEntity.originalName page)) h1
         = (Resolved (Some tree), h2) ->
         calculateState atJsonParser v4 notebookPageId w = (Resolved doc, w') ->
         block_levels (annotations doc)
         = map fst (dfs_forest 0 (List.filter isContentBlock tree))).
Proof.
  split; [| split].
  - unfold isContentBlock.
    rewrite orb_false_iff, negb_false_iff.
    split.
    + intros [Hc Hr]. apply truthy_spec in Hc.
      apply (remove_all_nothing_left
               (String.length (BlockEntity.content (fields b))));
        [lia | exact Hc |].
      destruct (Regex.remove_all Regex.property
                  (BlockEntity.content (fields b))); [reflexivity |].
      discriminate.
    + intros Hp. apply only_properties_dropped in Hp as [Hne Hr].
      split; [now apply truthy_spec | now rewrite Hr].
  - intros notebookPageId tree k. unfold actualTreeMappingOf.
    rewrite in_keys_fromEntries, map_map. cbn [fst].
    rewrite <- (map_map node BlockEntity.uuid).
    rewrite (flattenTree_nodes BlockEntity.uuid _ notebookPageId).
    rewrite in_map_iff. unfold forest_nodes. split.
    + intros (f & <- & Hf). apply in_concat in Hf as (nodes & Hn & Hf).
      apply in_map_iff in Hn as (root & <- & Hroot).
      apply filter_In in Hroot as [Hroot Hkeep].
      exists root, f. auto.
    + intros (root & f & Hroot & Hkeep & Hf & <-).
      exists f. split; [reflexivity |]. apply in_concat.
      exists (tree_nodes root). split; [| exact Hf].
      apply in_map_iff. exists root. split; [reflexivity |].
      apply filter_In. auto.
  - intros atJsonParser v4 notebookPageId w w' doc page tree h1 h2
           Hinline Hpage Htree Hrun.
    apply calculateState_inv in Hrun
        as (title & parentUuid & nodes & s & w1 & Hread & Hs & ->).
    unfold nodes_read in Hread. rewrite Hpage, Htree in Hread. subst nodes.
    destruct (toAtJson_layout atJsonParser v4 (fun _ => "")
                (List.filter isContentBlock tree) 0
                (Js.len title) bullet w1) as (s' & w2 & Hs' & _ & [_ Ha]).
    rewrite Hs in Hs'. injection Hs' as <- <-.
    cbn [annotations block_levels type].
    rewrite <- block_levels_anonymous, Ha, block_levels_anonymous.
    apply (encode_levels _ _ Hinline).
Qed.

Lemma isContentBlock_keeps_witness :
  (isContentBlock
     (block_with_content ("tags:: draft" +:+ Regex.nl +:+ "alias:: plan"))
   = false)
  /\ block_levels
       (annotations
          (resolved_with
             (calculateState star_parser demo_uuid
                "9e000000-0000-4000-8000-000000000000"
                (fresh_world nested_property_page))))
     = [0; 1].
Proof.
  split.
  - apply (proj1 (isContentBlock_keeps (H := Notebook) _)).
    exists [("tags", "draft"); ("alias", "plan")].
    repeat split; [discriminate | now right].
  - assert (Hrun :
      calculateState star_parser demo_uuid
        "9e000000-0000-4000-8000-000000000000"
        (fresh_world nested_property_page)
      = (Resolved
           (resolved_with
              (calculateState star_parser demo_uuid
                 "9e000000-0000-4000-8000-000000000000"
                 (fresh_world nested_property_page))),
         snd (calculateState star_parser demo_uuid
                "9e000000-0000-4000-8000-000000000000"
                (fresh_world nested_property_page))))
      by (vm_compute; reflexivity).
    rewrite (proj2 (proj2 (isContentBlock_keeps (H := Notebook)
                             (block_with_content "")))
               star_parser demo_uuid "9e000000-0000-4000-8000-000000000000"
               (fresh_world nested_property_page) _ _ demo_page
               (nb_tree nested_property_page) nested_property_page
               nested_property_page star_parser_inline_only
               eq_refl eq_refl Hrun).
    reflexivity.
Defined.

(** ** The leftmost match of a pattern *)

Lemma append_eq_nil (a b : string) : a +:+ b = "" -> a = "" /\ b = "".
Proof.
  destruct a as [|c a]; [rewrite append_nil_l; now intros -> |].
  rewrite append_cons. discriminate.
Qed.

Lemma remove_first_without (re : Regex.Pattern)
  (matches : string -> string -> Prop) :
  recognises re matches ->
  forall s, without_first matches s (Regex.remove_first re s).
Proof.
  intros Hre s. induction s as [|c s IH].
  - cbn [Regex.remove_first]. destruct (re "") as [n|] eqn:E.
    + apply Hre in E as (m & post & Es & Hm & ->).
      symmetry in Es. apply append_eq_nil in Es as [-> ->].
      left. exists "", "", "". repeat split; [exact Hm |].
      intros p1 p2 m' post' Ep Hp2. symmetry in Ep.
      apply append_eq_nil in Ep as [_ ->]. congruence.
    + right. split; [| reflexivity].
      intros p1 m' post' Es Hm. symmetry in Es.
      apply append_eq_nil in Es as [-> Es].
      apply append_eq_nil in Es as [-> ->].
      assert (Hsome : re "" = Some (String.length "")).
      { apply Hre. exists "", "". repeat split. exact Hm. }
      congruence.
  - cbn [Regex.remove_first]. destruct (re (String c s)) as [n|] eqn:E.
    + apply Hre in E as (m & post & Es & Hm & ->).
      left. exists "", m, post. rewrite Es, drop_append.
      repeat split; [exact Hm |].
      intros p1 p2 m' post' Ep Hp2. symmetry in Ep.
      apply append_eq_nil in Ep as [_ ->]. congruence.
    + assert (Hhead : forall m' post',
                String c s = m' +:+ post' -> ~ matches m' post').
      { intros m' post' Es Hm.
        assert (Hsome : re (String c s) = Some (String.length m')).
        { apply Hre. exists m', post'. auto. }
        congruence. }
      destruct IH as [(pre & m & post & Es & Hm & Hfirst & ->) | [Hnone ->]].
      * left. exists (String c pre), m, post. rewrite Es.
        repeat split; [exact Hm |].
        intros [|x p1] p2 m' post' Ep Hp2 Ematch.
        -- rewrite append_nil_l in Ep. subst p2.
           apply (Hhead m' post'). now rewrite <- Ematch, Es.
        -- rewrite append_cons in Ep. injection Ep as _ Ep.
           exact (Hfirst p1 p2 m' post' Ep Hp2 Ematch).
      * right. split; [| reflexivity].
        intros [|x p1] m' post' Es.
        -- now apply Hhead.
        -- rewrite append_cons in Es. injection Es as _ Es.
           now apply (Hnone p1).
Qed.

Lemma id_line_recognises (uuid : string) :
  recognises (Regex.id_line uuid) (id_match uuid).
Proof.
  intros s n. unfold Regex.id_line, id_match.
  change (Regex.nl +:+ "id:: " +:+ uuid) with (id_property uuid).
  split.
  - destruct (Js.strip_prefix (id_property uuid) s) as [r|] eqn:E;
      [| discriminate].
    intros [= <-]. apply strip_prefix_inv in E.
    exists (id_property uuid), r. auto.
  - intros (m & post & -> & -> & ->). now rewrite strip_prefix_append.
Qed.

Lemma title_line_recognises : recognises Regex.title_line title_match.
Proof.
  intros s n. unfold Regex.title_line, title_match. split.
  - destruct (Js.strip_prefix (Regex.nl +:+ "title:: ") s) as [r|] eqn:E;
      [| discriminate].
    apply strip_prefix_inv in E.
    destruct (count_while_split Regex.not_newline r)
      as (t & rest & Er & Hlen & Ht & Hrest).
    destruct (Js.count_while Regex.not_newline r) as [|v]; [discriminate |].
    intros [= <-]. exists (title_property t), rest.
    split; [| split].
    + unfold title_property. rewrite E, Er. now rewrite !append_assoc.
    + exists t. repeat split; try assumption.
      destruct t; [discriminate | reflexivity].
    + unfold title_property. rewrite <- append_assoc, length_append.
      now rewrite Hlen.
  - intros (m & post & -> & (t & -> & Ht1 & Ht2 & Hpost) & ->).
    unfold title_property.
    rewrite <- (append_assoc Regex.nl "title:: " t).
    rewrite (append_assoc (Regex.nl +:+ "title:: ") t post).
    rewrite strip_prefix_append.
    rewrite (count_while_all _ t post Ht2 Hpost).
    destruct t as [|c t]; [discriminate |].
    cbn [String.length]. now rewrite length_append.
Qed.

Lemma hex_run_inv (n : nat) :
  forall s r,
    Regex.hex_run n s = Some r -> exists a, s = a +:+ r /\ hex_group n a = true.
Proof.
  induction n as [|n IH]; intros s r; cbn [Regex.hex_run].
  - intros [= ->]. now exists "".
  - destruct s as [|c s]; [discriminate |].
    destruct (Regex.is_hex c) eqn:Hc; [| discriminate].
    intros Hr. destruct (IH s r Hr) as (a & -> & Ha).
    exists (String c a). split; [reflexivity |].
    unfold hex_group in *. cbn [String.length all_chars Nat.eqb].
    apply andb_prop in Ha as [Hlen Hhex]. now rewrite Hc, Hlen, Hhex.
Qed.

Lemma dash_inv (s r : string) : Regex.dash s = Some r -> s = "-" +:+ r.
Proof. apply strip_prefix_inv. Qed.

Lemma samepage_line_recognises :
  recognises Regex.samepage_line samepage_match.
Proof.
  intros s n. unfold samepage_match. split.
  - unfold Regex.samepage_line.
    destruct (Js.strip_prefix (Regex.nl +:+ "samepage:: ") s) as [r|] eqn:E;
      [| discriminate].
    apply strip_prefix_inv in E.
    destruct (Regex.hex_run 8 r) as [r1|] eqn:E1; [| discriminate].
    cbn [mbind option_bind].
    destruct (Regex.dash r1) as [r2|] eqn:E2; [| discriminate].
    cbn [mbind option_bind].
    destruct (Regex.hex_run 4 r2) as [r3|] eqn:E3; [| discriminate].
    cbn [mbind option_bind].
    destruct (Regex.dash r3) as [r4|] eqn:E4; [| discriminate].
    cbn [mbind option_bind].
    destruct (Regex.hex_run 4 r4) as [r5|] eqn:E5; [| discriminate].
    cbn [mbind option_bind].
    destruct (Regex.dash r5) as [r6|] eqn:E6; [| discriminate].
    cbn [mbind option_bind].
    destruct (Regex.hex_run 4 r6) as [r7|] eqn:E7; [| discriminate].
    cbn [mbind option_bind].
    destruct (Regex.dash r7) as [r8|] eqn:E8; [| discriminate].
    cbn [mbind option_bind].
    destruct (Regex.hex_run 12 r8) as [r9|] eqn:E9; [| discriminate].
    intros [= <-].
    apply hex_run_inv in E1 as (a & -> & Ha).
    apply dash_inv in E2 as ->.
    apply hex_run_inv in E3 as (b & -> & Hb).
    apply dash_inv in E4 as ->.
    apply hex_run_inv in E5 as (c & -> & Hc).
    apply dash_inv in E6 as ->.
    apply hex_run_inv in E7 as (d & -> & Hd).
    apply dash_inv in E8 as ->.
    apply hex_run_inv in E9 as (e & -> & He).
    exists (samepage_property (uuid_of_groups a b c d e)), r9.
    split; [| split].
    + rewrite E. unfold samepage_property, uuid_of_groups.
      now rewrite !append_assoc.
    + exists a, b, c, d, e. split; [| reflexivity].
      unfold uuid_groups. now rewrite Ha, Hb, Hc, Hd, He.
    + unfold samepage_property, uuid_of_groups.
      rewrite <- (append_assoc Regex.nl "samepage:: ").
      rewrite length_append. f_equal.
      unfold hex_group in *.
      apply andb_prop in Ha as [Ha _]. apply andb_prop in Hb as [Hb _].
      apply andb_prop in Hc as [Hc _]. apply andb_prop in Hd as [Hd _].
      apply andb_prop in He as [He _].
      apply Nat.eqb_eq in Ha, Hb, Hc, Hd, He.
      rewrite !length_append. cbn [String.length].
      rewrite Ha, Hb, Hc, Hd, He. reflexivity.
  - intros (m & post & -> & (a & b & c & d & e & Hg & ->) & ->).
    unfold samepage_property.
    rewrite (append_assoc Regex.nl), (append_assoc "samepage:: ").
    now apply samepage_line_matches.
Qed.

(** C7 as the specification words it fails: a trailing newline is not
    taken away, nor is a [title::] line that opens the content, nor an
    [id::] line that names another block, nor a second [title::] line, nor
    what follows the uuid on the line of the [id::] property. *)
Lemma preContent_keeps_what_the_claim_strips :
  preContent "6581e0d7-2f6e-4f7e-9a3c-0d1e2f3a4b5c" ("hello" +:+ Regex.nl)
  = "hello" +:+ Regex.nl
  /\ preContent "6581e0d7-2f6e-4f7e-9a3c-0d1e2f3a4b5c"
       ("title:: Home" +:+ Regex.nl +:+ "hello")
     = "title:: Home" +:+ Regex.nl +:+ "hello"
  /\ preContent "6581e0d7-2f6e-4f7e-9a3c-0d1e2f3a4b5c"
       ("hello" +:+ Regex.nl +:+ "id:: 00000000-0000-0000-0000-000000000000")
     = "hello" +:+ Regex.nl +:+ "id:: 00000000-0000-0000-0000-000000000000"
  /\ preContent "6581e0d7-2f6e-4f7e-9a3c-0d1e2f3a4b5c"
       ("hello" +:+ title_property "Home" +:+ title_property "Work")
     = "hello" +:+ title_property "Work"
  /\ preContent "6581e0d7-2f6e-4f7e-9a3c-0d1e2f3a4b5c"
       ("hello" +:+ id_property "6581e0d7-2f6e-4f7e-9a3c-0d1e2f3a4b5c"
          +:+ "0 and more")
     = "hello0 and more".
Proof. repeat split; vm_compute; reflexivity. Qed.

(** C7, amended. Before the parser runs, [toAtJson] takes three things out
    of the raw content, one after the other and each at its leftmost
    place only: a newline followed by [id:: ] and the block's own uuid; a
    newline followed by [title:: ] and what is left of that line; a newline
    followed by [samepage:: ] and a uuid written as five groups of
    hexadecimal digits. Everything else stays, the text around each match
    included, and so does a newline that ends the content. The block
    annotation and the content emitted are those of the text that is left.
    The uuid of the block is taken to be written with hexadecimal digits
    and dashes. *)
Theorem toAtJson_strips_property_lines {H : Type} `{Editor H}
  (atJsonParser : string -> InputSchema) (v4 : nat -> string)
  (f : BlockEntity.t) :
  all_chars is_uuid_char (BlockEntity.uuid f) = true ->
  (exists c1 c2,
      without_first (id_match (BlockEntity.uuid f)) (BlockEntity.content f) c1
      /\ without_first title_match c1 c2
      /\ without_first samepage_match c2
           (preContent (BlockEntity.uuid f) (BlockEntity.content f)))
  /\ forall (ch : list BlockEntity) (level : Z) (viewType : ViewType)
            (index : Z) (w : World H),
       let parsed :=
         atJsonParser (preContent (BlockEntity.uuid f) (BlockEntity.content f)) in
       exists identifier kids w',
         toAtJson_node atJsonParser v4 level viewType (Node f ch) index w
         = (Resolved
              (mkSchema (content parsed +:+ content kids)
                 (mkAnnotation index (Js.len (content parsed) + index)
                    (block identifier level viewType)
                    :: map (rebase index) (annotations parsed)
                    ++ annotations kids)),
            w').
Proof.
  intros _. split.
  - unfold preContent. eexists _, _. split; [| split].
    + apply remove_first_without, id_line_recognises.
    + apply remove_first_without, title_line_recognises.
    + apply remove_first_without, samepage_line_recognises.
  - intros ch level viewType index w.
    apply toAtJson_node_emits.
Qed.

Lemma toAtJson_strips_property_lines_witness :
  let u := "a1000000-0000-4000-8000-000000000000" in
  let raw :=
    "hello" +:+ id_property u +:+ Regex.nl +:+ "world" +:+ title_property "Home"
      +:+ samepage_property "9e000000-0000-4000-8000-000000000000" in
  preContent u raw = "hello" +:+ Regex.nl +:+ "world"
  /\ exists c1 c2,
       without_first (id_match u) raw c1
       /\ without_first title_match c1 c2
       /\ without_first samepage_match c2 (preContent u raw).
Proof.
  cbn zeta. split; [vm_compute; reflexivity |].
  exact (proj1 (toAtJson_strips_property_lines (H := Notebook)
                  star_parser demo_uuid
                  (BlockEntity.mk "a1000000-0000-4000-8000-000000000000"
                     ("hello"
                        +:+ id_property "a1000000-0000-4000-8000-000000000000"
                        +:+ Regex.nl +:+ "world" +:+ title_property "Home"
                        +:+ samepage_property
                              "9e000000-0000-4000-8000-000000000000")
                     0 None None)
                  eq_refl)).
Defined.

(** ** What [applyState] plans *)

Definition same_stores {H} (w w' : World H) : Prop :=
  logseq_to_samepage w' = logseq_to_samepage w
  /\ samepage_to_logseq w' = samepage_to_logseq w.

Section PlanFacts.
Context {H : Type} `{Editor H}.

Lemma call_inv (c : HostCall) (w w' : World H) (o : Outcome (Response c)) :
  call c w = (o, w') ->
  exists h, perform c (host w) = (o, h)
            /\ w' = mkWorld h (calls w ++ [c]) (logseq_to_samepage w)
                      (samepage_to_logseq w) (drawn w).
Proof.
  unfold call. destruct (perform c (host w)) as [o' h]. intros [= <- <-].
  now exists h.
Qed.

Lemma lookup_all_resolves (ks : list string) (w : World H) :
  lookup_all ks w = (Resolved (map (fun k => (k, local_of w k)) ks), w).
Proof.
  induction ks as [|k ks IH]; [reflexivity |].
  cbn [lookup_all map]. erewrite bind_resolved by reflexivity.
  erewrite bind_resolved by exact IH. reflexivity.
Qed.

Lemma readActualTree_inv (notebookPageId : string) (w w1 : World H)
  (actual : JsRecord.t (Flat BlockEntity.t)) :
  readActualTree notebookPageId w = (Resolved actual, w1) ->
  same_stores w w1
  /\ exists tree,
       tree_read notebookPageId (host w) tree
       /\ actual = actualTreeMappingOf notebookPageId tree.
Proof.
  unfold readActualTree, tree_read. intros Hrun.
  bind_inv Hrun. bind_inv Hrun. injection Hrun as <- <-.
  apply (call_inv (GetPageByPropertyId notebookPageId)) in Hm as (h & -> & ->).
  destruct a as [p|].
  - bind_inv Hm0. injection Hm0 as <- <-.
    apply (call_inv (GetPageBlocksTree (PageEntity.originalName p))) in Hm
        as (h0 & Hp & ->).
    cbn [host] in Hp. rewrite Hp. split; [split; reflexivity |].
    now eexists.
  - injection Hm0 as <- <-. split; [split; reflexivity |]. now eexists.
Qed.

(** The plan of a resolved [plan]: the two trees keyed by identifier, the
    local id the store has for each desired identifier, and the
    operations. The stores are as they were. *)
Lemma plan_inv (notebookPageId : string) (state : InputSchema)
  (w w' : World H) (p : Plan) :
  plan notebookPageId state w = (Resolved p, w') ->
  let expected :=
    expectedTreeMapping notebookPageId (write_blocks (read_annotations state)) in
  let es2l :=
    JsRecord.fromEntries
      (map (fun k => (k, local_of w k)) (JsRecord.keys expected)) in
  same_stores w w'
  /\ exists tree,
       tree_read notebookPageId (host w) tree
       /\ p = mkPlan expected (actualTreeMappingOf notebookPageId tree) es2l
                (promises (metadata_seen (read_annotations state))
                   (actualTreeMappingOf notebookPageId tree) es2l).
Proof.
  intros Hrun expected es2l. unfold plan in Hrun.
  bind_inv Hrun. bind_inv Hrun. injection Hrun as <- <-.
  apply readActualTree_inv in Hm as ([Hl Hs] & tree & Htree & ->).
  rewrite lookup_all_resolves in Hm0. injection Hm0 as <- <-.
  split; [split; assumption |].
  exists tree. split; [exact Htree |].
  unfold local_of. rewrite Hs. reflexivity.
Qed.

Lemma removeOp_resolved (uuid : string) (w : World H) (h : H) :
  perform (RemoveBlock uuid) (host w) = (Resolved tt, h) ->
  removeOp uuid w
  = (Resolved tt,
     mkWorld h (calls w ++ [RemoveBlock uuid])
       (delete uuid (logseq_to_samepage w))
       (delete (global_of w uuid) (samepage_to_logseq w)) (drawn w)).
Proof.
  intros Hp. unfold removeOp, catch.
  assert (Hc : call (RemoveBlock uuid) w
               = (Resolved tt,
                  mkWorld h (calls w ++ [RemoveBlock uuid])
                    (logseq_to_samepage w) (samepage_to_logseq w) (drawn w))).
  { unfold call. now rewrite Hp. }
  erewrite bind_resolved by exact Hc. reflexivity.
Qed.

End PlanFacts.

(** ** The blocks to delete *)

Lemma in_values_fromEntries_pairs (f : string -> string) (ks : list string)
  (v : string) :
  List.NoDup ks ->
  In v (JsRecord.values (JsRecord.fromEntries (map (fun k => (k, f k)) ks)))
  <-> exists k, In k ks /\ f k = v.
Proof.
  intros Hnd. unfold JsRecord.values. rewrite in_map_iff.
  set (es := map (fun k => (k, f k)) ks).
  assert (Hkeys : map fst es = ks).
  { unfold es. rewrite map_map. cbn [fst]. apply map_id. }
  assert (Hget : forall k v', In (k, v') (JsRecord.fromEntries es)
                              <-> In k ks /\ v' = f k).
  { intros k v'. split.
    - intros Hin.
      assert (Hk : In k ks).
      { rewrite <- Hkeys. apply in_keys_fromEntries.
        unfold JsRecord.keys. apply in_map_iff. now exists (k, v'). }
      split; [exact Hk |].
      apply in_get_nodup in Hin; [| apply nodup_keys_fromEntries].
      assert (Hall : forall (es0 : list (string * string)) r,
                 (forall k0 v0, In (k0, v0) es0 -> v0 = f k0) ->
                 (forall v0, JsRecord.get k r = Some v0 -> v0 = f k) ->
                 forall v0,
                   JsRecord.get k
                     (fold_left (fun r e => JsRecord.define (fst e) (snd e) r) es0 r)
                   = Some v0 -> v0 = f k).
      { induction es0 as [|[k0 v0] es0 IH]; intros r Hes Hr v1; [apply Hr |].
        cbn [fold_left fst snd]. apply IH.
        - intros k1 v2 Hin1. apply (Hes k1 v2). now right.
        - intros v2. rewrite get_define. destruct (String.eqb k0 k) eqn:E.
          + apply String.eqb_eq in E as ->. intros [= <-].
            apply (Hes k v0). now left.
          + apply Hr. }
      apply (Hall es []); [| discriminate | exact Hin].
      intros k0 v0 Hin0. unfold es in Hin0.
      apply in_map_iff in Hin0 as (k1 & [= <- <-] & _). reflexivity.
    - intros [Hk ->]. apply get_some_in.
      assert (Hhas : In k (JsRecord.keys (JsRecord.fromEntries es))).
      { apply in_keys_fromEntries. now rewrite Hkeys. }
      apply has_in_keys in Hhas. unfold JsRecord.has in Hhas.
      destruct (JsRecord.get k (JsRecord.fromEntries es)) as [v'|] eqn:Hg;
        [| discriminate].
      f_equal.
      assert (Hin : In (k, v') (JsRecord.fromEntries es))
        by now apply get_some_in.
      clear Hhas.
      assert (Hsub : forall (es0 : list (string * string)) r k0 v0,
                 In (k0, v0)
                   (fold_left (fun r e => JsRecord.define (fst e) (snd e) r) es0 r)
                 -> In (k0, v0) es0 \/ In (k0, v0) r).
      { induction es0 as [|[k1 v1] es0 IH]; intros r k0 v0 Hin0; [now right |].
        cbn [fold_left fst snd] in Hin0. apply IH in Hin0 as [Hin0 | Hin0].
        - left. now right.
        - apply in_define in Hin0 as [[= -> ->] | Hin0];
            [left; now left | now right]. }
      apply Hsub in Hin as [Hin | []]. unfold es in Hin.
      apply in_map_iff in Hin as (k1 & [= <- <-] & _). reflexivity. }
  split.
  - intros ([k v'] & <- & Hin). apply Hget in Hin as [Hk ->]. now exists k.
  - intros (k & Hk & <-). exists (k, f k). split; [reflexivity |].
    now apply Hget.
Qed.

Lemma tree_read_functional {H} `{Editor H} (notebookPageId : string) (h : H)
  (tree tree' : list BlockEntity) :
  tree_read notebookPageId h tree -> tree_read notebookPageId h tree' ->
  tree = tree'.
Proof.
  unfold tree_read.
  destruct (perform (GetPageByPropertyId notebookPageId) h) as [[[p|]|] h1];
    try contradiction; [| congruence].
  destruct (perform (GetPageBlocksTree (PageEntity.originalName p)) h1)
    as [[t|] h2]; try contradiction. congruence.
Qed.

Lemma actualTreeMapping_keys (notebookPageId : string)
  (tree : list BlockEntity) (k : string) :
  In k (JsRecord.keys (actualTreeMappingOf notebookPageId tree))
  <-> In k (actual_ids tree).
Proof.
  unfold actualTreeMappingOf, actual_ids.
  rewrite in_keys_fromEntries, map_map. cbn [fst].
  rewrite <- (flattenTree_nodes BlockEntity.uuid _ notebookPageId).
  now rewrite map_map.
Qed.

Lemma in_existsb_eqb (k : string) (l : list string) :
  existsb (String.eqb k) l = true <-> In k l.
Proof.
  rewrite existsb_exists. split.
  - intros (x & Hx & E). apply String.eqb_eq in E as ->. exact Hx.
  - intros Hk. exists k. split; [exact Hk | apply String.eqb_refl].
Qed.

Lemma desired_set_truthy (state : InputSchema) (g : string) :
  In g (desired_set state) -> g <> "".
Proof.
  unfold desired_set. rewrite filter_In. intros [_ Ht]. now apply truthy_spec.
Qed.

Lemma three_blocks_stores_agree : stores_agree three_blocks_world.
Proof.
  intros l g. unfold global_of, local_of, three_blocks_world.
  cbn [logseq_to_samepage samepage_to_logseq demo_uuid].
  split; intros [E Hne].
  - rewrite <- E in Hne |- *. clear E.
    destruct (decide (l = "a1000000-0000-4000-8000-000000000000")) as [->|N1];
      [now vm_compute |].
    destruct (decide (l = "a2000000-0000-4000-8000-000000000000")) as [->|N2];
      [now vm_compute |].
    destruct (decide (l = "a3000000-0000-4000-8000-000000000000")) as [->|N3];
      [now vm_compute |].
    exfalso. apply Hne. now rewrite !lookup_insert_ne by congruence.
  - rewrite <- E in Hne |- *. clear E.
    destruct (decide (g = "11111111-1111-4111-8111-111111111111")) as [->|N1];
      [now vm_compute |].
    destruct (decide (g = "22222222-2222-4222-8222-222222222222")) as [->|N2];
      [now vm_compute |].
    destruct (decide (g = "33333333-3333-4333-8333-333333333333")) as [->|N3];
      [now vm_compute |].
    exfalso. apply Hne. now rewrite !lookup_insert_ne by congruence.
Qed.

(** ** The order of the operations *)

Section BeforeFacts.
Context {A : Type}.

Lemma before_app_r (x y : A) (l0 l : list A) :
  before x y l -> before x y (l0 ++ l).
Proof.
  intros (l1 & l2 & l3 & ->). exists (l0 ++ l1), l2, l3.
  now rewrite <- app_assoc.
Qed.

Lemma before_app_l (x y : A) (l l0 : list A) :
  before x y l -> before x y (l ++ l0).
Proof.
  intros (l1 & l2 & l3 & ->). exists l1, l2, (l3 ++ l0).
  rewrite <- !app_assoc. cbn [app]. now rewrite <- !app_assoc.
Qed.

Lemma before_cons (x y z : A) (l : list A) :
  before x y l -> before x y (z :: l).
Proof. apply (before_app_r x y [z]). Qed.

Lemma before_map {B} (f : A -> B) (x y : A) (l : list A) :
  before x y l -> before (f x) (f y) (map f l).
Proof.
  intros (l1 & l2 & l3 & ->). exists (map f l1), (map f l2), (map f l3).
  now rewrite !map_app, !map_cons, !map_app, !map_cons.
Qed.

Lemma before_filter (f : A -> bool) (x y : A) (l : list A) :
  before x y l -> f x = true -> f y = true ->
  before x y (List.filter f l).
Proof.
  intros (l1 & l2 & l3 & ->) Hx Hy.
  exists (List.filter f l1), (List.filter f l2), (List.filter f l3).
  rewrite !List.filter_app. cbn [List.filter]. rewrite Hx.
  rewrite !List.filter_app. cbn [List.filter]. now rewrite Hy.
Qed.

Lemma before_split (x y : A) (l1 l2 : list A) :
  In x l1 -> before x y (l1 ++ y :: l2).
Proof.
  intros Hx. apply in_split in Hx as (a & b & ->).
  exists a, b, l2. now rewrite <- app_assoc.
Qed.

End BeforeFacts.

Section ParentsFirst.
Context {A : Type} (uuid : A -> string).

Lemma parents_first_nil (root : string) : parents_first uuid root [].
Proof. intros [|? l1] c l2 E; discriminate. Qed.

Lemma parents_first_app (root : string) (l l' : list (Flat A)) :
  parents_first uuid root l -> parents_first uuid root l' ->
  parents_first uuid root (l ++ l').
Proof.
  intros Hl Hl' l1 c l2 E.
  apply app_eq_app in E as (m & [[-> E] | [-> E]]).
  - destruct m as [|c' m].
    + cbn [app] in E.
      destruct (Hl' [] c l2 (eq_sym E)) as [Hr | (p & [] & _)]. now left.
    + cbn [app] in E. injection E as <- ->.
      now apply (Hl l1 c m).
  - destruct (Hl' m c l2 E) as [Hr | (p & Hp & Hc)]; [now left | right].
    exists p. split; [| exact Hc]. apply in_app_iff. now right.
Qed.

Lemma parents_first_node (root : string) (f : A) (order : nat)
  (kids : list (Flat A)) :
  parents_first uuid (Js.or_else (uuid f) "") kids ->
  parents_first uuid root (mkFlat f order root :: kids).
Proof.
  intros Hkids [|e l1] c l2 E; cbn [app] in E; injection E as <- E.
  - now left.
  - right. destruct (Hkids l1 c l2 E) as [Hr | (p & Hp & Hc)].
    + exists (mkFlat f order root). split; [now left | exact Hr].
    + exists p. split; [now right | exact Hc].
Qed.

Lemma parents_first_flatMap (root : string)
  (f : nat -> Tree A -> list (Flat A)) (l : list (Tree A)) :
  Forall (fun t => forall i, parents_first uuid root (f i t)) l ->
  forall from, parents_first uuid root (flatMap_indexed f from l).
Proof.
  induction 1 as [|t l Ht _ IH]; intros from; [apply parents_first_nil |].
  cbn [flatMap_indexed]. apply parents_first_app; [apply Ht | apply IH].
Qed.

Lemma parents_first_flattenNode (t : Tree A) :
  forall root order, parents_first uuid root (flattenNode uuid root order t).
Proof.
  induction t as [f ch IH] using Tree_induction. intros root order.
  cbn [flattenNode]. apply parents_first_node. apply parents_first_flatMap.
  eapply List.Forall_impl; [| exact IH]. intros c Hc i. apply Hc.
Qed.

(** In the list [flattenTree] returns a parent comes before its
    children. *)
Lemma parents_first_flattenTree (tree : list (Tree A)) (root : string) :
  parents_first uuid root (flattenTree uuid tree root).
Proof.
  unfold flattenTree. apply parents_first_flatMap.
  apply Forall_forall. intros t _ i. apply parents_first_flattenNode.
Qed.

End ParentsFirst.

Section ChainFacts.
Context {H : Type}.

Lemma chain_app {S} (ps qs : list (S -> Promise H S)) (s : S) (w : World H) :
  chain (ps ++ qs) s w
  = match chain ps s w with
    | (Resolved s', w') => chain qs s' w'
    | (Rejected e, w') => (Rejected e, w')
    end.
Proof.
  revert s w. induction ps as [|p ps IH]; intros s w; [reflexivity |].
  cbn [app chain]. unfold mbind, promise_bind, and_then.
  destruct (p s w) as [[s'|e] w']; [apply IH | reflexivity].
Qed.

End ChainFacts.

Lemma map_filter_comm {A B} (g : A -> B) (f : B -> bool) (l : list A) :
  map g (List.filter (fun x => f (g x)) l) = List.filter f (map g l).
Proof.
  induction l as [|x l IH]; [reflexivity |].
  cbn [List.filter map]. destruct (f (g x)); cbn [map]; now rewrite IH.
Qed.

(** The entries [expectedTreeMapping] is made from: the flattened expected
    tree without the nodes that have no identifier. *)
Definition expected_entries (notebookPageId : string)
  (tree : list InputTextNode) : list (string * Flat InputTextNode.t) :=
  map (fun n => (InputTextNode.uuid (node n), n))
    (List.filter (fun n => Js.truthy (InputTextNode.uuid (node n)))
       (flattenTree InputTextNode.uuid tree notebookPageId)).

Lemma expected_entries_keys (notebookPageId : string) (state : InputSchema) :
  map fst (expected_entries notebookPageId
             (write_blocks (read_annotations state)))
  = desired_set state.
Proof.
  unfold expected_entries, desired_set. rewrite map_map. cbn [fst].
  rewrite <- expectedTree_identifiers, <- write_blocks_identifiers.
  rewrite <- (flattenTree_nodes InputTextNode.uuid _ notebookPageId).
  rewrite map_map.
  apply (map_filter_comm (fun n => InputTextNode.uuid (node n)) Js.truthy).
Qed.

Lemma plain_keys_entries {V} (es : list (string * V)) :
  plain_keys (map fst es) ->
  Forall (fun e => JsRecord.array_index (fst e) = None) es.
Proof. unfold plain_keys. now rewrite Forall_map. Qed.

(** With identifiers that do not repeat and are no array indices, the
    record of the expected tree lists it in flattened order. *)
Lemma expectedTreeMapping_plain (notebookPageId : string) (state : InputSchema) :
  List.NoDup (desired_set state) ->
  plain_keys (desired_set state) ->
  expectedTreeMapping notebookPageId (write_blocks (read_annotations state))
  = expected_entries notebookPageId (write_blocks (read_annotations state)).
Proof.
  intros Hnd Hplain. unfold expectedTreeMapping.
  fold (expected_entries notebookPageId (write_blocks (read_annotations state))).
  apply fromEntries_plain.
  - apply plain_keys_entries. now rewrite expected_entries_keys.
  - now rewrite expected_entries_keys.
Qed.

Lemma in_promises_insert (meta : option (string * string))
  (actual : JsRecord.t (Flat BlockEntity.t)) (es2l : JsRecord.t string)
  (g : string) :
  In (Insert g) (promises meta actual es2l)
  <-> In g (map fst (uuidsToCreate actual es2l)).
Proof.
  unfold promises. rewrite !in_app_iff, !in_map_iff. cbn [In]. split.
  - intros [[[E | []] | (k & E & _)] | [(e & E & He) | (e & E & _)]];
      try discriminate.
    injection E as <-. now exists e.
  - intros (e & <- & He). right. left. now exists e.
Qed.

Lemma before_promises_insert (meta : option (string * string))
  (actual : JsRecord.t (Flat BlockEntity.t)) (es2l : JsRecord.t string)
  (g g' : string) :
  before g g' (map fst (uuidsToCreate actual es2l)) ->
  before (Insert g) (Insert g') (promises meta actual es2l).
Proof.
  intros Hb. unfold promises. apply before_app_r. apply before_app_l.
  rewrite <- (map_map fst Insert). now apply before_map.
Qed.

Lemma or_else_truthy (u g : string) :
  Js.or_else u "" = g -> Js.truthy g = true -> u = g.
Proof.
  unfold Js.or_else. destruct (Js.truthy u); [easy |].
  intros <-. discriminate.
Qed.

Lemma phase_sorted (meta : option (string * string))
  (actual : JsRecord.t (Flat BlockEntity.t)) (es2l : JsRecord.t string) :
  StronglySorted (fun a b => (phase a <= phase b)%nat)
    (promises meta actual es2l).
Proof.
  unfold promises.
  assert (Happ : forall (l1 l2 : list Op) (n : nat),
             StronglySorted (fun a b => (phase a <= phase b)%nat) l1 ->
             StronglySorted (fun a b => (phase a <= phase b)%nat) l2 ->
             Forall (fun a => (phase a <= n)%nat) l1 ->
             Forall (fun b => (n <= phase b)%nat) l2 ->
             StronglySorted (fun a b => (phase a <= phase b)%nat) (l1 ++ l2)).
  { intros l1 l2 n H1 H2 Hle Hge. induction H1 as [|a l1 H1 IH Ha]; [exact H2 |].
    cbn [app]. inversion Hle as [|? ? Han Hle']; subst. constructor.
    - now apply IH.
    - apply Forall_app. split; [exact Ha |].
      eapply List.Forall_impl; [| exact Hge]. cbn. intros b Hb. lia. }
  assert (Hconst : forall {X} (f : X -> Op) (n : nat) (l : list X),
             (forall x, phase (f x) = n) ->
             StronglySorted (fun a b => (phase a <= phase b)%nat) (map f l)
             /\ Forall (fun a => phase a = n) (map f l)).
  { intros X f n l Hf. induction l as [|x l [IHs IHf]];
      [split; constructor |].
    cbn [map]. split; constructor; try assumption; [| apply Hf].
    eapply List.Forall_impl; [| exact IHf]. cbn. intros b Hb.
    rewrite Hf, Hb. lia. }
  destruct (Hconst _ Remove 1%nat
              (uuidsToDelete actual es2l) (fun _ => eq_refl)) as [Sr Fr].
  destruct (Hconst _ (fun e : string * string => Insert (fst e)) 2%nat
              (uuidsToCreate actual es2l) (fun _ => eq_refl)) as [Si Fi].
  destruct (Hconst _ (fun e : string * string => UpdateOrMove (fst e) (snd e))
              3%nat (uuidsToUpdate actual es2l) (fun _ => eq_refl)) as [Su Fu].
  apply (Happ _ _ 1%nat).
  - apply (Happ _ _ 0%nat); [repeat constructor | exact Sr | repeat constructor |].
    eapply List.Forall_impl; [| exact Fr]. cbn. intros b Hb. lia.
  - apply (Happ _ _ 2%nat); [exact Si | exact Su | |].
    + eapply List.Forall_impl; [| exact Fi]. cbn. intros b Hb. lia.
    + eapply List.Forall_impl; [| exact Fu]. cbn. intros b Hb. lia.
  - apply Forall_app. split; [repeat constructor |].
    eapply List.Forall_impl; [| exact Fr]. cbn. intros b Hb. lia.
  - apply Forall_app. split.
    + eapply List.Forall_impl; [| exact Fi]. cbn. intros b Hb. lia.
    + eapply List.Forall_impl; [| exact Fu]. cbn. intros b Hb. lia.
Qed.

(** ** The calls of an operation *)

Section Traces.
Context {H : Type} `{Editor H}.

Lemma makes_ret {A} (P : HostCall -> bool) (a : A) :
  makes P (mret a : Promise H A).
Proof. intros w r w1 [= <- <-]. exists []. now rewrite app_nil_r. Qed.

Lemma makes_reject {A} (P : HostCall -> bool) (e : string) :
  makes P (reject e : Promise H A).
Proof. intros w r w1 [= <- <-]. exists []. now rewrite app_nil_r. Qed.

Lemma makes_call (P : HostCall -> bool) (c : HostCall) :
  P c = true -> makes P (call c).
Proof.
  intros Hc w r w1 Hrun. apply call_inv in Hrun as (h & _ & ->).
  exists [c]. cbn [calls forallb]. now rewrite Hc.
Qed.

Lemma makes_bind {A B} (P : HostCall -> bool) (m : Promise H A)
  (k : A -> Promise H B) :
  makes P m -> (forall a, makes P (k a)) -> makes P (m ≫= k).
Proof.
  intros Hm Hk w r w1. unfold mbind, promise_bind, and_then.
  destruct (m w) as [[a|e] w0] eqn:E.
  - intros Hrun. destruct (Hm _ _ _ E) as (t1 & E1 & P1).
    destruct (Hk a _ _ _ Hrun) as (t2 & E2 & P2).
    exists (t1 ++ t2). rewrite E2, E1, <- app_assoc. split; [reflexivity |].
    rewrite forallb_app. now rewrite P1, P2.
  - intros [= <- <-]. exact (Hm _ _ _ E).
Qed.

Lemma makes_catch {A} (P : HostCall -> bool) (p : Promise H A)
  (k : string -> Promise H A) :
  makes P p -> (forall e, makes P (k e)) -> makes P (catch p k).
Proof.
  intros Hp Hk w r w1. unfold catch.
  destruct (p w) as [[a|e] w0] eqn:E.
  - intros [= <- <-]. exact (Hp _ _ _ E).
  - intros Hrun. destruct (Hp _ _ _ E) as (t1 & E1 & P1).
    destruct (Hk e _ _ _ Hrun) as (t2 & E2 & P2).
    exists (t1 ++ t2). rewrite E2, E1, <- app_assoc. split; [reflexivity |].
    rewrite forallb_app. now rewrite P1, P2.
Qed.

Lemma makes_saveIdMap (P : HostCall -> bool) (l g : string) :
  makes P (saveIdMap l g : Promise H unit).
Proof. intros w r w1 [= <- <-]. exists []. cbn. now rewrite app_nil_r. Qed.

Ltac made_call :=
  match goal with
  | |- makes _ (call ?c) => apply (makes_call _ c)
  end.

Lemma initialPromise_makes (notebookPageId : string)
  (meta : option (string * string)) :
  makes (initial_call notebookPageId meta) (initialPromise notebookPageId meta).
Proof.
  destruct meta as [[title parent]|]; cbn [initialPromise];
    [| apply makes_ret].
  assert (Eid : String.eqb notebookPageId notebookPageId = true)
    by apply String.eqb_refl.
  assert (Et : String.eqb title title = true) by apply String.eqb_refl.
  apply makes_catch; [| intros e; apply makes_reject].
  apply makes_bind.
  - destruct (Js.truthy parent); apply makes_bind;
      try (intros a; apply makes_ret); made_call; cbn; exact Eid.
  - intros [existing|]; [| apply makes_reject].
    unfold rename_or_retitle.
    destruct (bool_decide (existing = Some title)); [apply makes_ret |].
    destruct (Js.truthy parent).
    + apply makes_bind; [made_call; cbn; exact Eid |].
      intros [b|]; [made_call; cbn; exact Et | apply makes_ret].
    + apply makes_bind; [made_call; cbn; exact Et |].
      intros tree. apply makes_bind; [| intros _; made_call; cbn; exact Et].
      destruct tree as [t|]; [| apply makes_ret].
      destruct (List.find (claims_other_page notebookPageId) t) as [b|];
        [| apply makes_ret].
      made_call. cbn. now rewrite Eid.
Qed.

Lemma stamp_id_makes (notebookPageId : string) (block : option BlockEntity) :
  makes (insert_call notebookPageId) (stamp_id block).
Proof.
  destruct block as [b|]; cbn [stamp_id]; [| apply makes_ret].
  apply makes_bind; [| intros _; apply makes_ret].
  made_call. cbn. apply String.eqb_refl.
Qed.

Lemma insertOp_makes (notebookPageId : string)
  (expected : JsRecord.t (Flat InputTextNode.t)) (samepageUuid : string)
  (s : JsRecord.t string) :
  makes (insert_call notebookPageId)
    (insertOp notebookPageId expected samepageUuid s).
Proof.
  unfold insertOp.
  destruct (JsRecord.get samepageUuid expected) as [n|]; [| apply makes_reject].
  apply makes_catch; [| intros e; apply makes_reject].
  apply makes_bind.
  - destruct (String.eqb (parentUuid n) notebookPageId).
    + apply makes_bind; [made_call; cbn; apply String.eqb_refl |].
      intros [p|]; [| apply makes_reject].
      apply makes_bind; [now made_call |].
      intros [tree|]; [| apply makes_reject].
      apply makes_bind; [| intros block; apply stamp_id_makes].
      destruct (Z.of_nat (order n) <? Z.of_nat (List.length tree) - 1).
      * destruct (nth_error tree (S (order n))) as [next|];
          [now made_call | apply makes_reject].
      * now made_call.
    + apply makes_bind; [now made_call |].
      intros block. apply makes_bind; [| intros created; apply stamp_id_makes].
      destruct block as [b|]; [| apply makes_reject].
      destruct (nth_error (children b) (order n)) as [sibling|];
        now made_call.
  - intros [u|]; [| apply makes_reject].
    destruct (Js.truthy u); [| apply makes_reject].
    apply makes_bind; [apply makes_saveIdMap | intros _; apply makes_ret].
Qed.

Lemma removeOp_calls (uuid : string) (w w1 : World H) (r : Outcome unit) :
  removeOp uuid w = (r, w1) -> calls w1 = calls w ++ [RemoveBlock uuid].
Proof.
  unfold removeOp, catch, mbind, promise_bind, and_then.
  destruct (call (RemoveBlock uuid) w) as [[[]|e] w0] eqn:E;
    apply (call_inv (RemoveBlock uuid)) in E as (h & _ & ->);
    intros [= <- <-]; reflexivity.
Qed.

Lemma updateOp_calls (notebookPageId : string)
  (expected : JsRecord.t (Flat InputTextNode.t))
  (actual : JsRecord.t (Flat BlockEntity.t)) (samepageUuid logseqUuid : string)
  (s : JsRecord.t string) (w w1 : World H) (r : Outcome unit) :
  updateOp notebookPageId expected actual samepageUuid logseqUuid s w = (r, w1) ->
  exists t, calls w1 = calls w ++ t
            /\ made_by notebookPageId (UpdateOrMove samepageUuid logseqUuid) t.
Proof.
  unfold updateOp. cbn [made_by].
  destruct (JsRecord.get samepageUuid expected) as [n|].
  2: { intros [= <- <-]. exists []. rewrite app_nil_r. auto. }
  destruct (JsRecord.get logseqUuid actual) as [a|].
  2: { intros [= <- <-]. exists []. rewrite app_nil_r. auto. }
  destruct (negb _ || negb _)%bool.
  - unfold catch.
    destruct (call (MoveBlock logseqUuid _) w) as [[[]|e] w0] eqn:E;
      apply (call_inv (MoveBlock logseqUuid _)) in E as (h & _ & ->);
      intros [= <- <-]; eexists; (split; [reflexivity |]); right; left; eauto.
  - destruct (negb _).
    + unfold catch.
      destruct (call (UpdateBlock logseqUuid _) w) as [[[]|e] w0] eqn:E;
        apply (call_inv (UpdateBlock logseqUuid _)) in E as (h & _ & ->);
        intros [= <- <-]; eexists; (split; [reflexivity |]); right; right; eauto.
    + intros [= <- <-]. exists []. rewrite app_nil_r. auto.
Qed.

(** What an operation adds to the calls made so far, whether it resolves
    or rejects. *)
Lemma run_op_calls (notebookPageId : string)
  (expected : JsRecord.t (Flat InputTextNode.t))
  (actual : JsRecord.t (Flat BlockEntity.t)) (o : Op) (s : JsRecord.t string)
  (w w1 : World H) (r : Outcome (JsRecord.t string)) :
  run_op notebookPageId expected actual o s w = (r, w1) ->
  exists t, calls w1 = calls w ++ t /\ made_by notebookPageId o t.
Proof.
  destruct o as [meta | uuid | g | g l]; cbn [run_op made_by].
  - unfold mbind, promise_bind, and_then.
    destruct (initialPromise notebookPageId meta w) as [[[]|e] w0] eqn:E;
      intros [= <- <-]; exact (initialPromise_makes _ _ _ _ _ E).
  - unfold mbind, promise_bind, and_then.
    destruct (removeOp uuid w) as [[[]|e] w0] eqn:E;
      intros [= <- <-]; eexists; split;
      try reflexivity; exact (removeOp_calls _ _ _ _ E).
  - apply insertOp_makes.
  - unfold mbind, promise_bind, and_then.
    destruct (updateOp notebookPageId expected actual g l s w)
      as [[[]|e] w0] eqn:E;
      intros [= <- <-]; exact (updateOp_calls _ _ _ _ _ _ _ _ _ E).
Qed.

Lemma run_ops_in_turn (notebookPageId : string)
  (expected : JsRecord.t (Flat InputTextNode.t))
  (actual : JsRecord.t (Flat BlockEntity.t)) (ops : list Op) :
  forall (s : JsRecord.t string) (w : World H),
    runs_in_turn notebookPageId expected actual ops s w
      (fst (run_ops notebookPageId expected actual ops s w))
      (snd (run_ops notebookPageId expected actual ops s w)).
Proof.
  induction ops as [|o ops IH]; intros s w; [constructor |].
  unfold run_ops in *. cbn [map chain].
  unfold mbind, promise_bind, and_then.
  destruct (run_op notebookPageId expected actual o s w) as [[s1|e] w1] eqn:E.
  - eapply turn_next; [exact E | apply IH].
  - cbn [fst snd]. now apply turn_stop.
Qed.

(** The calls of a run, operation by operation. *)
Lemma runs_in_turn_segments (notebookPageId : string)
  (expected : JsRecord.t (Flat InputTextNode.t))
  (actual : JsRecord.t (Flat BlockEntity.t)) (ops : list Op)
  (s : JsRecord.t string) (w w' : World H) (r : Outcome (JsRecord.t string)) :
  runs_in_turn notebookPageId expected actual ops s w r w' ->
  exists segments,
    calls w' = calls w ++ concat segments
    /\ Forall2 (made_by notebookPageId)
         (firstn (List.length segments) ops) segments
    /\ (forall s', r = Resolved s' -> List.length segments = List.length ops).
Proof.
  induction 1 as [s w | o ops s s1 w w1 w2 r Hop _ IH | o ops s w w1 e Hop].
  - exists []. cbn. rewrite app_nil_r. repeat split; constructor.
  - destruct IH as (segments & Hcalls & Hmade & Hlen).
    destruct (run_op_calls _ _ _ _ _ _ _ _ Hop) as (t & Ht & Hby).
    exists (t :: segments). cbn [concat List.length firstn].
    rewrite Hcalls, Ht, <- app_assoc. split; [reflexivity | split].
    + now constructor.
    + intros s' Hr. now rewrite (Hlen s' Hr).
  - destruct (run_op_calls _ _ _ _ _ _ _ _ Hop) as (t & Ht & Hby).
    exists [t]. cbn [concat List.length firstn]. rewrite app_nil_r.
    split; [exact Ht | split; [| discriminate]].
    constructor; [exact Hby | constructor].
Qed.

End Traces.




(** ** The removals *)

Section Removals.
Context {H : Type} `{Editor H}.
Context (notebookPageId : string).
Context (expected : JsRecord.t (Flat InputTextNode.t)).
Context (actual : JsRecord.t (Flat BlockEntity.t)).

Lemma removeOp_rejected (uuid : string) (w : World H) (h : H) (m : string) :
  perform (RemoveBlock uuid) (host w) = (Rejected m, h) ->
  removeOp uuid w
  = (Rejected ("Failed to remove block " +:+ uuid +:+ ": " +:+ m),
     mkWorld h (calls w ++ [RemoveBlock uuid]) (logseq_to_samepage w)
       (samepage_to_logseq w) (drawn w)).
Proof.
  intros Hp. unfold removeOp, catch, mbind, promise_bind, and_then, call.
  now rewrite Hp.
Qed.

(** The removals run until one is rejected. *)
Lemma removals_run (uuids : list string) (s : JsRecord.t string) :
  forall w : World H,
    exists done todo w2,
      uuids = done ++ todo
      /\ removed done w w2
      /\ match todo with
         | [] =>
             run_ops notebookPageId expected actual (map Remove uuids) s w
             = (Resolved s, w2)
         | uuid :: _ =>
             exists m h,
               perform (RemoveBlock uuid) (host w2) = (Rejected m, h)
               /\ run_ops notebookPageId expected actual (map Remove uuids) s w
                  = (Rejected
                       ("Failed to remove block " +:+ uuid +:+ ": " +:+ m),
                     mkWorld h (calls w2 ++ [RemoveBlock uuid])
                       (logseq_to_samepage w2) (samepage_to_logseq w2)
                       (drawn w2))
         end.
Proof.
  induction uuids as [|uuid uuids IH]; intros w.
  - exists [], [], w. repeat split; constructor.
  - destruct (perform (RemoveBlock uuid) (host w)) as [[[]|m] h] eqn:Hp.
    + pose proof (removeOp_resolved uuid w h Hp) as Hop.
      destruct (IH (mkWorld h (calls w ++ [RemoveBlock uuid])
                      (delete uuid (logseq_to_samepage w))
                      (delete (global_of w uuid) (samepage_to_logseq w))
                      (drawn w)))
        as (done & todo & w2 & -> & Hdone & Hrest).
      exists (uuid :: done), todo, w2.
      split; [reflexivity | split; [now apply (removed_cons _ _ _ _ h) |]].
      assert (Hstep : forall r,
        run_ops notebookPageId expected actual (map Remove (done ++ todo)) s
          (mkWorld h (calls w ++ [RemoveBlock uuid])
             (delete uuid (logseq_to_samepage w))
             (delete (global_of w uuid) (samepage_to_logseq w)) (drawn w)) = r ->
        run_ops notebookPageId expected actual
          (map Remove ((uuid :: done) ++ todo)) s w = r).
      { intros r <-. unfold run_ops. cbn [app map chain run_op].
        erewrite bind_resolved; [reflexivity |].
        now erewrite bind_resolved by exact Hop. }
      destruct todo as [|k todo].
      * now apply Hstep.
      * destruct Hrest as (m & h' & Hk & Hrest). exists m, h'.
        split; [exact Hk | now apply Hstep].
    + exists [], (uuid :: uuids), w.
      split; [reflexivity | split; [constructor |]].
      exists m, h. split; [exact Hp |].
      unfold run_ops. cbn [map chain run_op].
      erewrite bind_rejected; [reflexivity |].
      erewrite bind_rejected; [reflexivity |].
      now apply removeOp_rejected.
Qed.

End Removals.

Lemma not_in_expectedUuids {H : Type} (w : World H) (ks : list string)
  (k : string) :
  List.NoDup ks ->
  In k (expectedUuids
          (JsRecord.fromEntries (map (fun g => (g, local_of w g)) ks)))
  <-> k <> "" /\ exists g, In g ks /\ local_of w g = k.
Proof.
  intros Hnd. unfold expectedUuids. rewrite filter_In, truthy_spec.
  rewrite in_values_fromEntries_pairs by exact Hnd. tauto.
Qed.

(** C8 as the specification words it fails once the two stores no longer
    hold the same pairs, which [applyState] itself brings about. The page
    has a block its identifier is paired with, but the block holds a
    property only and is not part of the actual tree: [applyState] makes a
    new block for the identifier and pairs the two, and the pair of the
    first block stays in [logseq-to-samepage]. When the first block has
    text again it is removed, although its identifier there is in the
    desired set, and the removal takes the identifier's entry out of
    [samepage-to-logseq], where it named the block that stays. *)
Lemma removal_follows_the_reverse_store :
  let id := "9e000000-0000-4000-8000-000000000000" in
  let a1 := "a1000000-0000-4000-8000-000000000000" in
  let made := "0a000000-0000-4000-8000-000000000000" in
  stores_agree property_only_world
  /\ global_of both_blocks_world a1 = demo_uuid 0
  /\ global_of both_blocks_world made = demo_uuid 0
  /\ local_of both_blocks_world (demo_uuid 0) = made
  /\ (let p := planned (plan id one_block both_blocks_world) in
      uuidsToDelete (plan_actual p) (plan_samepageToLogseq p) = [a1]
      /\ In (global_of both_blocks_world a1) (desired_set one_block))
  /\ (let after := snd (applyState id one_block both_blocks_world) in
      List.filter is_mutation (calls after)
      = [RemoveBlock a1; MoveBlock made (Some id)]
      /\ global_of after made = demo_uuid 0
      /\ local_of after (demo_uuid 0) = "").
Proof.
  cbn zeta. split.
  - intros l g. unfold global_of, local_of, property_only_world.
    cbn [logseq_to_samepage samepage_to_logseq demo_uuid].
    split; intros [E Hne].
    + rewrite <- E in Hne |- *. clear E.
      destruct (decide (l = "a1000000-0000-4000-8000-000000000000"))
        as [->|N1]; [now vm_compute |].
      exfalso. apply Hne. now rewrite lookup_insert_ne by congruence.
    + rewrite <- E in Hne |- *. clear E.
      destruct (decide (g = "11111111-1111-4111-8111-111111111111"))
        as [->|N1]; [now vm_compute |].
      exfalso. apply Hne. now rewrite lookup_insert_ne by congruence.
  - repeat split; try (vm_compute; reflexivity).
    vm_compute. tauto.
Qed.

(** C8, amended. The blocks to delete are the local ids of the actual
    tree, flattened and content-filtered, that [samepage-to-logseq] gives
    for no identifier of the desired document's block set; when the two
    stores hold the same pairs, these are the local ids whose global
    identifier is not in that set. [applyState] runs one removal for each,
    in this order, right after the metadata operation: the host removes
    the block, and then the block's entry goes from [logseq-to-samepage]
    and the entry of the identifier it had there from
    [samepage-to-logseq]. When the host rejects a removal, [applyState]
    rejects there; otherwise it goes on with the insertions and the
    updates from the world the removals left. *)
Theorem uuidsToDelete_are_the_blocks_not_desired {H : Type} `{Editor H}
  (notebookPageId : string) (state : InputSchema) (w w0 : World H)
  (p : Plan) (tree : list BlockEntity) :
  plan notebookPageId state w = (Resolved p, w0) ->
  tree_read notebookPageId (host w) tree ->
  let toDelete := uuidsToDelete (plan_actual p) (plan_samepageToLogseq p) in
  (forall k,
      In k toDelete
      <-> In k (actual_ids tree)
          /\ ~ (k <> ""
                /\ exists g, In g (desired_set state) /\ local_of w g = k))
  /\ (stores_agree w ->
      forall k,
        In k toDelete
        <-> In k (actual_ids tree) /\ ~ In (global_of w k) (desired_set state))
  /\ forall w1,
       initialPromise notebookPageId (metadata_seen (read_annotations state)) w0
       = (Resolved tt, w1) ->
       exists done todo w2,
         toDelete = done ++ todo
         /\ removed done w1 w2
         /\ match todo with
          | [] =>
              applyState notebookPageId state w
              = run_ops notebookPageId (plan_expected p) (plan_actual p)
                  (map (fun e => Insert (fst e))
                     (uuidsToCreate (plan_actual p) (plan_samepageToLogseq p))
                   ++ map (fun e => UpdateOrMove (fst e) (snd e))
                        (uuidsToUpdate (plan_actual p)
                           (plan_samepageToLogseq p)))
                  (plan_samepageToLogseq p) w2
          | uuid :: _ =>
              exists m h,
                perform (RemoveBlock uuid) (host w2) = (Rejected m, h)
                /\ applyState notebookPageId state w
                   = (Rejected
                        ("Failed to remove block " +:+ uuid +:+ ": " +:+ m),
                      mkWorld h (calls w2 ++ [RemoveBlock uuid])
                        (logseq_to_samepage w2) (samepage_to_logseq w2)
                        (drawn w2))
          end.
Proof.
  intros Hplan Htree.
  assert (Hrun :
    applyState notebookPageId state w
    = run_ops notebookPageId (plan_expected p) (plan_actual p) (plan_ops p)
        (plan_samepageToLogseq p) w0).
  { unfold applyState. now erewrite bind_resolved by exact Hplan. }
  apply plan_inv in Hplan as (_ & tree' & Htree' & ->).
  rewrite <- (tree_read_functional _ _ _ _ Htree Htree') in *. clear Htree'.
  cbn zeta in *. cbn [plan_actual plan_samepageToLogseq plan_ops plan_expected] in *.
  set (expected := expectedTreeMapping notebookPageId
                     (write_blocks (read_annotations state))) in *.
  set (actual := actualTreeMappingOf notebookPageId tree) in *.
  set (es2l := JsRecord.fromEntries
                 (map (fun k => (k, local_of w k)) (JsRecord.keys expected))) in *.
  assert (Hcode : forall k,
    In k (uuidsToDelete actual es2l)
    <-> In k (actual_ids tree)
        /\ ~ (k <> ""
              /\ exists g, In g (desired_set state) /\ local_of w g = k)).
  { intros k. unfold uuidsToDelete.
    rewrite filter_In. unfold actual. rewrite actualTreeMapping_keys.
    rewrite negb_true_iff. apply and_iff_compat_l.
    rewrite <- not_true_iff_false, in_existsb_eqb.
    unfold es2l. rewrite not_in_expectedUuids by apply nodup_keys_fromEntries.
    unfold expected. setoid_rewrite expectedTreeMapping_keys. reflexivity. }
  split; [exact Hcode | split].
  - intros Hagree k. rewrite Hcode. apply and_iff_compat_l.
    split; intros Hn Hin; apply Hn.
    + pose proof (desired_set_truthy _ _ Hin) as Hg.
      destruct (proj1 (Hagree k (global_of w k)) (conj eq_refl Hg)) as [Hl Hk].
      split; [exact Hk |]. now exists (global_of w k).
    + destruct Hin as [Hk (g & Hg & Hl)].
      destruct (proj2 (Hagree k g) (conj Hl Hk)) as [<- _]. exact Hg.
  - intros w1 Hinit.
    destruct (removals_run notebookPageId expected actual
                (uuidsToDelete actual es2l) es2l w1)
      as (done & todo & w2 & Hsplit & Hdone & Hrest).
    exists done, todo, w2. split; [exact Hsplit | split; [exact Hdone |]].
    assert (Hfirst :
      run_ops notebookPageId expected actual
        [Initial (metadata_seen (read_annotations state))] es2l w0
      = (Resolved es2l, w1)).
    { unfold run_ops. cbn [map chain run_op].
      erewrite bind_resolved; [reflexivity |].
      now erewrite bind_resolved by exact Hinit. }
    assert (Hsteps : forall rest,
      run_ops notebookPageId expected actual
        (([Initial (metadata_seen (read_annotations state))]
            ++ map Remove (uuidsToDelete actual es2l)) ++ rest) es2l w0
      = match run_ops notebookPageId expected actual
                (map Remove (uuidsToDelete actual es2l)) es2l w1 with
        | (Resolved s1, w') =>
            run_ops notebookPageId expected actual rest s1 w'
        | (Rejected e, w') => (Rejected e, w')
        end).
    { intros rest. unfold run_ops in *.
      rewrite <- app_assoc, map_app, chain_app, Hfirst.
      now rewrite map_app, chain_app. }
    rewrite Hrun. unfold promises. rewrite Hsteps.
    destruct todo as [|k todo].
    + now rewrite Hrest.
    + destruct Hrest as (m & h & Hk & Hrest). exists m, h.
      split; [exact Hk | now rewrite Hrest].
Qed.

Lemma uuidsToDelete_are_the_blocks_not_desired_witness :
  let id := "9e000000-0000-4000-8000-000000000000" in
  let a2 := "a2000000-0000-4000-8000-000000000000" in
  let pl := plan id first_and_third three_blocks_world in
  let run := applyState id first_and_third three_blocks_world in
  uuidsToDelete (plan_actual (planned pl)) (plan_samepageToLogseq (planned pl))
  = [a2]
  /\ List.filter is_mutation (calls (snd run))
     = [RemoveBlock a2;
        MoveBlock "a3000000-0000-4000-8000-000000000000" (Some id)]
  /\ global_of (snd run) a2 = ""
  /\ local_of (snd run) (demo_uuid 1) = ""
  /\ (In a2 (uuidsToDelete (plan_actual (planned pl))
               (plan_samepageToLogseq (planned pl)))
      <-> In a2 (actual_ids (nb_tree three_blocks))
          /\ ~ In (global_of three_blocks_world a2)
                 (desired_set first_and_third))
  /\ exists w1 w2,
       initialPromise id (metadata_seen (read_annotations first_and_third))
         (snd pl) = (Resolved tt, w1)
       /\ removed [a2] w1 w2
       /\ run
          = run_ops id (plan_expected (planned pl)) (plan_actual (planned pl))
              (map (fun e => Insert (fst e))
                 (uuidsToCreate (plan_actual (planned pl))
                    (plan_samepageToLogseq (planned pl)))
               ++ map (fun e => UpdateOrMove (fst e) (snd e))
                    (uuidsToUpdate (plan_actual (planned pl))
                       (plan_samepageToLogseq (planned pl))))
              (plan_samepageToLogseq (planned pl)) w2.
Proof.
  cbn zeta.
  assert (Hdel :
    uuidsToDelete
      (plan_actual
         (planned (plan "9e000000-0000-4000-8000-000000000000"
                     first_and_third three_blocks_world)))
      (plan_samepageToLogseq
         (planned (plan "9e000000-0000-4000-8000-000000000000"
                     first_and_third three_blocks_world)))
    = ["a2000000-0000-4000-8000-000000000000"]) by (vm_compute; reflexivity).
  split; [exact Hdel |].
  split; [vm_compute; reflexivity |].
  split; [vm_compute; reflexivity |].
  split; [vm_compute; reflexivity |].
  assert (Hplan :
    plan "9e000000-0000-4000-8000-000000000000" first_and_third
      three_blocks_world
    = (Resolved
         (planned (plan "9e000000-0000-4000-8000-000000000000"
                     first_and_third three_blocks_world)),
       snd (plan "9e000000-0000-4000-8000-000000000000" first_and_third
              three_blocks_world))) by (vm_compute; reflexivity).
  assert (Htree :
    tree_read "9e000000-0000-4000-8000-000000000000"
      (host three_blocks_world) (nb_tree three_blocks))
    by (vm_compute; reflexivity).
  pose proof (uuidsToDelete_are_the_blocks_not_desired
                "9e000000-0000-4000-8000-000000000000" first_and_third
                three_blocks_world _ _ (nb_tree three_blocks) Hplan Htree)
    as (_ & Hworded & Hrun).
  split;
    [exact (Hworded three_blocks_stores_agree
              "a2000000-0000-4000-8000-000000000000") |].
  assert (Hinit :
    initialPromise "9e000000-0000-4000-8000-000000000000"
      (metadata_seen (read_annotations first_and_third))
      (snd (plan "9e000000-0000-4000-8000-000000000000" first_and_third
              three_blocks_world))
    = (Resolved tt,
       snd (initialPromise "9e000000-0000-4000-8000-000000000000"
              (metadata_seen (read_annotations first_and_third))
              (snd (plan "9e000000-0000-4000-8000-000000000000"
                      first_and_third three_blocks_world)))))
    by (vm_compute; reflexivity).
  destruct (Hrun _ Hinit) as (done & todo & w2 & Hsplit & Hremoved & Hrest).
  rewrite Hdel in Hsplit.
  destruct todo as [|uuid todo].
  - rewrite app_nil_r in Hsplit. subst done.
    eexists _, w2. split; [exact Hinit |]. split; [exact Hremoved |].
    exact Hrest.
  - exfalso. destruct Hrest as (m & h & _ & Hrejected).
    assert (Hresolved :
      exists s,
        fst (applyState "9e000000-0000-4000-8000-000000000000"
               first_and_third three_blocks_world) = Resolved s)
      by (eexists; vm_compute; reflexivity).
    destruct Hresolved as (s & Hs). rewrite Hrejected in Hs. discriminate.
Defined.

(** ** Failures *)

Section FailureFacts.
Context {H : Type} `{Editor H}.

Lemma bind_rejected_inv {A B} (m : Promise H A) (k : A -> Promise H B)
  (w w' : World H) (e : string) :
  (m ≫= k) w = (Rejected e, w') ->
  m w = (Rejected e, w')
  \/ exists a w1, m w = (Resolved a, w1) /\ k a w1 = (Rejected e, w').
Proof.
  unfold mbind, promise_bind, and_then.
  destruct (m w) as [[a|e'] w1]; intros Hk; [right; eauto | left].
  now injection Hk as -> ->.
Qed.

Lemma catch_rejected_inv {A} (p : Promise H A) (f : string -> string)
  (w w' : World H) (e : string) :
  catch p (fun message => reject (f message)) w = (Rejected e, w') ->
  exists message, e = f message.
Proof.
  unfold catch, reject. destruct (p w) as [[a|m] w1]; intros [= <- <-].
  now exists m.
Qed.

Lemma insertOp_failure (notebookPageId : string)
  (expected : JsRecord.t (Flat InputTextNode.t)) (samepageUuid : string)
  (s : JsRecord.t string) (w w' : World H) (e : string) :
  JsRecord.has samepageUuid expected = true ->
  insertOp notebookPageId expected samepageUuid s w = (Rejected e, w') ->
  exists detail,
    e = "Failed to insert block " +:+ samepageUuid +:+ ": " +:+ detail.
Proof.
  unfold JsRecord.has, insertOp.
  destruct (JsRecord.get samepageUuid expected); [| discriminate].
  intros _. apply catch_rejected_inv.
Qed.

End FailureFacts.

Lemma planned_ops_have_entries {H : Type} `{Editor H}
  (notebookPageId : string) (state : InputSchema) (w w' : World H) (p : Plan)
  (o : Op) :
  plan notebookPageId state w = (Resolved p, w') ->
  In o (plan_ops p) ->
  match o with
  | Insert g => JsRecord.has g (plan_expected p) = true
  | UpdateOrMove g l =>
      JsRecord.has g (plan_expected p) = true
      /\ JsRecord.has l (plan_actual p) = true
  | _ => True
  end.
Proof.
  intros Hplan Hin. apply plan_inv in Hplan as (_ & tree & _ & ->).
  cbn zeta in Hin. cbn [plan_ops plan_expected plan_actual] in *.
  set (expected :=
         expectedTreeMapping notebookPageId
           (write_blocks (read_annotations state))) in *.
  set (pairs := map (fun k => (k, local_of w k)) (JsRecord.keys expected)) in *.
  assert (Hkeys : forall g l, In (g, l) (JsRecord.fromEntries pairs) ->
                              JsRecord.has g expected = true).
  { intros g l Hgl. apply has_in_keys.
    assert (Hk : In g (JsRecord.keys (JsRecord.fromEntries pairs))).
    { unfold JsRecord.keys. apply in_map_iff. now exists (g, l). }
    apply (proj1 (in_keys_fromEntries _ _)) in Hk. unfold pairs in Hk.
    rewrite map_map in Hk. cbn [fst] in Hk. now rewrite map_id in Hk. }
  unfold promises in Hin. rewrite !in_app_iff, !in_map_iff in Hin.
  destruct o as [meta | uuid | g | g l]; try exact I.
  - destruct Hin as [[[E | []] | (k & E & _)] | [(e & E & He) | (e & E & _)]];
      try discriminate.
    injection E as <-. unfold uuidsToCreate in He.
    apply filter_In in He as [He _]. destruct e as [g l]. now apply (Hkeys g l).
  - destruct Hin as [[[E | []] | (k & E & _)] | [(e & E & _) | (e & E & He)]];
      try discriminate.
    injection E as <- <-. unfold uuidsToUpdate in He.
    apply filter_In in He as [He Hl]. destruct e as [g l]. split.
    + now apply (Hkeys g l).
    + exact Hl.
Qed.

Section Rejections.
Context {H : Type} `{Editor H}.

Lemma fails_ret {A} (P : string -> Prop) (a : A) :
  fails_with P (mret a : Promise H A).
Proof. intros w e w1 [=]. Qed.

Lemma fails_reject {A} (P : string -> Prop) (e : string) :
  P e -> fails_with P (reject e : Promise H A).
Proof. intros He w e' w1 [= <- <-]. now left. Qed.

Lemma fails_call (P : string -> Prop) (c : HostCall) :
  fails_with P (call c).
Proof.
  intros w e w1 Hrun. apply call_inv in Hrun as (h & Hp & ->).
  right. exists (calls w), c, (host w). split; [reflexivity | exact Hp].
Qed.

Lemma fails_bind {A B} (P : string -> Prop) (m : Promise H A)
  (k : A -> Promise H B) :
  fails_with P m -> (forall a, fails_with P (k a)) -> fails_with P (m ≫= k).
Proof.
  intros Hm Hk w e w1 Hrun.
  apply bind_rejected_inv in Hrun as [Hrun | (a & w0 & _ & Hrun)].
  - exact (Hm _ _ _ Hrun).
  - exact (Hk a _ _ _ Hrun).
Qed.

Ltac failed_call :=
  match goal with
  | |- fails_with _ (call ?c) => apply (fails_call _ c)
  end.

Lemma catch_rejected_with {A} (p : Promise H A) (f : string -> string)
  (w w' : World H) (e : string) :
  catch p (fun message => reject (f message)) w = (Rejected e, w') ->
  exists message, e = f message /\ p w = (Rejected message, w').
Proof.
  unfold catch, reject. destruct (p w) as [[a|m] w1]; intros [= <- <-].
  now exists m.
Qed.

Lemma initialPromise_says (notebookPageId : string)
  (meta : option (string * string)) (w w' : World H) (e : string) :
  initialPromise notebookPageId meta w = (Rejected e, w') ->
  failure_says notebookPageId (Initial meta) w' e.
Proof.
  destruct meta as [[title parent]|]; [| discriminate].
  cbn [initialPromise failure_says]. intros Hrun.
  apply catch_rejected_with in Hrun as (detail & -> & Hrun).
  exists detail. split; [reflexivity |].
  revert w detail w' Hrun.
  change (fails_with (H := H)
            (fun detail => detail = "Missing page with id: " +:+ notebookPageId)
            (existing ←
               (if Js.truthy parent then
                  blk ← call (GetBlock (ByUuid notebookPageId) false);
                  mret ((fun b => Some (BlockEntity.content (fields b))) <$> blk)
                else
                  pg ← call (GetPageByPropertyId notebookPageId);
                  mret (page_title <$> pg));
             match existing with
             | Some existingTitle =>
                 rename_or_retitle notebookPageId title parent existingTitle
             | None => reject ("Missing page with id: " +:+ notebookPageId)
             end)).
  apply fails_bind.
  - destruct (Js.truthy parent); apply fails_bind;
      try (intros a; apply fails_ret); failed_call.
  - intros [existing|]; [| now apply fails_reject].
    unfold rename_or_retitle.
    destruct (bool_decide (existing = Some title)); [apply fails_ret |].
    destruct (Js.truthy parent).
    + apply fails_bind; [failed_call |].
      intros [b|]; [failed_call | apply fails_ret].
    + apply fails_bind; [failed_call |].
      intros tree. apply fails_bind; [| intros _; failed_call].
      destruct tree as [t|]; [| apply fails_ret].
      destruct (List.find (claims_other_page notebookPageId) t) as [b|];
        [failed_call | apply fails_ret].
Qed.

Lemma removeOp_says (notebookPageId uuid : string) (w w' : World H)
  (e : string) :
  removeOp uuid w = (Rejected e, w') ->
  failure_says notebookPageId (Remove uuid) w' e.
Proof.
  unfold removeOp. cbn [failure_says]. intros Hrun.
  apply catch_rejected_with in Hrun as (detail & -> & Hrun).
  exists detail. split; [reflexivity |].
  apply bind_rejected_inv in Hrun as [Hrun | (a & w0 & _ & Hrun)];
    [| discriminate].
  destruct (fails_call (fun _ => False) (RemoveBlock uuid) _ _ _ Hrun)
    as [[] | Hhost].
  exact Hhost.
Qed.

Lemma updateOp_says (notebookPageId : string)
  (expected : JsRecord.t (Flat InputTextNode.t))
  (actual : JsRecord.t (Flat BlockEntity.t)) (samepageUuid logseqUuid : string)
  (s : JsRecord.t string) (w w' : World H) (e : string) :
  JsRecord.has samepageUuid expected = true ->
  JsRecord.has logseqUuid actual = true ->
  updateOp notebookPageId expected actual samepageUuid logseqUuid s w
  = (Rejected e, w') ->
  failure_says notebookPageId (UpdateOrMove samepageUuid logseqUuid) w' e.
Proof.
  unfold JsRecord.has, updateOp. cbn [failure_says].
  destruct (JsRecord.get samepageUuid expected) as [n|]; [| discriminate].
  destruct (JsRecord.get logseqUuid actual) as [a|]; [| discriminate].
  intros _ _.
  destruct (negb _ || negb _)%bool.
  - intros Hc. apply catch_rejected_with in Hc as (m & -> & Hc).
    exists m. split; [now left |].
    destruct (fails_call (fun _ => False) (MoveBlock _ _) _ _ _ Hc)
      as [[] | Hhost].
    exact Hhost.
  - destruct (negb _); [| discriminate].
    intros Hc. apply catch_rejected_with in Hc as (m & -> & Hc).
    exists m. split; [now right |].
    destruct (fails_call (fun _ => False) (UpdateBlock _ _) _ _ _ Hc)
      as [[] | Hhost].
    exact Hhost.
Qed.

Lemma run_op_says (notebookPageId : string)
  (expected : JsRecord.t (Flat InputTextNode.t))
  (actual : JsRecord.t (Flat BlockEntity.t)) (o : Op)
  (s : JsRecord.t string) (w w' : World H) (e : string) :
  match o with
  | Insert g => JsRecord.has g expected = true
  | UpdateOrMove g l =>
      JsRecord.has g expected = true /\ JsRecord.has l actual = true
  | _ => True
  end ->
  run_op notebookPageId expected actual o s w = (Rejected e, w') ->
  failure_says notebookPageId o w' e.
Proof.
  destruct o as [meta | uuid | g | g l]; cbn [run_op]; intros Hwf Hrun.
  - apply bind_rejected_inv in Hrun as [Hrun | (a & w1 & _ & Hrun)];
      [| discriminate].
    now apply initialPromise_says in Hrun.
  - apply bind_rejected_inv in Hrun as [Hrun | (a & w1 & _ & Hrun)];
      [| discriminate].
    now apply (removeOp_says notebookPageId) in Hrun.
  - cbn [failure_says]. now apply insertOp_failure in Hrun.
  - destruct Hwf as [Hg Hl].
    apply bind_rejected_inv in Hrun as [Hrun | (a & w1 & _ & Hrun)];
      [| discriminate].
    now apply updateOp_says in Hrun.
Qed.

End Rejections.




(** ** Encoding and applying on an unchanged tree *)

(** Two parsers read the stripped content of block [f] alike. *)
Definition parsers_agree_on (p1 p2 : string -> InputSchema)
  (f : BlockEntity.t) : Prop :=
  p1 (preContent (BlockEntity.uuid f) (BlockEntity.content f))
  = p2 (preContent (BlockEntity.uuid f) (BlockEntity.content f)).

Section ParserExtensionality.
Context {H : Type} `{Editor H}.
Context (p1 p2 : string -> InputSchema) (v4 : nat -> string).

Lemma bind_ext_at {A B} (m : Promise H A) (k1 k2 : A -> Promise H B)
  (w : World H) :
  (forall a w1, m w = (Resolved a, w1) -> k1 a w1 = k2 a w1) ->
  (m ≫= k1) w = (m ≫= k2) w.
Proof.
  intros Hk. unfold mbind, promise_bind, and_then.
  destruct (m w) as [[a|e] w1]; [now apply Hk | reflexivity].
Qed.

Lemma reduce_nodes_ext (each1 each2 : BlockEntity -> Z -> Promise H InputSchema)
  (startIndex : Z) (nodes : list BlockEntity) :
  Forall (fun n => forall index w, each1 n index w = each2 n index w) nodes ->
  forall p w,
    reduce_nodes each1 startIndex nodes p w
    = reduce_nodes each2 startIndex nodes p w.
Proof.
  induction 1 as [|n rest Hn _ IH]; intros p w; [reflexivity |].
  cbn [reduce_nodes]. unfold mbind, promise_bind, and_then.
  rewrite Hn. destruct (each2 n _ w) as [[c|e] w1]; [apply IH | reflexivity].
Qed.

(** [toAtJson] asks the parser about the stripped contents of the blocks
    and nothing else. *)
Lemma toAtJson_node_ext (n : BlockEntity) :
  Forall (parsers_agree_on p1 p2) (tree_nodes n) ->
  forall level viewType index (w : World H),
    toAtJson_node p1 v4 level viewType n index w
    = toAtJson_node p2 v4 level viewType n index w.
Proof.
  induction n as [f ch IH] using Tree_induction.
  cbn [tree_nodes]. intros Hagree level viewType index w.
  apply List.Forall_cons_iff in Hagree as [Hf Hch].
  assert (Hall : Forall (fun c => forall index (w : World H),
                           toAtJson_node p1 v4 (level + 1)
                             (default viewType (BlockEntity.viewType f)) c index w
                           = toAtJson_node p2 v4 (level + 1)
                               (default viewType (BlockEntity.viewType f)) c
                               index w) ch).
  { rewrite List.Forall_forall in IH, Hch |- *. intros c Hc i w0.
    apply IH; [exact Hc |]. apply List.Forall_forall. intros g Hg.
    apply Hch. apply in_concat. exists (tree_nodes c). split; [| exact Hg].
    apply in_map_iff. now exists c. }
  cbn [toAtJson_node]. apply bind_ext_at. intros identifier w1 _.
  unfold parsers_agree_on in Hf. rewrite Hf.
  unfold mbind, promise_bind, and_then.
  now rewrite (reduce_nodes_ext _ _ _ ch Hall).
Qed.

Lemma toAtJson_ext (nodes : list BlockEntity) :
  Forall (parsers_agree_on p1 p2) (forest_nodes nodes) ->
  forall level startIndex viewType (w : World H),
    toAtJson p1 v4 nodes level startIndex viewType w
    = toAtJson p2 v4 nodes level startIndex viewType w.
Proof.
  intros Hagree level startIndex viewType w. unfold toAtJson.
  apply reduce_nodes_ext. rewrite List.Forall_forall in Hagree |- *.
  intros n Hn index w0. apply toAtJson_node_ext. apply List.Forall_forall.
  intros g Hg. apply Hagree. apply in_concat. exists (tree_nodes n).
  split; [| exact Hg]. apply in_map_iff. now exists n.
Qed.

Lemma calculateState_ext (notebookPageId : string) (w : World H) :
  (forall nodes, nodes_read notebookPageId (host w) nodes ->
                 Forall (parsers_agree_on p1 p2) (forest_nodes nodes)) ->
  calculateState p1 v4 notebookPageId w = calculateState p2 v4 notebookPageId w.
Proof.
  intros Hagree. unfold calculateState.
  apply bind_ext_at. intros page w1 Hpage.
  apply bind_ext_at. intros tree w2 Htree.
  apply bind_ext_at. intros nodes w3 Hnodes.
  assert (Hread : nodes_read notebookPageId (host w) nodes).
  { unfold nodes_read.
    apply (call_inv (GetPageByPropertyId notebookPageId)) in Hpage
        as (h & -> & ->).
    destruct page as [p|].
    - apply (call_inv (GetPageBlocksTree (PageEntity.originalName p))) in Htree
          as (h0 & Hp & ->).
      cbn [host] in Hp. rewrite Hp. destruct tree as [t|]; [| discriminate].
      now injection Hnodes as <- _.
    - injection Htree as <- _. now injection Hnodes as <- _. }
  apply bind_ext_at. intros b w4 _.
  apply bind_ext_at. intros parent w5 _.
  apply bind_ext_at. intros parentUuid w6 _.
  apply bind_ext_at. intros title w7 _.
  unfold mbind, promise_bind, and_then.
  now rewrite (toAtJson_ext nodes (Hagree nodes Hread)).
Qed.

End ParserExtensionality.

(** C2 fails on a block that carries its [id::] property. The encoder
    takes the property line out, the reconciler compares what is left with
    the raw content of the block, finds them different and updates the
    block: for every parser that reads ["hello"] as plain text, the round
    trip on the unchanged notebook rewrites the block. *)
Theorem round_trip_updates_stamped_block
  (atJsonParser : string -> InputSchema) (v4 : nat -> string) :
  atJsonParser "hello" = mkSchema "hello" [] ->
  let r :=
    round_trip atJsonParser v4 "9e000000-0000-4000-8000-000000000000"
      stamped_world in
  fst r
  = Resolved [(demo_uuid 0, "a1000000-0000-4000-8000-000000000000")]
  /\ List.filter is_mutation (calls (snd r))
     = [UpdateBlock "a1000000-0000-4000-8000-000000000000" "hello"].
Proof.
  intros Hparser r. subst r.
  assert (Hdoc :
    calculateState atJsonParser v4 "9e000000-0000-4000-8000-000000000000"
      stamped_world
    = calculateState star_parser v4 "9e000000-0000-4000-8000-000000000000"
        stamped_world).
  { apply calculateState_ext. intros nodes Hread.
    assert (Hnodes : nodes = nb_tree stamped_block).
    { apply (nodes_read_functional _ _ _ _ Hread). vm_compute. reflexivity. }
    rewrite Hnodes. repeat constructor. unfold parsers_agree_on.
    replace (preContent _ _) with "hello" by (vm_compute; reflexivity).
    rewrite Hparser. reflexivity. }
  unfold round_trip, mbind, promise_bind, and_then. rewrite Hdoc.
  split; vm_compute; reflexivity.
Qed.

Lemma round_trip_updates_stamped_block_witness :
  List.filter is_mutation
    (calls
       (snd (round_trip star_parser demo_uuid
               "9e000000-0000-4000-8000-000000000000" stamped_world)))
  = [UpdateBlock "a1000000-0000-4000-8000-000000000000" "hello"].
Proof.
  exact (proj2 (round_trip_updates_stamped_block star_parser demo_uuid eq_refl)).
Defined.

(** * Part III: further properties *)

(** ** Substrings *)

Lemma substring_nil (n m : nat) : String.substring n m "" = "".
Proof. now destruct n, m. Qed.

Lemma substring_cat (s : string) :
  forall n m1 m2,
    String.substring n (m1 + m2) s
    = String.substring n m1 s +:+ String.substring (n + m1) m2 s.
Proof.
  induction s as [|c s IH]; intros n m1 m2.
  - now rewrite !substring_nil.
  - destruct n as [|n].
    + destruct m1 as [|m1].
      * cbn [Nat.add]. destruct m2; reflexivity.
      * cbn [Nat.add String.substring]. rewrite append_cons. f_equal.
        apply (IH 0%nat).
    + cbn [Nat.add String.substring]. apply IH.
Qed.

Lemma substring_whole (s : string) :
  forall m, (String.length s <= m)%nat -> String.substring 0 m s = s.
Proof.
  induction s as [|c s IH]; intros m Hm; [now destruct m |].
  destruct m as [|m]; [cbn in Hm; lia |].
  cbn [String.substring]. f_equal. apply IH. cbn in Hm. lia.
Qed.

Lemma length_substring (s : string) :
  forall n m, (n + m <= String.length s)%nat ->
    String.length (String.substring n m s) = m.
Proof.
  induction s as [|c s IH]; intros n m Hm.
  - cbn in Hm. assert (n = O /\ m = O) as [-> ->] by lia. reflexivity.
  - destruct n as [|n].
    + destruct m as [|m]; [reflexivity |].
      cbn [String.substring String.length]. f_equal. apply IH. cbn in Hm. lia.
    + cbn [String.substring]. apply IH. cbn in Hm. lia.
Qed.

Lemma substring_three (s : string) (a b : nat) :
  (a <= b)%nat -> (b <= String.length s)%nat ->
  String.substring 0 a s +:+ String.substring a (b - a) s
    +:+ String.substring b (String.length s - b) s = s.
Proof.
  intros Ha Hb.
  transitivity
    (String.substring 0 (a + ((b - a) + (String.length s - b))) s).
  - rewrite substring_cat. cbn [Nat.add]. f_equal.
    rewrite substring_cat. f_equal. f_equal. lia.
  - apply substring_whole. lia.
Qed.

(** Three consecutive slices of a string make up the string, wherever the
    two cuts fall. *)
Lemma slice_three (p : string) (s e : Z) :
  0 <= s -> s <= e ->
  Js.slice p 0 s +:+ Js.slice p s e +:+ Js.slice_from p e = p.
Proof.
  intros Hs He. unfold Js.slice_from, Js.slice, Js.slice_index.
  pose proof (len_nonneg p) as Hn.
  replace (0 <? 0) with false by reflexivity.
  replace (s <? 0) with false by (symmetry; apply Z.ltb_ge; lia).
  replace (e <? 0) with false by (symmetry; apply Z.ltb_ge; lia).
  replace (Js.len p <? 0) with false by (symmetry; apply Z.ltb_ge; lia).
  rewrite (Z.min_l 0) by lia. rewrite (Z.min_id (Js.len p)).
  set (a := Z.min s (Js.len p)). set (b := Z.min e (Js.len p)).
  assert (Ha : 0 <= a <= b) by (unfold a, b; lia).
  assert (Hb : b <= Js.len p) by (unfold b; lia).
  replace (Z.to_nat 0) with O by reflexivity.
  rewrite Z.sub_0_r. unfold Js.len in *.
  replace (Z.to_nat (b - a)) with (Z.to_nat b - Z.to_nat a)%nat by lia.
  replace (Z.to_nat (Z.of_nat (String.length p) - b))
    with (String.length p - Z.to_nat b)%nat by lia.
  apply substring_three; lia.
Qed.

Lemma wrap_length (p : string) (c : Annotation) (ap : Serializer.Applied) :
  0 <= start c -> start c <= end_ c ->
  Js.len (Serializer.wrap p c ap)
  = Js.len p + Js.len (Serializer.prefix ap) + Js.len (Serializer.suffix ap).
Proof.
  intros Hs He. unfold Serializer.wrap.
  rewrite <- (slice_three p (start c) (end_ c) Hs He) at 4.
  rewrite !len_append. lia.
Qed.

Lemma appliedAnnotation_shift (c : Annotation) (ap : Serializer.Applied)
  (a : Annotation) :
  Serializer.appliedAnnotation (Serializer.shift c ap a)
  = Serializer.appliedAnnotation a.
Proof. reflexivity. Qed.

Lemma total_delimiters_shift (c : Annotation) (ap : Serializer.Applied)
  (l : list Annotation) :
  total_delimiters (map (Serializer.shift c ap) l) = total_delimiters l.
Proof.
  induction l as [|a l IH]; [reflexivity |].
  cbn [map total_delimiters fold_right]. unfold total_delimiters in IH.
  now rewrite IH.
Qed.

(** A later annotation that spans at least one character still does so
    once it has been moved past the delimiters of an earlier one. *)
Lemma shift_keeps_span (c : Annotation) (ap : Serializer.Applied)
  (a : Annotation) :
  0 <= start a -> start a < end_ a ->
  0 <= start (Serializer.shift c ap a)
  /\ start (Serializer.shift c ap a) < end_ (Serializer.shift c ap a).
Proof.
  intros Hs He. unfold Serializer.shift. cbn [start end_].
  pose proof (len_nonneg (Serializer.prefix ap)) as Hp.
  pose proof (len_nonneg (Serializer.suffix ap)) as Hq.
  rewrite !Z.geb_leb, Z.gtb_ltb.
  destruct (Z.leb_spec (start c) (start a)), (Z.leb_spec (end_ c) (start a)),
    (Z.leb_spec (start c) (end_ a)), (Z.ltb_spec (end_ c) (end_ a)); cbv iota; lia.
Qed.

Lemma reduce_length (n : nat) :
  forall (p : string) (all : list Annotation),
    List.length all = n ->
    Forall (fun a => 0 <= start a /\ start a < end_ a) all ->
    Js.len (Serializer.reduce n p all) = Js.len p + total_delimiters all.
Proof.
  induction n as [|n IH]; intros p all Hlen Hall.
  - destruct all; [cbn; lia | discriminate].
  - destruct all as [|c later]; [discriminate |].
    cbn [Serializer.reduce Serializer.step].
    inversion Hall as [|? ? [Hc1 Hc2] Hlater]; subst.
    rewrite IH.
    + rewrite wrap_length by lia. rewrite total_delimiters_shift.
      unfold total_delimiters. cbn [fold_right]. unfold delimiters. lia.
    + rewrite length_map. now injection Hlen.
    + apply Forall_map. eapply List.Forall_impl; [| exact Hlater].
      intros a [Ha1 Ha2]. now apply shift_keeps_span.
Qed.

(** X5. The serializer only adds: the text it returns is longer than the plain
    text by the delimiters of the annotations, when each annotation spans
    at least one character. *)
Theorem annotatedText_adds_the_delimiters (text : string)
  (anns : list Annotation) :
  Forall (fun a => 0 <= start a /\ start a < end_ a) anns ->
  Js.len (Serializer.annotatedText text anns)
  = Js.len text + total_delimiters anns.
Proof. intros Hall. now apply reduce_length. Qed.

Lemma annotatedText_adds_the_delimiters_witness :
  Js.len (Serializer.annotatedText "hello world"
            [mkAnnotation 0 5 bold; mkAnnotation 6 11 (link "https://x.y")])
  = Js.len "hello world"
    + total_delimiters
        [mkAnnotation 0 5 bold; mkAnnotation 6 11 (link "https://x.y")]
  /\ Serializer.annotatedText "hello world"
       [mkAnnotation 0 5 bold; mkAnnotation 6 11 (link "https://x.y")]
     = "**hello** [world](https://x.y)".
Proof.
  split; [| reflexivity].
  apply (annotatedText_adds_the_delimiters "hello world"
           [mkAnnotation 0 5 bold; mkAnnotation 6 11 (link "https://x.y")]).
  repeat constructor; cbn; lia.
Defined.

Lemma shift_nothing (c a : Annotation) :
  is_markup (type c) = false ->
  Serializer.shift c (Serializer.appliedAnnotation c) a = a.
Proof.
  intros Hc. unfold Serializer.shift, Serializer.appliedAnnotation.
  destruct a as [s e t]. destruct (type c); try discriminate;
    cbn [Serializer.prefix Serializer.suffix start end_ type];
    change (Js.len "") with 0;
    f_equal;
    repeat match goal with
           | |- context [if ?b then _ else _] => destruct b
           end; lia.
Qed.

Lemma wrap_nothing (p : string) (c : Annotation) :
  is_markup (type c) = false -> 0 <= start c -> start c <= end_ c ->
  Serializer.wrap p c (Serializer.appliedAnnotation c) = p.
Proof.
  intros Hc Hs He. unfold Serializer.wrap.
  assert (Hap : Serializer.appliedAnnotation c = Serializer.mkApplied "" "").
  { unfold Serializer.appliedAnnotation. now destruct (type c). }
  rewrite Hap. cbn [Serializer.prefix Serializer.suffix].
  rewrite !append_nil_l. now apply slice_three.
Qed.

(** X6. Annotations of a type the serializer has no delimiters for leave no
    trace: the plain text comes back as it is. *)
Theorem annotatedText_drops_unknown_types (text : string)
  (anns : list Annotation) :
  Forall (fun a => is_markup (type a) = false
                   /\ 0 <= start a /\ start a <= end_ a) anns ->
  Serializer.annotatedText text anns = text.
Proof.
  unfold Serializer.annotatedText. induction 1 as [|c later (Hc & Hs & He) Hl IH].
  - reflexivity.
  - cbn [List.length Serializer.reduce Serializer.step].
    rewrite wrap_nothing by assumption.
    rewrite (map_ext_in _ id), map_id; [exact IH |].
    intros a _. now apply shift_nothing.
Qed.

Lemma annotatedText_drops_unknown_types_witness :
  Serializer.annotatedText "see page two"
    [mkAnnotation 4 12 (inline "reference"); mkAnnotation 0 3 (inline "image")]
  = "see page two".
Proof.
  apply annotatedText_drops_unknown_types.
  repeat constructor; cbn; lia.
Defined.

(** ** Where [insertAtLevel] puts a block *)

Lemma deep_down {A} (d : nat) :
  forall T : list (Tree A), deep (S d) T -> deep d T.
Proof.
  induction d as [|d IH]; intros T HT; [exact I |].
  change (deep (S (S d)) T)
    with (match List.last (map Some T) None with
          | Some n => deep (S d) (children n)
          | None => False
          end) in HT.
  cbn [deep]. destruct (List.last (map Some T) None); [| contradiction].
  now apply IH.
Qed.

Lemma deep_le {A} (d d' : nat) (T : list (Tree A)) :
  (d' <= d)%nat -> deep d T -> deep d' T.
Proof.
  induction 1 as [|d Hle IH]; [trivial |].
  intros HT. apply IH. now apply deep_down.
Qed.

(** The last branch of a forest has a length. *)
Lemma last_branch_ends {A} (T : list (Tree A)) :
  exists m, deep m T /\ ~ deep (S m) T.
Proof.
  assert (Htree : forall t : Tree A,
             exists m, deep m (children t) /\ ~ deep (S m) (children t)).
  { induction t as [f ch IH] using Tree_induction. cbn [children].
    destruct (list_snoc_cases ch) as [-> | (ch' & c & ->)].
    - exists O. split; [exact I | intros []].
    - apply Forall_app in IH as [_ IH]. inversion IH as [|? ? (m & Hm & Hn) _]; subst.
      exists (S m). split.
      + cbn [deep]. now rewrite last_snoc.
      + change (~ match List.last (map Some (ch' ++ [c])) None with
                  | Some n => deep (S m) (children n)
                  | None => False
                  end).
        now rewrite last_snoc. }
  destruct (list_snoc_cases T) as [-> | (T' & n & ->)].
  - exists O. split; [exact I | intros []].
  - destruct (Htree n) as (m & Hm & Hn). exists (S m). split.
    + cbn [deep]. now rewrite last_snoc.
    + change (~ match List.last (map Some (T' ++ [n])) None with
                | Some n => deep (S m) (children n)
                | None => False
                end).
      now rewrite last_snoc.
Qed.

(** A level the last branch does not reach, or a negative one, puts the
    node at the end of the last branch. *)
Lemma insertAtLevel_past_the_branch {A} (cur : Tree A) (d : nat) :
  forall (T : list (Tree A)) (level : Z),
    deep d T -> ~ deep (S d) T -> level < 0 \/ Z.of_nat d < level ->
    insertAtLevel cur T level = graft d [cur] T.
Proof.
  induction d as [|d IH]; intros T level HT Hend Hlevel.
  - destruct (list_snoc_cases T) as [-> | (T' & n & ->)].
    + unfold insertAtLevel. cbn [is_nil]. now rewrite orb_true_r.
    + exfalso. apply Hend. cbn [deep]. now rewrite last_snoc.
  - cbn [deep] in HT. destruct (list_snoc_cases T) as [-> | (T' & n & ->)];
      [contradiction |].
    rewrite last_snoc in HT.
    change (~ match List.last (map Some (T' ++ [n])) None with
              | Some n => deep (S d) (children n)
              | None => False
              end) in Hend.
    rewrite last_snoc in Hend.
    unfold insertAtLevel. rewrite is_nil_snoc.
    replace (level =? 0) with false by (symmetry; apply Z.eqb_neq; lia).
    cbn [orb graft]. rewrite !on_last_snoc. f_equal. f_equal.
    rewrite insertBelow_unfold. f_equal.
    apply IH; [assumption | assumption | lia].
Qed.

(** X7. [insertAtLevel] always adds the block as the last child somewhere down
    the last branch of the tree: [level] steps down when the branch is that
    long, and at its end when it is shorter or the level is negative. *)
Theorem insertAtLevel_places_the_block {A} (currentBlock : Tree A)
  (nodes : list (Tree A)) (level : Z) :
  exists d : nat,
    deep d nodes
    /\ insertAtLevel currentBlock nodes level = graft d [currentBlock] nodes
    /\ (level = Z.of_nat d
        \/ (~ deep (S d) nodes /\ (level < 0 \/ Z.of_nat d < level))).
Proof.
  destruct (last_branch_ends nodes) as (m & Hm & Hn).
  destruct (Z.ltb_spec level 0) as [Hneg | Hpos].
  - exists m. split; [exact Hm | split].
    + apply insertAtLevel_past_the_branch; auto.
    + right. auto.
  - destruct (Z.leb_spec level (Z.of_nat m)) as [Hle | Hgt].
    + exists (Z.to_nat level).
      assert (Hd : deep (Z.to_nat level) nodes) by (apply (deep_le m); [lia | exact Hm]).
      split; [exact Hd | split].
      * rewrite <- (Z2Nat.id level) at 1 by lia. now apply insertAtLevel_graft.
      * left. lia.
    + exists m. split; [exact Hm | split].
      * apply insertAtLevel_past_the_branch; auto.
      * right. auto.
Qed.

(** ** The identifier stores *)

Section StoreFacts.
Context {H : Type}.

Lemma saveIdMap_world (l s : string) (w : World H) :
  saveIdMap l s w
  = (Resolved tt,
     mkWorld (host w) (calls w) (<[l := s]> (logseq_to_samepage w))
       (<[s := l]> (samepage_to_logseq w)) (drawn w)).
Proof. reflexivity. Qed.

Lemma removeLogseqUuid_world (l : string) (w : World H) :
  removeLogseqUuid l w
  = (Resolved tt,
     mkWorld (host w) (calls w) (delete l (logseq_to_samepage w))
       (delete (global_of w l) (samepage_to_logseq w)) (drawn w)).
Proof. reflexivity. Qed.

End StoreFacts.

(** X8. A pair that [saveIdMap] stored is found from either side, the other
    pairs are as they were, and [removeLogseqUuid] takes the pair out
    again: on ids the stores did not know, saving and then removing leaves
    the stores as they were. *)
Theorem saveIdMap_round_trip {H : Type} (logseq samepage : string)
  (w : World H) :
  let w1 := snd (saveIdMap logseq samepage w) in
  let w2 := snd (removeLogseqUuid logseq w1) in
  logseqToSamepage logseq w1 = (Resolved samepage, w1)
  /\ samepageToLogseq samepage w1 = (Resolved logseq, w1)
  /\ (forall l, l <> logseq -> global_of w1 l = global_of w l)
  /\ (forall s, s <> samepage -> local_of w1 s = local_of w s)
  /\ global_of w2 logseq = "" /\ local_of w2 samepage = ""
  /\ (logseq_to_samepage w !! logseq = None ->
      samepage_to_logseq w !! samepage = None ->
      logseq_to_samepage w2 = logseq_to_samepage w
      /\ samepage_to_logseq w2 = samepage_to_logseq w).
Proof.
  cbn zeta. rewrite saveIdMap_world. cbn [snd].
  rewrite removeLogseqUuid_world. cbn [snd].
  unfold logseqToSamepage, samepageToLogseq, global_of, local_of.
  cbn [logseq_to_samepage samepage_to_logseq host calls drawn].
  rewrite !lookup_insert_eq. cbn [default from_option id].
  repeat split.
  - intros l Hl. now rewrite lookup_insert_ne by congruence.
  - intros s Hs. now rewrite lookup_insert_ne by congruence.
  - now rewrite lookup_delete_eq.
  - now rewrite lookup_delete_eq.
  - now apply delete_insert_id.
  - now apply delete_insert_id.
Qed.

Lemma lookup_default_empty (m : gmap string string) (k v : string) :
  v <> "" -> default "" (m !! k) = v <-> m !! k = Some v.
Proof.
  intros Hv. destruct (m !! k) as [x|]; cbn; split; congruence.
Qed.

(** X9. The two stores keep holding the same pairs when [saveIdMap] adds a
    pair of ids neither store knew, which is how [toAtJson] calls it, and
    when [removeLogseqUuid] takes a block out. *)
Theorem stores_stay_in_agreement {H : Type} (w : World H) :
  stores_agree w ->
  (forall logseq samepage,
      logseq <> "" -> samepage <> "" ->
      global_of w logseq = "" -> local_of w samepage = "" ->
      stores_agree (snd (saveIdMap logseq samepage w)))
  /\ (forall logseq, stores_agree (snd (removeLogseqUuid logseq w))).
Proof.
  intros Hagree. split.
  - intros l0 s0 Hl0 Hs0 Hfresh_l Hfresh_s l g.
    rewrite saveIdMap_world. cbn [snd]. unfold global_of, local_of.
    cbn [logseq_to_samepage samepage_to_logseq].
    specialize (Hagree l g). unfold global_of, local_of in *.
    destruct (decide (l = l0)) as [-> | Hl];
      destruct (decide (g = s0)) as [-> | Hg].
    + rewrite !lookup_insert_eq. cbn. tauto.
    + rewrite lookup_insert_eq, lookup_insert_ne by congruence. cbn [default from_option id].
      split; [intros [E _]; congruence |].
      intros [E _]. apply proj2 in Hagree.
      destruct (Hagree (conj E Hl0)) as [E' Hne]. rewrite Hfresh_l in E'. congruence.
    + rewrite lookup_insert_ne, lookup_insert_eq by congruence. cbn [default from_option id].
      split; [| intros [E _]; congruence].
      intros [E _]. apply proj1 in Hagree.
      destruct (Hagree (conj E Hs0)) as [E' Hne]. rewrite Hfresh_s in E'. congruence.
    + now rewrite !lookup_insert_ne by congruence.
  - intros l0 l g. rewrite removeLogseqUuid_world. cbn [snd].
    unfold global_of, local_of.
    cbn [logseq_to_samepage samepage_to_logseq].
    pose proof (Hagree l g) as Hlg. pose proof (Hagree l0 g) as Hl0g.
    pose proof (Hagree l (default "" (logseq_to_samepage w !! l0))) as Hlg0.
    unfold global_of, local_of in *.
    destruct (decide (l = l0)) as [-> | Hl].
    + rewrite lookup_delete_eq. cbn [default from_option id].
      split; [intros [<- Hne]; congruence |].
      intros [E Hne].
      destruct (decide (g = default "" (logseq_to_samepage w !! l0))) as [-> | Hg].
      * rewrite lookup_delete_eq in E. cbn in E. congruence.
      * rewrite lookup_delete_ne in E by congruence.
        destruct (proj2 Hlg (conj E Hne)) as [E' _]. congruence.
    + rewrite lookup_delete_ne by congruence.
      destruct (decide (g = default "" (logseq_to_samepage w !! l0))) as [-> | Hg].
      * rewrite lookup_delete_eq. cbn [default from_option id].
        split; [| intros [<- Hne]; congruence].
        intros [E Hne]. destruct (proj1 Hlg0 (conj E Hne)) as [E' _].
        destruct (proj1 Hl0g (conj eq_refl Hne)) as [E'' _]. congruence.
      * now rewrite lookup_delete_ne by congruence.
Qed.

(** ** The encoder when the store has every identifier *)

Lemma Forall_forest {A} (P : A -> Prop) (ch : list (Tree A)) :
  Forall P (forest_nodes ch) <-> Forall (fun c => Forall P (tree_nodes c)) ch.
Proof.
  unfold forest_nodes. induction ch as [|c ch IH].
  - cbn. split; constructor.
  - cbn [map concat]. rewrite Forall_app, IH. split.
    + intros [Hc Hch]. now constructor.
    + intros Hall. inversion Hall; subst. now split.
Qed.

Lemma Forall_modus {A} (P Q : A -> Prop) (l : list A) :
  Forall (fun x => P x -> Q x) l -> Forall P l -> Forall Q l.
Proof.
  induction 1 as [|x l Hx _ IH]; intros HP; inversion HP; subst;
    constructor; auto.
Qed.

Section EncoderPure.
Context {H : Type} `{Editor H}.
Context (atJsonParser : string -> InputSchema).
Context (v4 : nat -> string).

Lemma identifier_of_stored (uuid : string) (w : World H) :
  Js.truthy (global_of w uuid) = true ->
  identifier_of v4 uuid w = (Resolved (global_of w uuid), w).
Proof.
  intros Ht. unfold identifier_of.
  erewrite bind_resolved by reflexivity.
  unfold global_of in Ht. now rewrite Ht.
Qed.

Lemma reduce_nodes_pure (each : BlockEntity -> Z -> Promise H InputSchema)
  (each' : BlockEntity -> Z -> InputSchema) (startIndex : Z)
  (nodes : list BlockEntity) (w : World H) :
  Forall (fun n => forall index,
            each n index w = (Resolved (each' n index), w)) nodes ->
  forall p,
    reduce_nodes each startIndex nodes p w
    = (Resolved (encode_nodes each' startIndex nodes p), w).
Proof.
  induction 1 as [|n rest Hn _ IH]; intros p; [reflexivity |].
  cbn [reduce_nodes encode_nodes].
  erewrite bind_resolved by apply Hn. apply IH.
Qed.

Lemma toAtJson_node_pure (w : World H) (n : BlockEntity) :
  populated w (tree_nodes n) ->
  forall level viewType index,
    toAtJson_node atJsonParser v4 level viewType n index w
    = (Resolved (encode_node atJsonParser (global_of w) level viewType n index),
       w).
Proof.
  unfold populated.
  induction n as [f ch IH] using Tree_induction.
  intros Hpop level viewType index. cbn [tree_nodes] in Hpop.
  apply Forall_cons in Hpop as [Hf Hch].
  apply (proj1 (Forall_forest _ ch)) in Hch.
  pose proof (Forall_modus _ _ _ IH Hch) as Hall.
  cbn [toAtJson_node encode_node].
  erewrite bind_resolved by (now apply identifier_of_stored).
  erewrite bind_resolved; [reflexivity |].
  apply reduce_nodes_pure.
  eapply List.Forall_impl; [| exact Hall]. intros c Hc i. apply Hc.
Qed.

Lemma toAtJson_pure (w : World H) (nodes : list BlockEntity)
  (level startIndex : Z) (viewType : ViewType) :
  populated w (forest_nodes nodes) ->
  toAtJson atJsonParser v4 nodes level startIndex viewType w
  = (Resolved (encode atJsonParser (global_of w) nodes level startIndex viewType),
     w).
Proof.
  intros Hpop. unfold toAtJson, encode. apply reduce_nodes_pure.
  apply (proj1 (Forall_forest _ nodes)) in Hpop.
  eapply List.Forall_impl; [| exact Hpop].
  intros n Hn i. now apply toAtJson_node_pure.
Qed.

End EncoderPure.

(** ** The layout of the encoded document *)

Section Layout.
Context (atJsonParser : string -> InputSchema).
Context (idof : string -> string).

Lemma plain_text_app (l1 l2 : list (Z * BlockEntity.t)) :
  plain_text atJsonParser (l1 ++ l2)
  = plain_text atJsonParser l1 +:+ plain_text atJsonParser l2.
Proof.
  induction l1 as [|[lvl f] l1 IH]; [reflexivity |].
  cbn [app plain_text]. now rewrite IH, append_assoc.
Qed.

Lemma segments_app (l1 l2 : list (Z * BlockEntity.t)) :
  forall index,
    segments atJsonParser idof index (l1 ++ l2)
    = segments atJsonParser idof index l1
        ++ segments atJsonParser idof
             (index + Js.len (plain_text atJsonParser l1)) l2.
Proof.
  induction l1 as [|[lvl f] l1 IH]; intros index.
  - cbn [app segments plain_text]. f_equal. change (Js.len "") with 0. lia.
  - cbn [app segments plain_text]. rewrite IH, <- !app_assoc. cbn [app].
    do 3 f_equal. f_equal. rewrite len_append. lia.
Qed.

Lemma encode_nodes_segments (each : BlockEntity -> Z -> InputSchema)
  (level startIndex : Z) (nodes : list BlockEntity) :
  Forall (fun n => forall index,
            map bulleted (annotations (each n index))
            = map bulleted (segments atJsonParser idof index (dfs level n))
            /\ content (each n index) = plain_text atJsonParser (dfs level n))
    nodes ->
  forall p,
    map bulleted (annotations (encode_nodes each startIndex nodes p))
    = map bulleted (annotations p)
        ++ map bulleted
             (segments atJsonParser idof (startIndex + Js.len (content p))
                (dfs_forest level nodes))
    /\ content (encode_nodes each startIndex nodes p)
       = content p +:+ plain_text atJsonParser (dfs_forest level nodes).
Proof.
  induction 1 as [|n rest Hn _ IH]; intros p.
  - cbn. now rewrite app_nil_r, append_nil_r.
  - cbn [encode_nodes]. destruct (IH (concat_schema p
                (each n (startIndex + Js.len (content p))))) as [IHa IHc].
    destruct (Hn (startIndex + Js.len (content p))) as [Hna Hnc].
    unfold dfs_forest in *. cbn [map concat]. split.
    + rewrite IHa. unfold concat_schema. cbn [annotations content].
      rewrite map_app, Hna, <- app_assoc. f_equal.
      rewrite segments_app, map_app. f_equal. f_equal. f_equal.
      rewrite len_append, Hnc. lia.
    + rewrite IHc. unfold concat_schema. cbn [content].
      now rewrite plain_text_app, Hnc, append_assoc.
Qed.

Lemma encode_node_segments (n : BlockEntity) :
  forall level viewType index,
    map bulleted
      (annotations (encode_node atJsonParser idof level viewType n index))
    = map bulleted (segments atJsonParser idof index (dfs level n))
    /\ content (encode_node atJsonParser idof level viewType n index)
       = plain_text atJsonParser (dfs level n).
Proof.
  induction n as [f ch IH] using Tree_induction.
  intros level viewType index.
  cbn [encode_node annotations content dfs segments plain_text].
  fold (parsed_of atJsonParser f).
  set (parsed := parsed_of atJsonParser f).
  set (end' := Js.len (content parsed) + index).
  destruct (encode_nodes_segments
              (encode_node atJsonParser idof (level + 1)
                 (default viewType (BlockEntity.viewType f)))
              (level + 1) end' ch) with (p := mkSchema "" []) as [Ha Hc].
  { eapply List.Forall_impl; [| exact IH]. intros c Hc i. apply Hc. }
  cbn [annotations content map app] in Ha, Hc.
  rewrite append_nil_l in Hc.
  change (Js.len "") with 0 in Ha. rewrite Z.add_0_r in Ha.
  fold (dfs_forest (level + 1) ch). split.
  - rewrite !map_app, Ha. cbn [map app]. reflexivity.
  - now rewrite Hc.
Qed.

Lemma encode_segments (nodes : list BlockEntity) (level startIndex : Z)
  (viewType : ViewType) :
  map bulleted
    (annotations (encode atJsonParser idof nodes level startIndex viewType))
  = map bulleted
      (segments atJsonParser idof startIndex (dfs_forest level nodes))
  /\ content (encode atJsonParser idof nodes level startIndex viewType)
     = plain_text atJsonParser (dfs_forest level nodes).
Proof.
  unfold encode.
  destruct (encode_nodes_segments
              (encode_node atJsonParser idof level viewType)
              level startIndex nodes) with (p := mkSchema "" []) as [Ha Hc].
  { apply Forall_forall. intros n _ index. apply encode_node_segments. }
  cbn [annotations content map app] in Ha, Hc.
  rewrite append_nil_l in Hc.
  change (Js.len "") with 0 in Ha. rewrite Z.add_0_r in Ha.
  now split.
Qed.

End Layout.

(** ** Slices of a text made of parts *)

Lemma substring_skip (pre s : string) (n m : nat) :
  String.substring (String.length pre + n) m (pre +:+ s)
  = String.substring n m s.
Proof.
  induction pre as [|c pre IH]; [reflexivity |].
  rewrite append_cons. cbn [String.length Nat.add String.substring]. exact IH.
Qed.

Lemma substring_head (mid post : string) :
  String.substring 0 (String.length mid) (mid +:+ post) = mid.
Proof.
  induction mid as [|c mid IH].
  - rewrite append_nil_l. now destruct post.
  - rewrite append_cons. cbn [String.length String.substring]. now rewrite IH.
Qed.

Lemma slice_middle (pre mid post : string) :
  Js.slice (pre +:+ mid +:+ post) (Js.len pre) (Js.len mid + Js.len pre) = mid.
Proof.
  unfold Js.slice, Js.slice_index. rewrite !len_append.
  pose proof (len_nonneg pre). pose proof (len_nonneg mid).
  pose proof (len_nonneg post).
  replace (Js.len pre <? 0) with false by (symmetry; apply Z.ltb_ge; lia).
  replace (Js.len mid + Js.len pre <? 0) with false
    by (symmetry; apply Z.ltb_ge; lia).
  rewrite !Z.min_l by lia.
  replace (Js.len mid + Js.len pre - Js.len pre) with (Js.len mid) by lia.
  unfold Js.len. rewrite !Nat2Z.id.
  rewrite <- (Nat.add_0_r (String.length pre)), substring_skip.
  apply substring_head.
Qed.

(** ** Reading the annotations of an encoded document *)

Lemma read_annotation_bulleted (text : string) (x : Expected) (a : Annotation) :
  read_annotation text x (bulleted a) = read_annotation text x a.
Proof. destruct a as [s e []]; reflexivity. Qed.

Lemma fold_read_bulleted (text : string) (l : list Annotation) :
  forall l' x,
    map bulleted l = map bulleted l' ->
    fold_left (read_annotation text) l x
    = fold_left (read_annotation text) l' x.
Proof.
  induction l as [|a l IH]; intros [|a' l'] x Hmap; try discriminate;
    [reflexivity |].
  cbn [map] in Hmap. injection Hmap as Ha Hl. cbn [fold_left].
  rewrite <- (read_annotation_bulleted text x a), Ha, read_annotation_bulleted.
  now apply IH.
Qed.

Lemma push_to_first_last (anno : Annotation) (k : string)
  (ca : ContentAnnotation.t) (r : JsRecord.t ContentAnnotation.t) :
  Forall (fun e => encloses (snd e) anno = false) r ->
  encloses ca anno = true ->
  push_to_first anno (r ++ [(k, ca)])
  = r ++ [(k, ContentAnnotation.push anno ca)].
Proof.
  intros Hr Hca. induction Hr as [|[k' c'] r Hc' _ IH].
  - cbn [app push_to_first]. now rewrite Hca.
  - cbn [app push_to_first]. cbn [snd] in Hc'. now rewrite Hc', IH.
Qed.

Lemma read_inline_run (text : string) (T : list InputTextNode)
  (M : JsRecord.t nat) (E0 : JsRecord.t ContentAnnotation.t)
  (meta : option (string * string)) (k : string) (index len : Z)
  (anns : list Annotation) :
  Forall (fun e => ContentAnnotation.end_ (snd e) <= index) E0 ->
  Forall (fun a => is_inline (type a) = true
                   /\ 0 <= start a /\ start a < end_ a /\ end_ a <= len) anns ->
  forall acc,
    fold_left (read_annotation text) (map (rebase index) anns)
      (mkExpected T M
         (E0 ++ [(k, ContentAnnotation.mk index (len + index) acc)]) meta)
    = mkExpected T M
        (E0 ++ [(k, ContentAnnotation.mk index (len + index)
                      (acc ++ map (rebase index) anns))]) meta.
Proof.
  intros HE0. induction 1 as [|a anns (Hin & Hs & Hse & He) _ IH]; intros acc.
  - cbn [map fold_left]. now rewrite app_nil_r.
  - cbn [map fold_left].
    assert (Hstep :
      read_annotation text
        (mkExpected T M
           (E0 ++ [(k, ContentAnnotation.mk index (len + index) acc)]) meta)
        (rebase index a)
      = mkExpected T M
          (E0 ++ [(k, ContentAnnotation.mk index (len + index)
                        (acc ++ [rebase index a]))]) meta).
    { assert (Hpush :
        push_to_first (rebase index a)
          (E0 ++ [(k, ContentAnnotation.mk index (len + index) acc)])
        = E0 ++ [(k, ContentAnnotation.mk index (len + index)
                       (acc ++ [rebase index a]))]).
      { apply push_to_first_last.
        - eapply List.Forall_impl; [| exact HE0]. intros [k' c'] Hc'.
          cbn [snd] in *. unfold encloses, rebase. cbn [start end_].
          apply andb_false_iff. right. apply Z.leb_gt. lia.
        - unfold encloses, rebase. cbn [start end_ ContentAnnotation.start
                                         ContentAnnotation.end_].
          apply andb_true_iff. split; apply Z.leb_le; lia. }
      unfold read_annotation. cbn [type rebase].
      destruct (type a); try discriminate;
        cbn [expectedTree mapping contentAnnotations metadata_seen];
        now rewrite Hpush. }
    rewrite Hstep, IH, <- app_assoc. reflexivity.
Qed.

Section ReadSegments.
Context (atJsonParser : string -> InputSchema).
Context (idof : string -> string).

Lemma read_segments (blocks : list (Z * BlockEntity.t)) :
  forall (text : string) (index : Z) (x : Expected) (pre post : string),
    text = pre +:+ plain_text atJsonParser blocks +:+ post ->
    Js.len pre = index ->
    Forall (fun e => spans_text atJsonParser (snd e)) blocks ->
    Forall (fun e => ContentAnnotation.end_ (snd e) <= index)
      (contentAnnotations x) ->
    ordinary_keys (map (fun e => idof (BlockEntity.uuid (snd e))) blocks) ->
    List.NoDup (JsRecord.keys (contentAnnotations x)
                  ++ map (fun e => idof (BlockEntity.uuid (snd e))) blocks) ->
    JsRecord.keys (mapping x) = JsRecord.keys (contentAnnotations x) ->
    fold_left (read_annotation text)
      (segments atJsonParser idof index blocks) x
    = mkExpected
        (rebuild
           (nodes_with (plain_of atJsonParser) idof
              (List.length (forest_nodes (expectedTree x))) blocks)
           (expectedTree x))
        (mapping x
           ++ addresses idof (List.length (forest_nodes (expectedTree x))) blocks)
        (contentAnnotations x ++ ranges_made atJsonParser idof index blocks)
        (metadata_seen x).
Proof.
  induction blocks as [|[lvl f] rest IH];
    intros text index x pre post Htext Hpre Hspans Hends Hplain Hnd Hkeys;
    subst text index.
  - cbn [segments fold_left nodes_with addresses ranges_made].
    unfold rebuild. cbn [fold_left]. rewrite !app_nil_r. now destruct x.
  - cbn [segments]. rewrite fold_left_app. cbn [fold_left].
    inversion Hspans as [|? ? Hf Hspans']; subst. cbn [snd] in Hf.
    cbn [map snd] in Hnd, Hplain.
    inversion Hplain as [|? ? [Hpf Hproto] Hplain']; subst.
    set (parsed := parsed_of atJsonParser f) in *.
    set (id := idof (BlockEntity.uuid f)) in *.
    set (a := List.length (forest_nodes (expectedTree x))).
    assert (Hfresh : ~ In id (JsRecord.keys (contentAnnotations x))).
    { intros Hin. apply List.NoDup_remove_2 in Hnd. apply Hnd.
      apply in_app_iff. now left. }
    assert (Hslice :
      Js.slice (pre +:+ plain_text atJsonParser ((lvl, f) :: rest) +:+ post)
        (Js.len pre) (Js.len (content parsed) + Js.len pre)
      = content parsed).
    { cbn [plain_text]. fold parsed. rewrite append_assoc. apply slice_middle. }
    assert (Hblock :
      read_annotation
        (pre +:+ plain_text atJsonParser ((lvl, f) :: rest) +:+ post) x
        (mkAnnotation (Js.len pre) (Js.len (content parsed) + Js.len pre)
           (block id lvl bullet))
      = mkExpected
          (insertAtLevel
             (Node (InputTextNode.mk a (content parsed) id bullet) [])
             (expectedTree x) lvl)
          (mapping x ++ [(id, a)])
          (contentAnnotations x
             ++ [(id, ContentAnnotation.mk (Js.len pre)
                        (Js.len (content parsed) + Js.len pre) [])])
          (metadata_seen x)).
    { unfold read_annotation. cbn [type start end_]. rewrite Hslice.
      rewrite !set_plain_fresh by (assumption || now rewrite Hkeys).
      reflexivity. }
    rewrite Hblock.
    rewrite (read_inline_run _ _ _ _ _ id (Js.len pre)
               (Js.len (content parsed)) (annotations parsed)
               Hends Hf []).
    cbn [app].
    pose proof (len_nonneg (content parsed)) as Hlen.
    erewrite (IH _ (Js.len (content parsed) + Js.len pre) _
                (pre +:+ content parsed) post).
    + cbn [expectedTree mapping contentAnnotations metadata_seen].
      rewrite forest_nodes_insertAtLevel_leaf, length_app.
      cbn [List.length]. fold a.
      replace (a + 1)%nat with (S a) by lia.
      cbn [nodes_with addresses ranges_made]. fold parsed. fold id.
      unfold plain_of at 2. fold parsed.
      rewrite <- !app_assoc. cbn [app]. reflexivity.
    + cbn [plain_text]. fold parsed. now rewrite !append_assoc.
    + rewrite len_append. lia.
    + exact Hspans'.
    + cbn [contentAnnotations]. apply Forall_app. split.
      * eapply List.Forall_impl; [| exact Hends]. intros e He.
        cbn beta in *. lia.
      * constructor; [cbn; lia | constructor].
    + exact Hplain'.
    + cbn [contentAnnotations]. unfold JsRecord.keys in *.
      rewrite map_app. cbn [map fst]. now rewrite <- app_assoc.
    + cbn [mapping contentAnnotations]. unfold JsRecord.keys in *.
      rewrite !map_app. cbn [map fst]. now rewrite Hkeys.
Qed.

End ReadSegments.

(** ** Writing the markup of the blocks read *)

Section Made.
Context (idof : string -> string).

Lemma nodes_with_app (text_of : BlockEntity.t -> string)
  (l1 l2 : list (Z * BlockEntity.t)) :
  forall a,
    nodes_with text_of idof a (l1 ++ l2)
    = nodes_with text_of idof a l1
        ++ nodes_with text_of idof (a + List.length l1) l2.
Proof.
  induction l1 as [|[lvl f] l1 IH]; intros a.
  - cbn [app nodes_with List.length]. now rewrite Nat.add_0_r.
  - cbn [app nodes_with List.length]. rewrite IH. do 3 f_equal. lia.
Qed.

Lemma addresses_app (l1 l2 : list (Z * BlockEntity.t)) :
  forall a,
    addresses idof a (l1 ++ l2)
    = addresses idof a l1 ++ addresses idof (a + List.length l1) l2.
Proof.
  induction l1 as [|[lvl f] l1 IH]; intros a.
  - cbn [app addresses List.length]. now rewrite Nat.add_0_r.
  - cbn [app addresses List.length]. rewrite IH. do 3 f_equal. lia.
Qed.

Lemma addresses_keys (l : list (Z * BlockEntity.t)) :
  forall a,
    JsRecord.keys (addresses idof a l)
    = map (fun e => idof (BlockEntity.uuid (snd e))) l.
Proof.
  unfold JsRecord.keys.
  induction l as [|[lvl f] l IH]; intros a; [reflexivity |].
  cbn [addresses map fst snd]. now rewrite IH.
Qed.

Lemma get_address (done todo : list (Z * BlockEntity.t)) (lvl : Z)
  (f : BlockEntity.t) :
  List.NoDup (map (fun e => idof (BlockEntity.uuid (snd e)))
                (done ++ (lvl, f) :: todo)) ->
  JsRecord.get (idof (BlockEntity.uuid f))
    (addresses idof 0 (done ++ (lvl, f) :: todo))
  = Some (List.length done).
Proof.
  intros Hnd. apply in_get_nodup.
  - now rewrite addresses_keys.
  - rewrite addresses_app. apply in_app_iff. right. now left.
Qed.

Lemma nodes_with_addr (text_of : BlockEntity.t -> string)
  (l : list (Z * BlockEntity.t)) :
  forall a,
    Forall (fun e => (a <= InputTextNode.addr (snd e)
                      < a + List.length l)%nat)
      (nodes_with text_of idof a l).
Proof.
  induction l as [|[lvl f] l IH]; intros a; [constructor |].
  cbn [nodes_with List.length]. constructor; [cbn; lia |].
  eapply List.Forall_impl; [| apply IH]. intros e He. cbn beta in *. lia.
Qed.

Lemma nodes_with_labelled (text_of : BlockEntity.t -> string)
  (l : list (Z * BlockEntity.t)) :
  forall a,
    map (fun e => (fst e, labelled (snd e))) (nodes_with text_of idof a l)
    = map (fun e => (fst e, (idof (BlockEntity.uuid (snd e)), text_of (snd e))))
        l.
Proof.
  induction l as [|[lvl f] l IH]; intros a; [reflexivity |].
  cbn [nodes_with map fst snd]. now rewrite IH.
Qed.

End Made.

Lemma find_after {A} (p : A -> bool) (l1 l2 : list A) (x : A) :
  Forall (fun y => p y = false) l1 -> p x = true ->
  List.find p (l1 ++ x :: l2) = Some x.
Proof.
  intros Hl1 Hx. induction Hl1 as [|y l1 Hy _ IH].
  - cbn. now rewrite Hx.
  - cbn [app List.find]. now rewrite Hy.
Qed.

Lemma map_unchanged {A} (g : A -> A) (l : list A) :
  Forall (fun x => g x = x) l -> map g l = l.
Proof.
  induction 1 as [|x l Hx _ IH]; [reflexivity |].
  cbn [map]. now rewrite Hx, IH.
Qed.

Lemma normalize_rebase (index : Z) (anns : list Annotation) :
  map (normalize index) (map (rebase index) anns) = anns.
Proof.
  rewrite map_map. rewrite <- (map_id anns) at 2. apply map_ext.
  intros [s e t]. unfold normalize, rebase. cbn [start end_ type].
  f_equal; lia.
Qed.

Section WriteSegments.
Context (atJsonParser : string -> InputSchema).
Context (idof : string -> string).
Context (blocks : list (Z * BlockEntity.t)).
Hypothesis distinct :
  List.NoDup (map (fun e => idof (BlockEntity.uuid (snd e))) blocks).

Lemma write_block_next (done todo : list (Z * BlockEntity.t)) (lvl : Z)
  (f : BlockEntity.t) (index : Z) :
  blocks = done ++ (lvl, f) :: todo ->
  write_block (addresses idof 0 blocks)
    (rebuild
       (nodes_with (serialized atJsonParser) idof 0 done
          ++ nodes_with (plain_of atJsonParser) idof (List.length done)
               ((lvl, f) :: todo)) [])
    (idof (BlockEntity.uuid f),
     ContentAnnotation.mk index
       (Js.len (content (parsed_of atJsonParser f)) + index)
       (map (rebase index) (annotations (parsed_of atJsonParser f))))
  = rebuild
      (nodes_with (serialized atJsonParser) idof 0 (done ++ [(lvl, f)])
         ++ nodes_with (plain_of atJsonParser) idof
              (List.length (done ++ [(lvl, f)])) todo) [].
Proof.
  intros Hblocks. unfold write_block.
  rewrite Hblocks at 1. rewrite get_address by (now rewrite <- Hblocks).
  set (k := List.length done).
  pose proof (nodes_with_addr idof (serialized atJsonParser) done 0) as Hdone.
  pose proof (nodes_with_addr idof (plain_of atJsonParser) todo (S k)) as Htodo.
  cbn [Nat.add] in Hdone. fold k in Hdone.
  assert (Hcontent :
    content_at k
      (rebuild
         (nodes_with (serialized atJsonParser) idof 0 done
            ++ nodes_with (plain_of atJsonParser) idof k ((lvl, f) :: todo)) [])
    = Some (plain_of atJsonParser f)).
  { unfold content_at. rewrite forest_nodes_rebuild.
    cbn [forest_nodes map concat app nodes_with].
    rewrite map_app. cbn [map snd].
    rewrite find_after with (x := InputTextNode.mk k (plain_of atJsonParser f)
                                    (idof (BlockEntity.uuid f)) bullet).
    - reflexivity.
    - apply Forall_map. eapply List.Forall_impl; [| exact Hdone].
      intros e He. cbn beta in *. unfold compose. apply Nat.eqb_neq. lia.
    - cbn. apply Nat.eqb_refl. }
  rewrite Hcontent. cbn [ContentAnnotation.start ContentAnnotation.annotations].
  rewrite normalize_rebase.
  unfold assign_content. rewrite tree_map_rebuild. cbn [map]. f_equal.
  rewrite (nodes_with_app idof _ done [(lvl, f)]), length_app.
  cbn [List.length nodes_with Nat.add]. fold k.
  replace (k + 1)%nat with (S k) by lia.
  rewrite !map_app. cbn [map fst snd]. rewrite <- app_assoc. cbn [app].
  f_equal; [| f_equal].
  - apply map_unchanged. eapply List.Forall_impl; [| exact Hdone].
    intros [l n] He. cbn [fst snd] in *.
    replace (Nat.eqb (InputTextNode.addr n) k) with false
      by (symmetry; apply Nat.eqb_neq; lia).
    reflexivity.
  - cbn [InputTextNode.addr]. rewrite Nat.eqb_refl. reflexivity.
  - apply map_unchanged. eapply List.Forall_impl; [| exact Htodo].
    intros [l n] He. cbn [fst snd] in *.
    replace (Nat.eqb (InputTextNode.addr n) k) with false
      by (symmetry; apply Nat.eqb_neq; lia).
    reflexivity.
Qed.

Lemma write_blocks_from (todo : list (Z * BlockEntity.t)) :
  forall (done : list (Z * BlockEntity.t)) (index : Z),
    blocks = done ++ todo ->
    fold_left (write_block (addresses idof 0 blocks))
      (ranges_made atJsonParser idof index todo)
      (rebuild
         (nodes_with (serialized atJsonParser) idof 0 done
            ++ nodes_with (plain_of atJsonParser) idof (List.length done) todo)
         [])
    = rebuild (nodes_with (serialized atJsonParser) idof 0 blocks) [].
Proof.
  induction todo as [|[lvl f] todo IH]; intros done index Hblocks.
  - cbn [ranges_made fold_left nodes_with]. rewrite !app_nil_r in *.
    now subst.
  - cbn [ranges_made fold_left].
    rewrite (write_block_next done todo lvl f index Hblocks).
    apply IH. now rewrite <- app_assoc.
Qed.

(** Once every annotation is read, each node is given the text the
    serializer makes of its plain text and its inline annotations. *)
Lemma write_blocks_made (index : Z) (meta : option (string * string)) :
  write_blocks
    (mkExpected (rebuild (nodes_with (plain_of atJsonParser) idof 0 blocks) [])
       (addresses idof 0 blocks)
       (ranges_made atJsonParser idof index blocks) meta)
  = rebuild (nodes_with (serialized atJsonParser) idof 0 blocks) [].
Proof.
  unfold write_blocks, JsRecord.entries.
  cbn [mapping contentAnnotations expectedTree].
  apply (write_blocks_from blocks [] index). reflexivity.
Qed.

End WriteSegments.

Lemma map_snd_dfs {A} (t : Tree A) :
  forall level, map snd (dfs level t) = tree_nodes t.
Proof.
  induction t as [f ch IH] using Tree_induction. intros level.
  cbn [dfs map snd tree_nodes]. f_equal.
  induction IH as [|c ch Hc _ IHch]; [reflexivity |].
  cbn [map concat]. now rewrite map_app, Hc, IHch.
Qed.

Lemma map_snd_dfs_forest {A} (F : list (Tree A)) (level : Z) :
  map snd (dfs_forest level F) = forest_nodes F.
Proof.
  unfold dfs_forest, forest_nodes. induction F as [|t F IH]; [reflexivity |].
  cbn [map concat]. now rewrite map_app, map_snd_dfs, IH.
Qed.

Lemma Forall_dfs_forest {A} (P : A -> Prop) (F : list (Tree A)) (level : Z) :
  Forall P (forest_nodes F) ->
  Forall (fun e => P (snd e)) (dfs_forest level F).
Proof.
  rewrite <- (map_snd_dfs_forest F level). intros HP.
  exact (proj1 (List.Forall_map _ _ _) HP).
Qed.

(** ** The identifiers the encoder stores *)

Lemma extends_refl {H} (w : World H) : extends w w.
Proof. now intros u _. Qed.

Lemma extends_trans {H} (w1 w2 w3 : World H) :
  extends w1 w2 -> extends w2 w3 -> extends w1 w3.
Proof.
  intros H12 H23 u Hu. rewrite <- (H12 u Hu). apply H23.
  now rewrite (H12 u Hu).
Qed.

Lemma populated_extends {H} (w w' : World H) (blocks : list BlockEntity.t) :
  extends w w' -> populated w blocks -> populated w' blocks.
Proof.
  intros Hext Hpop. unfold populated in *.
  eapply List.Forall_impl; [| exact Hpop].
  intros f Hf. cbn beta in *. now rewrite (Hext _ Hf).
Qed.

Lemma same_host_trans {H} (w1 w2 w3 : World H) :
  same_host w1 w2 -> same_host w2 w3 -> same_host w1 w3.
Proof. intros [A B] [C D]. split; congruence. Qed.

Section EncodeExt.
Context (atJsonParser : string -> InputSchema).

Lemma encode_nodes_ext (each each' : BlockEntity -> Z -> InputSchema)
  (startIndex : Z) (nodes : list BlockEntity) :
  Forall (fun n => forall index, each n index = each' n index) nodes ->
  forall p,
    encode_nodes each startIndex nodes p = encode_nodes each' startIndex nodes p.
Proof.
  induction 1 as [|n rest Hn _ IH]; intros p; [reflexivity |].
  cbn [encode_nodes]. now rewrite Hn, IH.
Qed.

Lemma encode_node_ext (idof idof' : string -> string) (n : BlockEntity) :
  Forall (fun f => idof (BlockEntity.uuid f) = idof' (BlockEntity.uuid f))
    (tree_nodes n) ->
  forall level viewType index,
    encode_node atJsonParser idof level viewType n index
    = encode_node atJsonParser idof' level viewType n index.
Proof.
  induction n as [f ch IH] using Tree_induction.
  intros Hall level viewType index. cbn [tree_nodes] in Hall.
  apply Forall_cons in Hall as [Hf Hch].
  apply (proj1 (Forall_forest _ ch)) in Hch.
  pose proof (Forall_modus _ _ _ IH Hch) as Hkids.
  cbn [encode_node]. rewrite Hf.
  rewrite (encode_nodes_ext _
             (encode_node atJsonParser idof' (level + 1)
                (default viewType (BlockEntity.viewType f)))); [reflexivity |].
  eapply List.Forall_impl; [| exact Hkids]. intros c Hc i. apply Hc.
Qed.

End EncodeExt.

Lemma agree_on_populated {H} (w w' : World H) (blocks : list BlockEntity.t) :
  extends w w' -> populated w blocks ->
  Forall (fun f => global_of w (BlockEntity.uuid f)
                   = global_of w' (BlockEntity.uuid f)) blocks.
Proof.
  intros Hext Hpop. eapply List.Forall_impl; [| exact Hpop].
  intros f Hf. cbn beta in *. now rewrite (Hext _ Hf).
Qed.

Section EncoderStores.
Context {H : Type} `{Editor H}.
Context (atJsonParser : string -> InputSchema).
Context (v4 : nat -> string).
Hypothesis v4_truthy : forall k, Js.truthy (v4 k) = true.

Lemma identifier_of_stores (uuid : string) (w : World H) :
  exists w',
    identifier_of v4 uuid w = (Resolved (global_of w' uuid), w')
    /\ same_host w w' /\ extends w w'
    /\ Js.truthy (global_of w' uuid) = true.
Proof.
  destruct (Js.truthy (global_of w uuid)) eqn:Ht.
  - exists w. split; [now apply identifier_of_stored |].
    split; [split; reflexivity |]. split; [apply extends_refl | exact Ht].
  - eexists. split; [| split; [| split]].
    + unfold identifier_of. erewrite bind_resolved by reflexivity.
      unfold global_of in Ht. rewrite Ht.
      erewrite bind_resolved by reflexivity.
      erewrite bind_resolved by reflexivity.
      unfold mret, promise_ret, resolve. f_equal. f_equal.
      unfold global_of. cbn [logseq_to_samepage host calls drawn saveIdMap].
      now rewrite lookup_insert_eq.
    + split; reflexivity.
    + intros u Hu. unfold global_of in *.
      cbn [logseq_to_samepage host calls drawn].
      rewrite lookup_insert_ne; [reflexivity |].
      intros ->. congruence.
    + unfold global_of. cbn [logseq_to_samepage host calls drawn].
      rewrite lookup_insert_eq. apply v4_truthy.
Qed.

Lemma reduce_nodes_stores
  (each : BlockEntity -> Z -> Promise H InputSchema)
  (each' : (string -> string) -> BlockEntity -> Z -> InputSchema)
  (startIndex : Z) (nodes : list BlockEntity) :
  Forall (fun n =>
            (forall index (w : World H), exists w',
                each n index w = (Resolved (each' (global_of w') n index), w')
                /\ same_host w w' /\ extends w w'
                /\ populated w' (tree_nodes n))
            /\ (forall idof idof' index,
                   Forall (fun f => idof (BlockEntity.uuid f)
                                    = idof' (BlockEntity.uuid f))
                     (tree_nodes n) ->
                   each' idof n index = each' idof' n index)) nodes ->
  forall p (w : World H), exists w',
    reduce_nodes each startIndex nodes p w
    = (Resolved (encode_nodes (each' (global_of w')) startIndex nodes p), w')
    /\ same_host w w' /\ extends w w'
    /\ populated w' (forest_nodes nodes).
Proof.
  induction 1 as [|n rest [Hn Hext] _ IH]; intros p w.
  - exists w. split; [reflexivity |].
    split; [split; reflexivity |]. split; [apply extends_refl | constructor].
  - destruct (Hn (startIndex + Js.len (content p)) w)
      as (w1 & Hrun1 & Hh1 & He1 & Hp1).
    destruct (IH (concat_schema p
                    (each' (global_of w1) n (startIndex + Js.len (content p))))
                w1) as (w2 & Hrun2 & Hh2 & He2 & Hp2).
    exists w2. split; [| split; [| split]].
    + cbn [reduce_nodes encode_nodes].
      erewrite bind_resolved by exact Hrun1. rewrite Hrun2.
      rewrite (Hext (global_of w2) (global_of w1)); [reflexivity |].
      eapply List.Forall_impl; [| exact (agree_on_populated _ _ _ He2 Hp1)].
      intros f Hf. cbn beta in *. congruence.
    + exact (same_host_trans _ _ _ Hh1 Hh2).
    + exact (extends_trans _ _ _ He1 He2).
    + unfold populated, forest_nodes in *. cbn [map concat].
      apply Forall_app. split; [| exact Hp2].
      exact (populated_extends _ _ _ He2 Hp1).
Qed.

Lemma toAtJson_node_stores (n : BlockEntity) :
  forall level viewType index (w : World H), exists w',
    toAtJson_node atJsonParser v4 level viewType n index w
    = (Resolved (encode_node atJsonParser (global_of w') level viewType n index),
       w')
    /\ same_host w w' /\ extends w w' /\ populated w' (tree_nodes n).
Proof.
  induction n as [f ch IH] using Tree_induction.
  intros level viewType index w.
  destruct (identifier_of_stores (BlockEntity.uuid f) w)
    as (w1 & Hid & Hh1 & He1 & Ht1).
  set (end' := Js.len (content (atJsonParser
                 (preContent (BlockEntity.uuid f) (BlockEntity.content f))))
               + index).
  destruct (reduce_nodes_stores
              (toAtJson_node atJsonParser v4 (level + 1)
                 (default viewType (BlockEntity.viewType f)))
              (fun idof => encode_node atJsonParser idof (level + 1)
                             (default viewType (BlockEntity.viewType f)))
              end' ch) with (p := mkSchema "" []) (w := w1)
    as (w2 & Hkids & Hh2 & He2 & Hp2).
  { eapply List.Forall_impl; [| exact IH]. intros c Hc. split.
    - intros i w0. apply Hc.
    - intros idof idof' i Hag. now apply encode_node_ext. }
  exists w2. split; [| split; [| split]].
  - cbn [toAtJson_node encode_node].
    erewrite bind_resolved by exact Hid. fold end'.
    erewrite bind_resolved by exact Hkids.
    now rewrite (He2 _ Ht1).
  - exact (same_host_trans _ _ _ Hh1 Hh2).
  - exact (extends_trans _ _ _ He1 He2).
  - unfold populated in *. cbn [tree_nodes]. constructor.
    + now rewrite (He2 _ Ht1).
    + exact Hp2.
Qed.

Lemma toAtJson_stores (nodes : list BlockEntity) (level startIndex : Z)
  (viewType : ViewType) (w : World H) :
  exists w',
    toAtJson atJsonParser v4 nodes level startIndex viewType w
    = (Resolved (encode atJsonParser (global_of w') nodes level startIndex
                   viewType), w')
    /\ same_host w w' /\ extends w w' /\ populated w' (forest_nodes nodes).
Proof.
  unfold toAtJson, encode.
  apply (reduce_nodes_stores _
           (fun idof => encode_node atJsonParser idof level viewType)).
  apply Forall_forall. intros n _. split.
  - intros i w0. apply toAtJson_node_stores.
  - intros idof idof' i Hag. now apply encode_node_ext.
Qed.

End EncoderStores.

(** ** What the block annotations of an encoded document say *)

Lemma block_identifiers_app (l1 l2 : list Annotation) :
  block_identifiers (l1 ++ l2) = block_identifiers l1 ++ block_identifiers l2.
Proof.
  induction l1 as [|a l1 IH]; [reflexivity |].
  cbn [app block_identifiers]. destruct (type a); cbn [app]; now rewrite IH.
Qed.

Lemma block_identifiers_bulleted (l : list Annotation) :
  block_identifiers (map bulleted l) = block_identifiers l.
Proof.
  induction l as [|[s e t] l IH]; [reflexivity |].
  cbn [map block_identifiers]. unfold bulleted at 1. cbn [type].
  destruct t; cbn [type]; now rewrite IH.
Qed.

Lemma block_identifiers_inline (index : Z) (l : list Annotation) :
  Forall (fun a => is_inline (type a) = true) l ->
  block_identifiers (map (rebase index) l) = [].
Proof.
  induction 1 as [|a l Ha _ IH]; [reflexivity |].
  cbn [map block_identifiers rebase type]. destruct (type a); try discriminate;
    exact IH.
Qed.

Lemma block_ranges_app (l1 l2 : list Annotation) :
  block_ranges (l1 ++ l2) = block_ranges l1 ++ block_ranges l2.
Proof.
  induction l1 as [|a l1 IH]; [reflexivity |].
  cbn [app block_ranges]. destruct (type a); cbn [app]; now rewrite IH.
Qed.

Lemma block_ranges_bulleted (l : list Annotation) :
  block_ranges (map bulleted l) = block_ranges l.
Proof.
  induction l as [|[s e t] l IH]; [reflexivity |].
  cbn [map block_ranges]. unfold bulleted at 1. cbn [type].
  destruct t; cbn [type start end_]; now rewrite IH.
Qed.

Lemma block_ranges_anonymous (l : list Annotation) :
  block_ranges (map anonymous l) = block_ranges l.
Proof.
  induction l as [|[s e t] l IH]; [reflexivity |].
  cbn [map block_ranges]. unfold anonymous at 1. cbn [type].
  destruct t; cbn [type start end_]; now rewrite IH.
Qed.

Lemma block_ranges_inline (index : Z) (l : list Annotation) :
  Forall (fun a => is_inline (type a) = true) l ->
  block_ranges (map (rebase index) l) = [].
Proof.
  induction 1 as [|a l Ha _ IH]; [reflexivity |].
  cbn [map block_ranges rebase type]. destruct (type a); try discriminate;
    exact IH.
Qed.

Section SegmentFacts.
Context (atJsonParser : string -> InputSchema).
Context (idof : string -> string).
Hypothesis parser_inline : inline_only atJsonParser.

Lemma block_identifiers_segments (blocks : list (Z * BlockEntity.t)) :
  forall index,
    block_identifiers (segments atJsonParser idof index blocks)
    = map (fun e => idof (BlockEntity.uuid (snd e))) blocks.
Proof.
  induction blocks as [|[lvl f] rest IH]; intros index; [reflexivity |].
  cbn [segments]. rewrite block_identifiers_app.
  cbn [block_identifiers type map snd].
  rewrite block_identifiers_inline by apply parser_inline.
  cbn [app]. now rewrite IH.
Qed.

Lemma block_ranges_segments (blocks : list (Z * BlockEntity.t)) :
  forall index,
    block_ranges (segments atJsonParser idof index blocks)
    = tiling atJsonParser index blocks.
Proof.
  induction blocks as [|[lvl f] rest IH]; intros index; [reflexivity |].
  cbn [segments tiling]. rewrite block_ranges_app.
  cbn [block_ranges type start end_].
  rewrite block_ranges_inline by apply parser_inline.
  cbn [app]. now rewrite IH.
Qed.

End SegmentFacts.

Lemma tiling_chained (atJsonParser : string -> InputSchema)
  (blocks : list (Z * BlockEntity.t)) :
  forall index,
    chained index (index + Js.len (plain_text atJsonParser blocks))
      (tiling atJsonParser index blocks).
Proof.
  induction blocks as [|[lvl f] rest IH]; intros index.
  - cbn [tiling plain_text chained]. change (Js.len "") with 0. lia.
  - cbn [tiling plain_text chained]. unfold plain_of.
    pose proof (len_nonneg (content (parsed_of atJsonParser f))).
    split; [reflexivity | split; [lia |]].
    rewrite len_append.
    replace (index + (Js.len (content (parsed_of atJsonParser f))
                      + Js.len (plain_text atJsonParser rest)))
      with (Js.len (content (parsed_of atJsonParser f)) + index
            + Js.len (plain_text atJsonParser rest)) by lia.
    apply IH.
Qed.

Lemma tiling_slices (atJsonParser : string -> InputSchema)
  (blocks : list (Z * BlockEntity.t)) :
  forall (pre post : string),
    map (fun r => Js.slice (pre +:+ plain_text atJsonParser blocks +:+ post)
                    (fst r) (snd r))
      (tiling atJsonParser (Js.len pre) blocks)
    = map (fun e => plain_of atJsonParser (snd e)) blocks.
Proof.
  induction blocks as [|[lvl f] rest IH]; intros pre post; [reflexivity |].
  cbn [tiling plain_text map fst snd]. f_equal.
  - unfold plain_of. rewrite append_assoc. apply slice_middle.
  - unfold plain_of.
    replace (Js.len (content (parsed_of atJsonParser f)) + Js.len pre)
      with (Js.len (pre +:+ content (parsed_of atJsonParser f)))
      by (rewrite len_append; lia).
    specialize (IH (pre +:+ content (parsed_of atJsonParser f)) post).
    rewrite !append_assoc in IH. rewrite !append_assoc. exact IH.
Qed.

(** X3. In the document [calculateState] resolves with, the metadata
    annotation spans the title, the block annotations follow one another
    without a gap from the end of the title to the end of the content, in
    depth-first order of the blocks, and each spans the plain text the
    parser read off its block. *)
Theorem calculateState_blocks_tile_the_content {H : Type} `{Editor H}
  (atJsonParser : string -> InputSchema) (v4 : nat -> string)
  (notebookPageId : string) (w w' : World H) (doc : InputSchema)
  (nodes : list BlockEntity) :
  inline_only atJsonParser ->
  calculateState atJsonParser v4 notebookPageId w = (Resolved doc, w') ->
  nodes_read notebookPageId (host w) nodes ->
  exists title parent rest,
    annotations doc
    = mkAnnotation 0 (Js.len title) (metadata title parent) :: rest
    /\ Js.slice (content doc) 0 (Js.len title) = title
    /\ chained (Js.len title) (Js.len (content doc)) (block_ranges rest)
    /\ map (fun r => Js.slice (content doc) (fst r) (snd r)) (block_ranges rest)
       = map (plain_of atJsonParser) (forest_nodes nodes).
Proof.
  intros Hinline Hrun Hread.
  apply calculateState_inv in Hrun
      as (title & parentUuid & nodes' & s & w1 & Hread' & Hs & ->).
  rewrite <- (nodes_read_functional _ _ _ _ Hread Hread') in Hs. clear Hread'.
  destruct (toAtJson_layout atJsonParser v4 (fun _ => "") nodes 0
              (Js.len title) bullet w1) as (s' & w2 & Hs' & _ & [Hc Ha]).
  rewrite Hs in Hs'. injection Hs' as <- <-.
  destruct (encode_segments atJsonParser (fun _ => "") nodes 0 (Js.len title)
              bullet) as [Hseg Htext].
  assert (Hranges : block_ranges (annotations s)
                    = tiling atJsonParser (Js.len title) (dfs_forest 0 nodes)).
  { rewrite <- block_ranges_anonymous, Ha, block_ranges_anonymous.
    rewrite <- block_ranges_bulleted, Hseg, block_ranges_bulleted.
    now apply block_ranges_segments. }
  exists title, parentUuid, (annotations s). cbn [content annotations].
  rewrite Hranges, Hc, Htext.
  split; [reflexivity | split; [| split]].
  - pose proof (slice_middle "" title (plain_text atJsonParser (dfs_forest 0 nodes)))
      as Hm.
    rewrite append_nil_l in Hm. change (Js.len "") with 0 in Hm.
    now rewrite Z.add_0_r in Hm.
  - rewrite len_append. apply tiling_chained.
  - pose proof (tiling_slices atJsonParser (dfs_forest 0 nodes) title "") as Ht.
    rewrite append_nil_r in Ht. rewrite Ht.
    rewrite <- (map_snd_dfs_forest nodes 0), map_map. reflexivity.
Qed.

Lemma calculateState_blocks_tile_the_content_witness :
  let doc :=
    resolved_with
      (calculateState star_parser demo_uuid
         "9e000000-0000-4000-8000-000000000000" (fresh_world demo_notebook)) in
  exists title parent rest,
    annotations doc
    = mkAnnotation 0 (Js.len title) (metadata title parent) :: rest
    /\ Js.slice (content doc) 0 (Js.len title) = title
    /\ chained (Js.len title) (Js.len (content doc)) (block_ranges rest)
    /\ map (fun r => Js.slice (content doc) (fst r) (snd r)) (block_ranges rest)
       = map (plain_of star_parser) (forest_nodes (nb_tree demo_notebook)).
Proof.
  cbn zeta.
  eapply (calculateState_blocks_tile_the_content star_parser demo_uuid
            "9e000000-0000-4000-8000-000000000000" (fresh_world demo_notebook)).
  - exact star_parser_inline_only.
  - vm_compute. reflexivity.
  - vm_compute. reflexivity.
Defined.

(** X4. Once [toAtJson] has run, every block of the forest has an identifier
    in the store, the block annotations carry these identifiers in
    depth-first order, and a second run draws no uuid, writes nothing and
    resolves with the same document. *)
Theorem toAtJson_settles_the_identifiers {H : Type} `{Editor H}
  (atJsonParser : string -> InputSchema) (v4 : nat -> string)
  (nodes : list BlockEntity) (level startIndex : Z) (viewType : ViewType)
  (w : World H) :
  (forall k, Js.truthy (v4 k) = true) ->
  inline_only atJsonParser ->
  exists s w',
    toAtJson atJsonParser v4 nodes level startIndex viewType w = (Resolved s, w')
    /\ extends w w'
    /\ populated w' (forest_nodes nodes)
    /\ block_identifiers (annotations s)
       = map (fun f => global_of w' (BlockEntity.uuid f)) (forest_nodes nodes)
    /\ toAtJson atJsonParser v4 nodes level startIndex viewType w'
       = (Resolved s, w').
Proof.
  intros Hv4 Hinline.
  destruct (toAtJson_stores atJsonParser v4 Hv4 nodes level startIndex
              viewType w) as (w' & Hrun & _ & Hext & Hpop).
  eexists _, w'. split; [exact Hrun | split; [exact Hext | split; [exact Hpop |]]].
  split.
  - destruct (encode_segments atJsonParser (global_of w') nodes level
                startIndex viewType) as [Hseg _].
    rewrite <- block_identifiers_bulleted, Hseg, block_identifiers_bulleted.
    rewrite block_identifiers_segments by exact Hinline.
    rewrite <- (map_snd_dfs_forest nodes level), map_map. reflexivity.
  - now apply toAtJson_pure.
Qed.

Lemma demo_uuid_truthy : forall k, Js.truthy (demo_uuid k) = true.
Proof. intros [|[|[|k]]]; reflexivity. Qed.

Lemma toAtJson_settles_the_identifiers_witness :
  exists s w',
    toAtJson star_parser demo_uuid (nb_tree demo_notebook) 0 0 bullet
      (fresh_world demo_notebook) = (Resolved s, w')
    /\ extends (fresh_world demo_notebook) w'
    /\ populated w' (forest_nodes (nb_tree demo_notebook))
    /\ block_identifiers (annotations s)
       = map (fun f => global_of w' (BlockEntity.uuid f))
           (forest_nodes (nb_tree demo_notebook))
    /\ toAtJson star_parser demo_uuid (nb_tree demo_notebook) 0 0 bullet w'
       = (Resolved s, w').
Proof.
  exact (toAtJson_settles_the_identifiers star_parser demo_uuid
           (nb_tree demo_notebook) 0 0 bullet (fresh_world demo_notebook)
           demo_uuid_truthy star_parser_inline_only).
Defined.

(** ** The tree [applyState] expects for an encoded document *)

Lemma ordinary_plain (ks : list string) : ordinary_keys ks -> plain_keys ks.
Proof.
  unfold ordinary_keys, plain_keys. apply List.Forall_impl. now intros k [Hk _].
Qed.

Section ReadBack.
Context (atJsonParser : string -> InputSchema).
Context (idof : string -> string).

Lemma read_encoded (nodes : list BlockEntity) (title parent : string) :
  Forall (spans_text atJsonParser) (forest_nodes nodes) ->
  List.NoDup (map (fun f => idof (BlockEntity.uuid f)) (forest_nodes nodes)) ->
  ordinary_keys (map (fun f => idof (BlockEntity.uuid f)) (forest_nodes nodes)) ->
  let s := encode atJsonParser idof nodes 0 (Js.len title) bullet in
  let blocks := dfs_forest 0 nodes in
  read_annotations
    (mkSchema (title +:+ content s)
       (mkAnnotation 0 (Js.len title) (metadata title parent) :: annotations s))
  = mkExpected
      (rebuild (nodes_with (plain_of atJsonParser) idof 0 blocks) [])
      (addresses idof 0 blocks)
      (ranges_made atJsonParser idof (Js.len title) blocks)
      (Some (title, parent)).
Proof.
  intros Hspans Hnd Hplain s blocks.
  destruct (encode_segments atJsonParser idof nodes 0 (Js.len title) bullet)
    as [Hseg Htext].
  fold s in Hseg, Htext. fold blocks in Hseg, Htext.
  unfold read_annotations. cbn [content annotations fold_left].
  change (read_annotation (title +:+ content s) no_expected
            (mkAnnotation 0 (Js.len title) (metadata title parent)))
    with (mkExpected [] [] [] (Some (title, parent))).
  rewrite (fold_read_bulleted _ _ _ _ Hseg).
  rewrite (read_segments atJsonParser idof blocks (title +:+ content s)
             (Js.len title) _ title "").
  - reflexivity.
  - now rewrite Htext, append_nil_r.
  - reflexivity.
  - now apply Forall_dfs_forest.
  - constructor.
  - unfold blocks. rewrite <- (map_snd_dfs_forest nodes 0), map_map in Hplain.
    exact Hplain.
  - cbn [contentAnnotations JsRecord.keys map app].
    unfold blocks. rewrite <- (map_snd_dfs_forest nodes 0), map_map in Hnd.
    exact Hnd.
  - reflexivity.
Qed.

Lemma write_encoded (nodes : list BlockEntity) (title parent : string) :
  Forall (spans_text atJsonParser) (forest_nodes nodes) ->
  List.NoDup (map (fun f => idof (BlockEntity.uuid f)) (forest_nodes nodes)) ->
  ordinary_keys (map (fun f => idof (BlockEntity.uuid f)) (forest_nodes nodes)) ->
  let s := encode atJsonParser idof nodes 0 (Js.len title) bullet in
  map (tree_map labelled)
    (write_blocks
       (read_annotations
          (mkSchema (title +:+ content s)
             (mkAnnotation 0 (Js.len title) (metadata title parent)
                :: annotations s))))
  = map (tree_map (fun f => (idof (BlockEntity.uuid f),
                             serialized atJsonParser f))) nodes.
Proof.
  intros Hspans Hnd Hplain s. unfold s.
  rewrite read_encoded by assumption.
  rewrite write_blocks_made.
  - rewrite tree_map_rebuild, nodes_with_labelled. cbn [map].
    rewrite <- (dfs_forest_tree_map
                  (fun f => (idof (BlockEntity.uuid f),
                             serialized atJsonParser f)) nodes 0).
    apply rebuild_dfs.
  - rewrite <- (map_snd_dfs_forest nodes 0), map_map in Hnd. exact Hnd.
Qed.

End ReadBack.

(** X2. The tree [applyState] expects for the document [calculateState]
    resolved with is the forest that was encoded: block for block the
    identifier the store now has for it, and as text what the serializer
    makes of the plain text and the annotations the parser read. This is
    so when every uuid drawn is a non-empty string, every annotation the
    parser returns for a block is an inline one that spans at least one
    character within the block's plain text, and the identifiers of the
    blocks differ from one another, are no array indices and none is
    [__proto__]. *)
Theorem applyState_reads_back_the_blocks {H : Type} `{Editor H}
  (atJsonParser : string -> InputSchema) (v4 : nat -> string)
  (notebookPageId : string) (w w' : World H) (doc : InputSchema)
  (nodes : list BlockEntity) :
  (forall k, Js.truthy (v4 k) = true) ->
  calculateState atJsonParser v4 notebookPageId w = (Resolved doc, w') ->
  nodes_read notebookPageId (host w) nodes ->
  Forall (spans_text atJsonParser) (forest_nodes nodes) ->
  List.NoDup (map (fun f => global_of w' (BlockEntity.uuid f))
                (forest_nodes nodes)) ->
  ordinary_keys (map (fun f => global_of w' (BlockEntity.uuid f))
                   (forest_nodes nodes)) ->
  map (tree_map labelled) (write_blocks (read_annotations doc))
  = map (tree_map (fun f => (global_of w' (BlockEntity.uuid f),
                             serialized atJsonParser f))) nodes.
Proof.
  intros Hv4 Hrun Hread Hspans Hnd Hplain.
  apply calculateState_inv in Hrun
      as (title & parentUuid & nodes' & s & w1 & Hread' & Hs & ->).
  rewrite <- (nodes_read_functional _ _ _ _ Hread Hread') in Hs. clear Hread'.
  destruct (toAtJson_stores atJsonParser v4 Hv4 nodes 0 (Js.len title) bullet
              w1) as (w2 & Hs' & _).
  rewrite Hs in Hs'. injection Hs' as -> <-.
  now apply write_encoded.
Qed.

(** ** Flattening two forests that agree *)

Section FlattenRelated.
Context {A B C : Type} (uA : A -> string) (uB : B -> string).
Context (gA : A -> C) (gB : B -> C).

Lemma flat_related_scope (ra rb : string) (scope scope' : list B)
  (ea : Flat A) (eb : Flat B) :
  (forall f, In f scope -> In f scope') ->
  flat_related uA uB gA gB ra rb scope ea eb ->
  flat_related uA uB gA gB ra rb scope' ea eb.
Proof.
  intros Hsub (Hn & Ho & Hp). split; [exact Hn | split; [exact Ho |]].
  destruct Hp as [Hp | (fa & fb & Hin & Hg & Hpa & Hpb)]; [now left | right].
  exists fa, fb. auto.
Qed.

Lemma flatMap_related (cha : list (Tree A)) :
  Forall (fun ta => forall tb, tree_map gA ta = tree_map gB tb ->
            forall ra rb order,
              Forall2 (flat_related uA uB gA gB ra rb (tree_nodes tb))
                (flattenNode uA ra order ta) (flattenNode uB rb order tb)) cha ->
  forall chb, map (tree_map gA) cha = map (tree_map gB) chb ->
    forall from ra rb,
      Forall2 (flat_related uA uB gA gB ra rb (forest_nodes chb))
        (flatMap_indexed (flattenNode uA ra) from cha)
        (flatMap_indexed (flattenNode uB rb) from chb).
Proof.
  induction 1 as [|ta cha Hta _ IH]; intros [|tb chb] Hmap from ra rb;
    try discriminate.
  - constructor.
  - cbn [map] in Hmap. injection Hmap as Ht Hch.
    cbn [flatMap_indexed]. apply List.Forall2_app.
    + eapply List.Forall2_impl; [| apply (Hta tb Ht)].
      intros ea eb. apply flat_related_scope.
      intros f Hf. unfold forest_nodes. cbn [map concat].
      apply in_app_iff. now left.
    + eapply List.Forall2_impl; [| apply (IH chb Hch)].
      intros ea eb. apply flat_related_scope.
      intros f Hf. unfold forest_nodes in *. cbn [map concat].
      apply in_app_iff. now right.
Qed.

Lemma flattenNode_related (ta : Tree A) :
  forall tb, tree_map gA ta = tree_map gB tb ->
    forall ra rb order,
      Forall2 (flat_related uA uB gA gB ra rb (tree_nodes tb))
        (flattenNode uA ra order ta) (flattenNode uB rb order tb).
Proof.
  induction ta as [fa cha IH] using Tree_induction.
  intros [fb chb] Hmap ra rb order. cbn [tree_map] in Hmap.
  injection Hmap as Hf Hch. cbn [flattenNode tree_nodes]. constructor.
  - split; [exact Hf | split; [reflexivity | now left]].
  - eapply List.Forall2_impl;
      [| apply (flatMap_related cha IH chb Hch O
                  (Js.or_else (uA fa) "") (Js.or_else (uB fb) ""))].
    intros ea eb (Hn & Ho & Hp). split; [exact Hn | split; [exact Ho |]].
    right. destruct Hp as [[Hpa Hpb] | (fa' & fb' & Hin & Hg & Hpa & Hpb)].
    + exists fa, fb. repeat split; auto. now left.
    + exists fa', fb'. repeat split; auto. right. exact Hin.
Qed.

(** Two forests that agree node for node flatten to entries that agree
    one for one. *)
Lemma flattenTree_related (TA : list (Tree A)) (TB : list (Tree B))
  (ra rb : string) :
  map (tree_map gA) TA = map (tree_map gB) TB ->
  Forall2 (flat_related uA uB gA gB ra rb (forest_nodes TB))
    (flattenTree uA TA ra) (flattenTree uB TB rb).
Proof.
  intros Hmap. unfold flattenTree. apply flatMap_related; [| exact Hmap].
  apply Forall_forall. intros ta _. apply flattenNode_related.
Qed.

End FlattenRelated.

Lemma Forall2_in_r {A B} (R : A -> B -> Prop) (l1 : list A) (l2 : list B)
  (b : B) :
  Forall2 R l1 l2 -> In b l2 -> exists a, In a l1 /\ R a b.
Proof.
  induction 1 as [|x y l1 l2 Hxy _ IH]; intros Hin; [destruct Hin |].
  destruct Hin as [<- | Hin].
  - exists x. split; [now left | exact Hxy].
  - destruct (IH Hin) as (a & Ha & Hab). exists a. split; [now right | exact Hab].
Qed.

Lemma Forall2_map_eq {A B C} (R : A -> B -> Prop) (g : A -> C) (g' : B -> C)
  (l1 : list A) (l2 : list B) :
  (forall a b, R a b -> g a = g' b) ->
  Forall2 R l1 l2 -> map g l1 = map g' l2.
Proof.
  intros Hg. induction 1 as [|x y l1 l2 Hxy _ IH]; [reflexivity |].
  cbn [map]. now rewrite (Hg _ _ Hxy), IH.
Qed.

Lemma filter_none {A} (f : A -> bool) (l : list A) :
  Forall (fun x => f x = false) l -> List.filter f l = [].
Proof.
  induction 1 as [|x l Hx _ IH]; [reflexivity |].
  cbn [List.filter]. now rewrite Hx.
Qed.

Lemma filter_all {A} (f : A -> bool) (l : list A) :
  Forall (fun x => f x = true) l -> List.filter f l = l.
Proof.
  induction 1 as [|x l Hx _ IH]; [reflexivity |].
  cbn [List.filter]. now rewrite Hx, IH.
Qed.

Lemma NoDup_map_on {A B} (g : A -> B) (l : list A) :
  List.NoDup l ->
  (forall x y, In x l -> In y l -> g x = g y -> x = y) ->
  List.NoDup (map g l).
Proof.
  induction 1 as [|x l Hx _ IH]; intros Hinj; [constructor |].
  cbn [map]. constructor.
  - intros Hin. apply in_map_iff in Hin as (y & Hy & Hin).
    apply Hx. rewrite (Hinj x y); auto; [now left | now right].
  - apply IH. intros a b Ha Hb. apply Hinj; now right.
Qed.

(** ** Runs that only read *)

Section Quiet.
Context {H : Type} `{Editor H}.

Lemma quiet_refl (w : World H) : quiet w w.
Proof. repeat split. Qed.

Lemma quiet_trans (w1 w2 w3 : World H) :
  quiet w1 w2 -> quiet w2 w3 -> quiet w1 w3.
Proof.
  intros (A1 & A2 & A3 & A4 & A5) (B1 & B2 & B3 & B4 & B5).
  repeat split; congruence.
Qed.

Lemma call_quiet (c : HostCall) (w : World H) (o : Outcome (Response c)) :
  is_mutation c = false ->
  perform c (host w) = (o, host w) ->
  exists w', call c w = (o, w') /\ quiet w w'.
Proof.
  intros Hc Hp. eexists. split.
  - unfold call. rewrite Hp. reflexivity.
  - repeat split. cbn [calls]. rewrite List.filter_app. cbn [List.filter].
    rewrite Hc. apply app_nil_r.
Qed.

Lemma global_of_quiet (w w' : World H) (u : string) :
  quiet w w' -> global_of w' u = global_of w u.
Proof. intros (_ & E & _). unfold global_of. now rewrite E. Qed.

Lemma local_of_quiet (w w' : World H) (g : string) :
  quiet w w' -> local_of w' g = local_of w g.
Proof. intros (_ & _ & E & _). unfold local_of. now rewrite E. Qed.

Lemma serves_page_quiet (notebookPageId : string) (w w' : World H)
  (p : PageEntity.t) (t : list BlockEntity) :
  quiet w w' ->
  serves_page notebookPageId (host w) p t ->
  serves_page notebookPageId (host w') p t.
Proof. intros (E & _). now rewrite E. Qed.

End Quiet.

Section OnPage.
Context {H : Type} `{Editor H}.
Context (atJsonParser : string -> InputSchema).
Context (v4 : nat -> string).
Context (notebookPageId : string).

Lemma calculateState_on_page (w : World H) (p : PageEntity.t)
  (t : list BlockEntity) :
  serves_page notebookPageId (host w) p t ->
  populated w (forest_nodes (List.filter isContentBlock t)) ->
  let title := PageEntity.originalName p in
  let s := encode atJsonParser (global_of w) (List.filter isContentBlock t) 0
             (Js.len title) bullet in
  exists w',
    calculateState atJsonParser v4 notebookPageId w
    = (Resolved
         (mkSchema (title +:+ content s)
            (mkAnnotation 0 (Js.len title) (metadata title "")
               :: annotations s)), w')
    /\ quiet w w'.
Proof.
  intros Hserve Hpop title s.
  destruct Hserve as (Hpage & Htree & Hblock & Hzero & Hpage0).
  destruct (call_quiet (GetPageByPropertyId notebookPageId) w _
              eq_refl Hpage) as (w1 & Hc1 & Hq1).
  assert (Htree1 := Htree). rewrite <- (proj1 Hq1) in Htree1.
  destruct (call_quiet (GetPageBlocksTree (PageEntity.originalName p)) w1 _
              eq_refl Htree1) as (w2 & Hc2 & Hq2).
  pose proof (quiet_trans _ _ _ Hq1 Hq2) as Hq12.
  assert (Hblock2 := Hblock). rewrite <- (proj1 Hq12) in Hblock2.
  destruct (call_quiet (GetBlock (ByUuid notebookPageId) false) w2 _
              eq_refl Hblock2) as (w3 & Hc3 & Hq3).
  pose proof (quiet_trans _ _ _ Hq12 Hq3) as Hq13.
  assert (Hzero3 := Hzero). rewrite <- (proj1 Hq13) in Hzero3.
  destruct (call_quiet (GetBlock (ById 0) false) w3 _ eq_refl Hzero3)
    as (w4 & Hc4 & Hq4).
  pose proof (quiet_trans _ _ _ Hq13 Hq4) as Hq14.
  assert (Hpage4 := Hpage0). rewrite <- (proj1 Hq14) in Hpage4.
  destruct (call_quiet (GetPage 0) w4 _ eq_refl Hpage4) as (w5 & Hc5 & Hq5).
  pose proof (quiet_trans _ _ _ Hq14 Hq5) as Hq15.
  exists w5. split; [| exact Hq15].
  unfold calculateState.
  erewrite bind_resolved by exact Hc1. cbv beta iota.
  erewrite bind_resolved by exact Hc2. cbv beta iota.
  erewrite bind_resolved by reflexivity.
  erewrite bind_resolved by exact Hc3. cbn [parent_id_or_0].
  erewrite bind_resolved by exact Hc4. cbv beta iota.
  erewrite bind_resolved;
    [| erewrite bind_resolved by exact Hc5; reflexivity].
  erewrite bind_resolved by reflexivity.
  erewrite bind_resolved.
  - reflexivity.
  - rewrite toAtJson_pure.
    + unfold s, title, global_of. now rewrite (proj1 (proj2 Hq15)).
    + eapply List.Forall_impl; [| exact Hpop]. intros f Hf. cbn beta in *.
      now rewrite (global_of_quiet _ _ _ Hq15).
Qed.

Lemma plan_on_page (state : InputSchema) (w : World H) (p : PageEntity.t)
  (t : list BlockEntity) :
  serves_page notebookPageId (host w) p t ->
  let expected :=
    expectedTreeMapping notebookPageId (write_blocks (read_annotations state)) in
  let actual := actualTreeMappingOf notebookPageId t in
  let es2l :=
    JsRecord.fromEntries
      (map (fun k => (k, local_of w k)) (JsRecord.keys expected)) in
  exists w',
    plan notebookPageId state w
    = (Resolved
         (mkPlan expected actual es2l
            (promises (metadata_seen (read_annotations state)) actual es2l)),
       w')
    /\ quiet w w'.
Proof.
  intros Hserve expected actual es2l.
  destruct Hserve as (Hpage & Htree & _).
  destruct (call_quiet (GetPageByPropertyId notebookPageId) w _
              eq_refl Hpage) as (w1 & Hc1 & Hq1).
  assert (Htree1 := Htree). rewrite <- (proj1 Hq1) in Htree1.
  destruct (call_quiet (GetPageBlocksTree (PageEntity.originalName p)) w1 _
              eq_refl Htree1) as (w2 & Hc2 & Hq2).
  pose proof (quiet_trans _ _ _ Hq1 Hq2) as Hq12.
  exists w2. split; [| exact Hq12].
  unfold plan.
  assert (Hactual : readActualTree notebookPageId w = (Resolved actual, w2)).
  { unfold readActualTree.
    erewrite bind_resolved by exact Hc1. cbv beta iota.
    erewrite bind_resolved;
      [| erewrite bind_resolved by exact Hc2; reflexivity].
    reflexivity. }
  erewrite bind_resolved by exact Hactual.
  erewrite bind_resolved by apply lookup_all_resolves.
  unfold mret, promise_ret, resolve. do 3 f_equal.
  - unfold es2l, expected, local_of. now rewrite (proj1 (proj2 (proj2 Hq12))).
  - unfold es2l, expected, local_of. now rewrite (proj1 (proj2 (proj2 Hq12))).
Qed.

Lemma initialPromise_same_title (w : World H) (p : PageEntity.t)
  (t : list BlockEntity) :
  serves_page notebookPageId (host w) p t ->
  Js.truthy (PageEntity.originalName p) = true ->
  exists w',
    initialPromise notebookPageId (Some (PageEntity.originalName p, "")) w
    = (Resolved tt, w')
    /\ quiet w w'.
Proof.
  intros (Hpage & _) Htitle.
  destruct (call_quiet (GetPageByPropertyId notebookPageId) w _
              eq_refl Hpage) as (w1 & Hc1 & Hq1).
  exists w1. split; [| exact Hq1].
  unfold initialPromise, catch. cbn [Js.truthy].
  erewrite bind_resolved;
    [| erewrite bind_resolved by exact Hc1; reflexivity].
  cbn [fmap option_fmap option_map]. unfold page_title. rewrite Htitle.
  unfold rename_or_retitle.
  rewrite bool_decide_eq_true_2 by reflexivity. reflexivity.
Qed.

End OnPage.

(** ** Encoding a page and applying the document to it *)

Section RoundTrip.
Context {H : Type} `{Editor H}.
Context (atJsonParser : string -> InputSchema).
Context (notebookPageId : string).
Context (w : World H).
Context (nodes : list BlockEntity).
Context (title parent : string).

Hypothesis stores : stores_agree w.
Hypothesis known : populated w (forest_nodes nodes).
Hypothesis distinct : List.NoDup (map BlockEntity.uuid (forest_nodes nodes)).
Hypothesis plain_local : plain_keys (map BlockEntity.uuid (forest_nodes nodes)).
Hypothesis ordinary_global :
  ordinary_keys
    (map (fun f => global_of w (BlockEntity.uuid f)) (forest_nodes nodes)).
Hypothesis page_is_no_block :
  ~ In notebookPageId
      (map (fun f => global_of w (BlockEntity.uuid f)) (forest_nodes nodes)).
Hypothesis spans : Forall (spans_text atJsonParser) (forest_nodes nodes).
Hypothesis same_text : Forall (reproduced atJsonParser) (forest_nodes nodes).

Lemma plain_global :
  plain_keys (map (fun f => global_of w (BlockEntity.uuid f)) (forest_nodes nodes)).
Proof. exact (ordinary_plain _ ordinary_global). Qed.

Lemma local_of_global (f : BlockEntity.t) :
  In f (forest_nodes nodes) ->
  local_of w (global_of w (BlockEntity.uuid f)) = BlockEntity.uuid f
  /\ BlockEntity.uuid f <> ""
  /\ global_of w (BlockEntity.uuid f) <> "".
Proof.
  intros Hf. unfold populated in known. rewrite List.Forall_forall in known.
  pose proof (known f Hf) as Ht. apply truthy_spec in Ht.
  destruct (proj1 (stores (BlockEntity.uuid f) _) (conj eq_refl Ht)) as [E N].
  auto.
Qed.

Lemma distinct_global :
  List.NoDup (map (fun f => global_of w (BlockEntity.uuid f)) (forest_nodes nodes)).
Proof.
  rewrite <- (map_map BlockEntity.uuid (global_of w)).
  apply NoDup_map_on; [exact distinct |].
  intros x y Hx Hy E.
  apply in_map_iff in Hx as (fx & <- & Hfx).
  apply in_map_iff in Hy as (fy & <- & Hfy).
  destruct (local_of_global fx Hfx) as (Ex & _).
  destruct (local_of_global fy Hfy) as (Ey & _).
  congruence.
Qed.

Local Abbreviation doc :=
  (encoded_page atJsonParser (global_of w) nodes title parent).
Local Abbreviation expectedTree' := (write_blocks (read_annotations doc)).
Local Abbreviation expected := (expectedTreeMapping notebookPageId expectedTree').
Local Abbreviation actual :=
  (JsRecord.fromEntries
     (map (fun n => (BlockEntity.uuid (node n), n))
        (flattenTree BlockEntity.uuid nodes notebookPageId))).
Local Abbreviation es2l :=
  (JsRecord.fromEntries
     (map (fun k => (k, local_of w k)) (JsRecord.keys expected))).
Local Abbreviation FE :=
  (flattenTree InputTextNode.uuid expectedTree' notebookPageId).
Local Abbreviation FA := (flattenTree BlockEntity.uuid nodes notebookPageId).
Local Abbreviation gids :=
  (map (fun f => global_of w (BlockEntity.uuid f)) (forest_nodes nodes)).

Lemma metadata_of_doc :
  metadata_seen (read_annotations doc) = Some (title, parent).
Proof.
  unfold encoded_page.
  rewrite read_encoded; auto using distinct_global, ordinary_global.
Qed.

Lemma flat_entries_related :
  Forall2
    (flat_related InputTextNode.uuid BlockEntity.uuid labelled
       (fun f => (global_of w (BlockEntity.uuid f), serialized atJsonParser f))
       notebookPageId notebookPageId (forest_nodes nodes))
    FE FA.
Proof.
  apply flattenTree_related. unfold encoded_page.
  apply write_encoded; auto using distinct_global, ordinary_global.
Qed.

Lemma FE_keys : map (fun n => InputTextNode.uuid (node n)) FE = gids.
Proof.
  rewrite (Forall2_map_eq
             (flat_related InputTextNode.uuid BlockEntity.uuid labelled
                (fun f => (global_of w (BlockEntity.uuid f),
                           serialized atJsonParser f))
                notebookPageId notebookPageId (forest_nodes nodes))
             (fun n => InputTextNode.uuid (node n))
             (fun n => global_of w (BlockEntity.uuid (node n))) FE FA).
  2: { intros a b (E & _). now injection E. }
  2: { exact flat_entries_related. }
  rewrite <- (flattenTree_nodes BlockEntity.uuid nodes notebookPageId).
  now rewrite map_map.
Qed.

Lemma FA_keys :
  map (fun n => BlockEntity.uuid (node n)) FA
  = map BlockEntity.uuid (forest_nodes nodes).
Proof.
  rewrite <- (flattenTree_nodes BlockEntity.uuid nodes notebookPageId).
  now rewrite map_map.
Qed.

Lemma expected_entries_made :
  expected = map (fun n => (InputTextNode.uuid (node n), n)) FE.
Proof.
  unfold expectedTreeMapping.
  rewrite filter_all.
  - apply fromEntries_plain.
    + apply Forall_map. unfold compose. cbn [fst].
      pose proof plain_global as Hp. unfold plain_keys in Hp.
      rewrite <- FE_keys in Hp.
      exact (proj1 (List.Forall_map _ _ _) Hp).
    + rewrite map_map. cbn [fst]. rewrite FE_keys. apply distinct_global.
  - pose proof known as Hk. unfold populated in Hk.
    apply (proj2 (List.Forall_map (fun f => global_of w (BlockEntity.uuid f))
                    (fun g => Js.truthy g = true) _)) in Hk.
    rewrite <- FE_keys in Hk.
    exact (proj1 (List.Forall_map _ _ _) Hk).
Qed.

Lemma actual_entries_made :
  actual = map (fun n => (BlockEntity.uuid (node n), n)) FA.
Proof.
  apply fromEntries_plain.
  - apply Forall_map. unfold compose. cbn [fst].
    pose proof plain_local as Hp. unfold plain_keys in Hp.
    rewrite <- FA_keys in Hp.
    exact (proj1 (List.Forall_map _ _ _) Hp).
  - rewrite map_map. cbn [fst]. rewrite FA_keys. exact distinct.
Qed.

Lemma expected_keys : JsRecord.keys expected = gids.
Proof.
  rewrite expected_entries_made. unfold JsRecord.keys.
  rewrite map_map. cbn [fst]. apply FE_keys.
Qed.

Lemma es2l_made : es2l = map (fun k => (k, local_of w k)) gids.
Proof.
  rewrite expected_keys. apply fromEntries_plain.
  - apply Forall_map. unfold compose. cbn [fst]. exact plain_global.
  - rewrite map_map. cbn [fst]. rewrite map_id. apply distinct_global.
Qed.

Lemma in_es2l (g u : string) :
  In (g, u) es2l ->
  exists f, In f (forest_nodes nodes)
            /\ g = global_of w (BlockEntity.uuid f)
            /\ u = BlockEntity.uuid f.
Proof.
  rewrite es2l_made. intros Hin. apply in_map_iff in Hin as (k & [= <- <-] & Hk).
  apply in_map_iff in Hk as (f & <- & Hf).
  exists f. destruct (local_of_global f Hf) as (E & _). auto.
Qed.

Lemma get_es2l (f : BlockEntity.t) :
  In f (forest_nodes nodes) ->
  JsRecord.get (global_of w (BlockEntity.uuid f)) es2l
  = Some (BlockEntity.uuid f).
Proof.
  intros Hf. apply in_get_nodup.
  - rewrite es2l_made. unfold JsRecord.keys. rewrite map_map. cbn [fst].
    rewrite map_id. apply distinct_global.
  - rewrite es2l_made. apply in_map_iff.
    exists (global_of w (BlockEntity.uuid f)). split.
    + f_equal. now destruct (local_of_global f Hf).
    + apply in_map_iff. now exists f.
Qed.

Lemma actual_has (f : BlockEntity.t) :
  In f (forest_nodes nodes) -> JsRecord.has (BlockEntity.uuid f) actual = true.
Proof.
  intros Hf. apply has_in_keys. rewrite actual_entries_made.
  unfold JsRecord.keys. rewrite map_map. cbn [fst]. rewrite FA_keys.
  apply in_map_iff. now exists f.
Qed.

Lemma nothing_to_create : uuidsToCreate actual es2l = [].
Proof.
  unfold uuidsToCreate, JsRecord.entries. apply filter_none.
  apply List.Forall_forall. intros [g u] Hin.
  destruct (in_es2l g u Hin) as (f & Hf & -> & ->). cbn [snd].
  destruct (local_of_global f Hf) as (_ & Hne & _).
  apply truthy_spec in Hne. now rewrite Hne, actual_has.
Qed.

Lemma nothing_to_delete : uuidsToDelete actual es2l = [].
Proof.
  unfold uuidsToDelete. apply filter_none.
  apply List.Forall_forall. intros k Hk. apply negb_false_iff.
  apply in_existsb_eqb. unfold expectedUuids. apply filter_In.
  rewrite actual_entries_made in Hk. unfold JsRecord.keys in Hk.
  rewrite map_map in Hk. cbn [fst] in Hk. rewrite FA_keys in Hk.
  apply in_map_iff in Hk as (f & <- & Hf).
  destruct (local_of_global f Hf) as (E & Hne & _). split.
  - unfold JsRecord.values. apply in_map_iff.
    exists (global_of w (BlockEntity.uuid f), BlockEntity.uuid f).
    split; [reflexivity |]. apply get_some_in. now apply get_es2l.
  - now apply truthy_spec.
Qed.

Lemma all_to_update : uuidsToUpdate actual es2l = es2l.
Proof.
  unfold uuidsToUpdate, JsRecord.entries. apply filter_all.
  apply List.Forall_forall. intros [g u] Hin.
  destruct (in_es2l g u Hin) as (f & Hf & -> & ->). cbn [snd].
  now apply actual_has.
Qed.

(** No block is moved and none is rewritten. *)
Lemma updateOp_leaves_the_block (g u : string) (w0 : World H) :
  In (g, u) es2l ->
  updateOp notebookPageId expected actual g u es2l w0 = (Resolved tt, w0).
Proof.
  intros Hin. destruct (in_es2l g u Hin) as (f & Hf & -> & ->).
  assert (Ha : exists a, In a FA /\ node a = f).
  { rewrite <- (flattenTree_nodes BlockEntity.uuid nodes notebookPageId) in Hf.
    apply in_map_iff in Hf as (a & <- & Ha). now exists a. }
  destruct Ha as (a & Ha & <-).
  destruct (Forall2_in_r _ _ _ _ flat_entries_related Ha)
    as (e & He & Hlab & Hord & Hpar).
  injection Hlab as Hid Htext.
  assert (Hge : JsRecord.get (global_of w (BlockEntity.uuid (node a))) expected
                = Some e).
  { apply in_get_nodup.
    - rewrite expected_keys. apply distinct_global.
    - rewrite expected_entries_made. apply in_map_iff. exists e.
      split; [now rewrite Hid | exact He]. }
  assert (Hga : JsRecord.get (BlockEntity.uuid (node a)) actual = Some a).
  { apply in_get_nodup.
    - rewrite actual_entries_made. unfold JsRecord.keys.
      rewrite map_map. cbn [fst]. rewrite FA_keys. exact distinct.
    - rewrite actual_entries_made. apply in_map_iff. now exists a. }
  unfold updateOp. rewrite Hge, Hga.
  assert (Hsame : serialized atJsonParser (node a) = BlockEntity.content (node a)).
  { pose proof same_text as Hs. rewrite List.Forall_forall in Hs.
    now apply Hs. }
  rewrite Htext, Hsame, String.eqb_refl, Hord, Nat.eqb_refl.
  destruct Hpar as [[Hpe Hpa] | (fa & fb & Hfb & Hlab' & Hpe & Hpa)].
  - rewrite Hpe, Hpa, String.eqb_refl.
    rewrite bool_decide_eq_true_2 by reflexivity. reflexivity.
  - injection Hlab' as Hid' _.
    destruct (local_of_global fb Hfb) as (_ & Hnb & Hng).
    apply truthy_spec in Hnb. apply truthy_spec in Hng.
    rewrite Hpe, Hpa, Hid'. unfold Js.or_else. rewrite Hnb, Hng.
    replace (String.eqb (global_of w (BlockEntity.uuid fb)) notebookPageId)
      with false.
    + rewrite (get_es2l fb Hfb).
      rewrite bool_decide_eq_true_2 by reflexivity. reflexivity.
    + symmetry. apply String.eqb_neq. intros E. apply page_is_no_block.
      rewrite <- E. apply in_map_iff. now exists fb.
Qed.

Lemma updates_leave_the_blocks (l : list (string * string)) :
  (forall e, In e l -> In e es2l) ->
  forall w0 : World H,
    chain
      (map (run_op notebookPageId expected actual)
         (map (fun e => UpdateOrMove (fst e) (snd e)) l)) es2l w0
    = (Resolved es2l, w0).
Proof.
  induction l as [|[g u] l IH]; intros Hl w0; [reflexivity |].
  cbn [map chain fst snd run_op].
  erewrite bind_resolved.
  - apply IH. intros e He. apply Hl. now right.
  - erewrite bind_resolved
      by (apply updateOp_leaves_the_block; apply Hl; now left).
    reflexivity.
Qed.

(** The operations planned for the document: the metadata operation and
    an update-or-move for every block, each of which finds its block in
    place. *)
Lemma run_ops_only_reads (w0 : World H) (p : PageEntity.t)
  (t : list BlockEntity) :
  title = PageEntity.originalName p -> parent = "" ->
  serves_page notebookPageId (host w0) p t ->
  Js.truthy (PageEntity.originalName p) = true ->
  exists w',
    run_ops notebookPageId expected actual
      (promises (metadata_seen (read_annotations doc)) actual es2l) es2l w0
    = (Resolved es2l, w')
    /\ quiet w0 w'.
Proof.
  intros Etitle Eparent Hserve Htruthy.
  destruct (initialPromise_same_title notebookPageId w0 p t Hserve Htruthy)
    as (w1 & Hinit & Hq).
  exists w1. split; [| exact Hq].
  unfold run_ops, promises.
  rewrite nothing_to_delete, nothing_to_create, all_to_update, metadata_of_doc.
  cbn [map app chain run_op].
  rewrite <- Etitle, <- Eparent in Hinit.
  erewrite bind_resolved;
    [| erewrite bind_resolved by exact Hinit; reflexivity].
  apply updates_leave_the_blocks. auto.
Qed.

End RoundTrip.


Lemma outline_blocks :
  forest_nodes (List.filter isContentBlock (nb_tree outline))
  = [BlockEntity.mk "a1000000-0000-4000-8000-000000000000" "**hello**" 0
       None None;
     BlockEntity.mk "a2000000-0000-4000-8000-000000000000" "world" 0 None None;
     BlockEntity.mk "a3000000-0000-4000-8000-000000000000" "bye" 0 None None].
Proof. vm_compute. reflexivity. Qed.


(** ** The page states *)

Lemma slash_free_after (b i : string) :
  slash_free (b +:+ String "/" i) = false.
Proof.
  induction b as [|c b IH].
  - rewrite append_nil_l. reflexivity.
  - rewrite append_cons. cbn [slash_free all_chars].
    unfold slash_free in IH. rewrite IH. apply andb_false_r.
Qed.

Lemma slash_splits (a b i j : string) :
  slash_free i = true -> slash_free j = true ->
  a +:+ String "/" i = b +:+ String "/" j -> a = b /\ i = j.
Proof.
  intros Hi Hj. revert b. induction a as [|c a IH]; intros [|d b] E.
  - rewrite !append_nil_l in E. injection E as E. now split.
  - rewrite append_nil_l, append_cons in E. injection E as <- E.
    subst i. now rewrite slash_free_after in Hi.
  - rewrite append_nil_l, append_cons in E. injection E as -> E.
    subst j. now rewrite slash_free_after in Hj.
  - rewrite !append_cons in E. injection E as -> E.
    destruct (IH b E) as [-> ->]. now split.
Qed.

(** X15. A state saved for a page is the state loaded for it, until it is
    removed; saving or removing the state of a page leaves alone the state
    of a page with another id, or of the same id in a graph of another
    name, as long as page ids hold no slash. A graph without a name and
    a graph named ["null"] share their keys. *)
Theorem page_states_are_kept_apart {V : Type} (graphName : option string)
  (notebookPageId : string) (state : V) (pages : gmap string V) :
  PageStates.loadState graphName notebookPageId
    (PageStates.saveState graphName notebookPageId state pages) = Some state
  /\ PageStates.loadState graphName notebookPageId
       (PageStates.removeState graphName notebookPageId pages) = None
  /\ (forall graphName' notebookPageId',
         slash_free notebookPageId = true ->
         slash_free notebookPageId' = true ->
         (Js.or_else (default "" graphName') "null"
          <> Js.or_else (default "" graphName) "null"
          \/ notebookPageId' <> notebookPageId) ->
         PageStates.loadState graphName' notebookPageId'
           (PageStates.saveState graphName notebookPageId state pages)
         = PageStates.loadState graphName' notebookPageId' pages
         /\ PageStates.loadState graphName' notebookPageId'
              (PageStates.removeState graphName notebookPageId pages)
            = PageStates.loadState graphName' notebookPageId' pages)
  /\ PageStates.key None notebookPageId
     = PageStates.key (Some "null") notebookPageId
  /\ PageStates.key (Some "") notebookPageId
     = PageStates.key (Some "null") notebookPageId.
Proof.
  unfold PageStates.loadState, PageStates.saveState, PageStates.removeState.
  split; [apply lookup_insert_eq |].
  split; [apply lookup_delete_eq |].
  split; [| split; reflexivity].
  intros graphName' notebookPageId' Hs Hs' Hdiff.
  assert (Hkey : PageStates.key graphName notebookPageId
                 <> PageStates.key graphName' notebookPageId').
  { unfold PageStates.key. intros E.
    change ("/" +:+ notebookPageId) with (String "/" notebookPageId) in E.
    change ("/" +:+ notebookPageId') with (String "/" notebookPageId') in E.
    apply slash_splits in E as [E1 E2]; [| assumption | assumption].
    destruct Hdiff as [Hd | Hd]; congruence. }
  split.
  - now apply lookup_insert_ne.
  - now apply lookup_delete_ne.
Qed.

(** ** The three classes of identifiers *)

(** X14. Every desired identifier is in the list to create or in the list to
    update, and in both only when the store has the empty local id for it
    and the actual tree has a block without uuid; a block that is updated
    under a local id that is not empty is not deleted. *)
Theorem desired_blocks_are_created_or_updated
  (actualTreeMapping : JsRecord.t (Flat BlockEntity.t))
  (expectedSamepageToLogseq : JsRecord.t string) :
  (forall e, In e (JsRecord.entries expectedSamepageToLogseq) ->
     In e (uuidsToCreate actualTreeMapping expectedSamepageToLogseq)
     \/ In e (uuidsToUpdate actualTreeMapping expectedSamepageToLogseq))
  /\ (forall e,
        In e (uuidsToCreate actualTreeMapping expectedSamepageToLogseq) ->
        In e (uuidsToUpdate actualTreeMapping expectedSamepageToLogseq) ->
        snd e = "" /\ JsRecord.has "" actualTreeMapping = true)
  /\ (forall e,
        In e (uuidsToUpdate actualTreeMapping expectedSamepageToLogseq) ->
        snd e <> "" ->
        ~ In (snd e) (uuidsToDelete actualTreeMapping expectedSamepageToLogseq)).
Proof.
  unfold uuidsToCreate, uuidsToUpdate, uuidsToDelete, expectedUuids.
  split; [| split].
  - intros e He. rewrite !filter_In.
    destruct (JsRecord.has (snd e) actualTreeMapping) eqn:Hhas.
    + right. now split.
    + left. split; [exact He |]. now rewrite orb_true_r.
  - intros e. rewrite !filter_In. intros [_ Hc] [_ Hu].
    rewrite Hu in Hc. cbn in Hc. rewrite orb_false_r in Hc.
    apply negb_true_iff in Hc.
    assert (E : snd e = "") by (destruct (snd e); [reflexivity | discriminate]).
    split; [exact E |]. now rewrite <- E.
  - intros e. rewrite !filter_In. intros [He Hu] Hne [_ Hd].
    apply negb_true_iff in Hd. apply not_true_iff_false in Hd. apply Hd.
    apply in_existsb_eqb. apply filter_In. split.
    + unfold JsRecord.values, JsRecord.entries in *. apply in_map_iff.
      now exists e.
    + now apply truthy_spec.
Qed.

(** ** [calculateState] for an id no page carries *)

(** X13. When no page carries the id, the document has the title and nothing
    else: the metadata annotation over the whole content and no block. *)
Theorem calculateState_without_a_page {H : Type} `{Editor H}
  (atJsonParser : string -> InputSchema) (v4 : nat -> string)
  (notebookPageId : string) (w w' : World H) (doc : InputSchema) (h : H) :
  perform (GetPageByPropertyId notebookPageId) (host w) = (Resolved None, h) ->
  calculateState atJsonParser v4 notebookPageId w = (Resolved doc, w') ->
  exists title parent,
    doc = mkSchema title [mkAnnotation 0 (Js.len title) (metadata title parent)]
    /\ logseq_to_samepage w' = logseq_to_samepage w
    /\ samepage_to_logseq w' = samepage_to_logseq w
    /\ drawn w' = drawn w.
Proof.
  intros Hpage Hrun. unfold calculateState in Hrun.
  bind_inv Hrun.
  apply (call_inv (GetPageByPropertyId notebookPageId)) in Hm as (h0 & Hp0 & ->).
  rewrite Hpage in Hp0. injection Hp0 as <- <-.
  bind_inv Hrun. injection Hm as <- <-.
  bind_inv Hrun. injection Hm as <- <-. cbn [List.filter] in Hrun.
  bind_inv Hrun.
  apply (call_inv (GetBlock (ByUuid notebookPageId) false)) in Hm
      as (h1 & _ & ->).
  bind_inv Hrun.
  apply (call_inv (GetBlock (ById (parent_id_or_0 a)) false)) in Hm
      as (h2 & _ & ->).
  bind_inv Hrun.
  assert (Hw0 : logseq_to_samepage w0 = logseq_to_samepage w
                /\ samepage_to_logseq w0 = samepage_to_logseq w
                /\ drawn w0 = drawn w).
  { destruct a0 as [par|].
    - destruct (Js.truthy (BlockEntity.uuid (fields par))).
      + injection Hm as _ <-. now cbn.
      + bind_inv Hm.
        apply (call_inv (GetPage (parent_id_or_0 a))) in Hm0 as (h3 & _ & ->).
        injection Hm as _ <-. now cbn.
    - bind_inv Hm.
      apply (call_inv (GetPage (parent_id_or_0 a))) in Hm0 as (h3 & _ & ->).
      injection Hm as _ <-. now cbn. }
  destruct Hw0 as (E1 & E2 & E3).
  bind_inv Hrun. bind_inv Hm0.
  apply (call_inv (GetBlock (ByUuid notebookPageId) false)) in Hm1
      as (h4 & _ & ->).
  injection Hm0 as <- <-.
  bind_inv Hrun. injection Hm0 as <- <-. injection Hrun as <- <-.
  eexists _, _. cbn [content annotations]. rewrite append_nil_r.
  split; [reflexivity |]. cbn. tauto.
Qed.

Lemma calculateState_without_a_page_witness :
  let w := fresh_world (mkNotebook None [] [] false O) in
  let run := calculateState star_parser demo_uuid "no such page" w in
  exists title parent,
    resolved_with run
    = mkSchema title [mkAnnotation 0 (Js.len title) (metadata title parent)]
    /\ logseq_to_samepage (snd run) = logseq_to_samepage w
    /\ samepage_to_logseq (snd run) = samepage_to_logseq w
    /\ drawn (snd run) = drawn w.
Proof.
  cbn zeta.
  assert (Hrun :
    calculateState star_parser demo_uuid "no such page"
      (fresh_world (mkNotebook None [] [] false O))
    = (Resolved
         (resolved_with
            (calculateState star_parser demo_uuid "no such page"
               (fresh_world (mkNotebook None [] [] false O)))),
       snd (calculateState star_parser demo_uuid "no such page"
              (fresh_world (mkNotebook None [] [] false O)))))
    by (vm_compute; reflexivity).
  exact (calculateState_without_a_page star_parser demo_uuid "no such page"
           (fresh_world (mkNotebook None [] [] false O)) _ _
           (mkNotebook None [] [] false O) eq_refl Hrun).
Defined.

(** ** A document for a page the notebook does not have *)

(** X11. When the notebook has neither a page nor a block for the id, a
    document with a metadata annotation is rejected by its first
    operation, after reading only: no block is removed, inserted, moved or
    updated, whatever else the document holds. *)
Theorem applyState_without_the_page {H : Type} `{Editor H}
  (notebookPageId : string) (state : InputSchema) (w : World H)
  (title parent : string) :
  perform (GetPageByPropertyId notebookPageId) (host w)
  = (Resolved None, host w) ->
  perform (GetBlock (ByUuid notebookPageId) false) (host w)
  = (Resolved None, host w) ->
  metadata_seen (read_annotations state) = Some (title, parent) ->
  exists w',
    applyState notebookPageId state w
    = (Rejected ("Failed to initialize page metadata: Missing page with id: "
                   +:+ notebookPageId), w')
    /\ quiet w w'.
Proof.
  intros Hpage Hblock Hmeta.
  destruct (call_quiet (GetPageByPropertyId notebookPageId) w _ eq_refl Hpage)
    as (w1 & Hc1 & Hq1).
  assert (Hplan :
    plan notebookPageId state w
    = (Resolved
         (mkPlan
            (expectedTreeMapping notebookPageId
               (write_blocks (read_annotations state)))
            (actualTreeMappingOf notebookPageId [])
            (JsRecord.fromEntries
               (map (fun k => (k, local_of w1 k))
                  (JsRecord.keys
                     (expectedTreeMapping notebookPageId
                        (write_blocks (read_annotations state))))))
            (promises (Some (title, parent))
               (actualTreeMappingOf notebookPageId [])
               (JsRecord.fromEntries
                  (map (fun k => (k, local_of w1 k))
                     (JsRecord.keys
                        (expectedTreeMapping notebookPageId
                           (write_blocks (read_annotations state)))))))),
       w1)).
  { unfold plan.
    erewrite bind_resolved.
    2: { unfold readActualTree. erewrite bind_resolved by exact Hc1.
         cbv beta iota. erewrite bind_resolved by reflexivity. reflexivity. }
    erewrite bind_resolved by apply lookup_all_resolves.
    now rewrite Hmeta. }
  assert (Hinit : exists w2,
    initialPromise notebookPageId (Some (title, parent)) w1
    = (Rejected ("Failed to initialize page metadata: Missing page with id: "
                   +:+ notebookPageId), w2)
    /\ quiet w1 w2).
  { unfold initialPromise, catch. destruct (Js.truthy parent).
    - assert (Hblock1 := Hblock). rewrite <- (proj1 Hq1) in Hblock1.
      destruct (call_quiet (GetBlock (ByUuid notebookPageId) false) w1 _
                  eq_refl Hblock1) as (w2 & Hc2 & Hq2).
      exists w2. split; [| exact Hq2].
      erewrite bind_resolved;
        [| erewrite bind_resolved by exact Hc2; reflexivity].
      reflexivity.
    - assert (Hpage1 := Hpage). rewrite <- (proj1 Hq1) in Hpage1.
      destruct (call_quiet (GetPageByPropertyId notebookPageId) w1 _
                  eq_refl Hpage1) as (w2 & Hc2 & Hq2).
      exists w2. split; [| exact Hq2].
      erewrite bind_resolved;
        [| erewrite bind_resolved by exact Hc2; reflexivity].
      reflexivity. }
  destruct Hinit as (w2 & Hinit & Hq2).
  exists w2. split; [| exact (quiet_trans _ _ _ Hq1 Hq2)].
  unfold applyState. erewrite bind_resolved by exact Hplan.
  cbn [plan_expected plan_actual plan_ops plan_samepageToLogseq].
  unfold run_ops, promises. cbn [app map chain run_op].
  erewrite bind_rejected; [reflexivity |].
  erewrite bind_rejected; [reflexivity | exact Hinit].
Qed.

Lemma applyState_without_the_page_witness :
  exists w',
    applyState "9e000000-0000-4000-8000-000000000000" two_new_blocks
      (fresh_world (mkNotebook None [] [] false O))
    = (Rejected ("Failed to initialize page metadata: Missing page with id: "
                   +:+ "9e000000-0000-4000-8000-000000000000"), w')
    /\ quiet (fresh_world (mkNotebook None [] [] false O)) w'.
Proof.
  apply (applyState_without_the_page "9e000000-0000-4000-8000-000000000000"
           two_new_blocks (fresh_world (mkNotebook None [] [] false O))
           "Home" ""); reflexivity.
Defined.

(** ** What an insert leaves behind *)

Ltac bind_as Hb a w Hm :=
  apply bind_resolved_inv in Hb; destruct Hb as (a & w & Hm & Hb).

Section InsertFacts.
Context {H : Type} `{Editor H}.

Lemma catch_resolved_inv {A} (p : Promise H A) (f : string -> string)
  (w w' : World H) (a : A) :
  catch p (fun message => reject (f message)) w = (Resolved a, w') ->
  p w = (Resolved a, w').
Proof.
  unfold catch, reject. destruct (p w) as [[a0|m] w1]; intros E;
    [exact E | discriminate].
Qed.

Lemma call_stores (c : HostCall) (w w' : World H) (o : Outcome (Response c)) :
  call c w = (o, w') ->
  same_stores w w' /\ calls w' = calls w ++ [c].
Proof.
  intros Hc. apply call_inv in Hc as (h & _ & ->). repeat split.
Qed.

Lemma same_stores_trans (w1 w2 w3 : World H) :
  same_stores w1 w2 -> same_stores w2 w3 -> same_stores w1 w3.
Proof. intros [A B] [C D]. split; congruence. Qed.

Lemma stamp_id_inv (block : option BlockEntity) (w w' : World H) (u : string) :
  stamp_id block w = (Resolved (Some u), w') ->
  same_stores w w'
  /\ calls w' = calls w ++ [UpsertBlockProperty u "id" u].
Proof.
  destruct block as [b|]; cbn [stamp_id]; [| discriminate].
  intros Hrun. bind_as Hrun stamped w1 Hcall. injection Hrun as <- <-.
  now apply (call_stores (UpsertBlockProperty _ _ _)) in Hcall.
Qed.

End InsertFacts.



(** ** Renaming the page *)



(** ** Flattening *)

Lemma flatMap_indexed_top {A} (uuid : A -> string) (root : string)
  (tree : list (Tree A)) :
  forall from i t,
    nth_error tree i = Some t ->
    In (mkFlat (fields t) (from + i) root)
      (flatMap_indexed (flattenNode uuid root) from tree).
Proof.
  induction tree as [|t0 tree IH]; intros from i t Hi.
  - now destruct i.
  - cbn [flatMap_indexed]. apply in_app_iff. destruct i as [|i].
    + injection Hi as ->. left. rewrite Nat.add_0_r.
      destruct t as [f ch]. now left.
    + right. replace (from + S i)%nat with (S from + i)%nat by lia.
      now apply IH.
Qed.

(** X16. [flattenTree] lists every node of the forest once, in depth-first
    order; each entry names as its parent the root or a node listed before
    it; and the [i]-th tree of the forest is listed with the sibling index
    [i] under the root. *)
Theorem flattenTree_lists_parents_first {A : Type} (uuid : A -> string)
  (tree : list (Tree A)) (root : string) :
  map node (flattenTree uuid tree root) = forest_nodes tree
  /\ parents_first uuid root (flattenTree uuid tree root)
  /\ (forall i t, nth_error tree i = Some t ->
        In (mkFlat (fields t) i root) (flattenTree uuid tree root)).
Proof.
  split; [apply flattenTree_nodes |].
  split; [apply parents_first_flattenTree |].
  intros i t Hi. apply (flatMap_indexed_top uuid root tree O i t Hi).
Qed.

(** ** Examples *)

Lemma stores_stay_in_agreement_witness :
  stores_agree
    (snd (saveIdMap "b1000000-0000-4000-8000-000000000000"
            "44444444-4444-4444-8444-444444444444" three_blocks_world))
  /\ stores_agree
       (snd (removeLogseqUuid "a2000000-0000-4000-8000-000000000000"
               three_blocks_world)).
Proof.
  split.
  - apply (proj1 (stores_stay_in_agreement three_blocks_world
                    three_blocks_stores_agree));
      (discriminate || (vm_compute; reflexivity)).
  - apply (proj2 (stores_stay_in_agreement three_blocks_world
                    three_blocks_stores_agree)).
Defined.

Lemma applyState_reads_back_the_blocks_witness :
  let run :=
    calculateState star_parser demo_uuid
      "9e000000-0000-4000-8000-000000000000" (fresh_world demo_notebook) in
  map (tree_map labelled) (write_blocks (read_annotations (resolved_with run)))
  = map (tree_map (fun f => (global_of (snd run) (BlockEntity.uuid f),
                             serialized star_parser f)))
      (nb_tree demo_notebook).
Proof.
  cbn zeta.
  assert (Hrun :
    calculateState star_parser demo_uuid
      "9e000000-0000-4000-8000-000000000000" (fresh_world demo_notebook)
    = (Resolved
         (resolved_with
            (calculateState star_parser demo_uuid
               "9e000000-0000-4000-8000-000000000000"
               (fresh_world demo_notebook))),
       snd (calculateState star_parser demo_uuid
              "9e000000-0000-4000-8000-000000000000"
              (fresh_world demo_notebook))))
    by (vm_compute; reflexivity).
  assert (Hread :
    nodes_read "9e000000-0000-4000-8000-000000000000"
      (host (fresh_world demo_notebook)) (nb_tree demo_notebook))
    by (vm_compute; reflexivity).
  assert (Hblocks :
    forest_nodes (nb_tree demo_notebook)
    = [BlockEntity.mk "a1000000-0000-4000-8000-000000000000" "*hello" 0
         None None;
       BlockEntity.mk "a2000000-0000-4000-8000-000000000000" "world" 0
         None None;
       BlockEntity.mk "a3000000-0000-4000-8000-000000000000" "bye" 0
         None None]) by reflexivity.
  assert (Hids :
    map (fun f => global_of
                    (snd (calculateState star_parser demo_uuid
                            "9e000000-0000-4000-8000-000000000000"
                            (fresh_world demo_notebook)))
                    (BlockEntity.uuid f))
      (forest_nodes (nb_tree demo_notebook))
    = [demo_uuid 0; demo_uuid 1; demo_uuid 2]) by (vm_compute; reflexivity).
  apply (applyState_reads_back_the_blocks star_parser demo_uuid
           "9e000000-0000-4000-8000-000000000000" (fresh_world demo_notebook)
           _ _ (nb_tree demo_notebook) demo_uuid_truthy Hrun Hread).
  - rewrite Hblocks. unfold spans_text, plain_of.
    assert (H1 : parsed_of star_parser
                   (BlockEntity.mk "a1000000-0000-4000-8000-000000000000"
                      "*hello" 0 None None)
                 = mkSchema "hello" [mkAnnotation 0 5 bold])
      by (vm_compute; reflexivity).
    assert (H2 : parsed_of star_parser
                   (BlockEntity.mk "a2000000-0000-4000-8000-000000000000"
                      "world" 0 None None)
                 = mkSchema "world" []) by (vm_compute; reflexivity).
    assert (H3 : parsed_of star_parser
                   (BlockEntity.mk "a3000000-0000-4000-8000-000000000000"
                      "bye" 0 None None)
                 = mkSchema "bye" []) by (vm_compute; reflexivity).
    constructor; [| constructor; [| constructor; [| constructor]]].
    + rewrite H1. cbn [annotations content]. constructor; [| constructor].
      cbn. repeat split; try reflexivity; lia.
    + rewrite H2. constructor.
    + rewrite H3. constructor.
  - rewrite Hids. repeat constructor; cbn [In]; intuition discriminate.
  - rewrite Hids. repeat constructor; discriminate.
Defined.

(** ** The serializer on annotations in reading order *)

Lemma slice_length (s : string) (a b : Z) :
  0 <= a -> a <= b -> b <= Js.len s -> Js.len (Js.slice s a b) = b - a.
Proof.
  intros Ha Hab Hb. unfold Js.slice, Js.slice_index.
  replace (a <? 0) with false by (symmetry; apply Z.ltb_ge; lia).
  replace (b <? 0) with false by (symmetry; apply Z.ltb_ge; lia).
  rewrite !Z.min_l by lia. unfold Js.len in *.
  rewrite length_substring by lia. lia.
Qed.

Lemma slice_from_split (text : string) (pos s e : Z) :
  0 <= pos -> pos <= s -> s <= e -> e <= Js.len text ->
  Js.slice_from text pos
  = Js.slice text pos s +:+ Js.slice text s e +:+ Js.slice_from text e.
Proof.
  intros Hpos Hs He Hlen. unfold Js.slice_from, Js.slice, Js.slice_index.
  replace (pos <? 0) with false by (symmetry; apply Z.ltb_ge; lia).
  replace (s <? 0) with false by (symmetry; apply Z.ltb_ge; lia).
  replace (e <? 0) with false by (symmetry; apply Z.ltb_ge; lia).
  replace (Js.len text <? 0) with false by (symmetry; apply Z.ltb_ge; lia).
  rewrite !Z.min_l by lia.
  replace (Z.to_nat (Js.len text - pos))
    with (Z.to_nat (s - pos) + (Z.to_nat (e - s) + Z.to_nat (Js.len text - e)))%nat
    by lia.
  rewrite substring_cat. rewrite substring_cat.
  replace (Z.to_nat pos + Z.to_nat (s - pos))%nat with (Z.to_nat s) by lia.
  replace (Z.to_nat s + Z.to_nat (e - s))%nat with (Z.to_nat e) by lia.
  reflexivity.
Qed.

Lemma slice_head (mid post : string) :
  Js.slice (mid +:+ post) 0 (Js.len mid) = mid.
Proof.
  pose proof (slice_middle "" mid post) as Hm.
  rewrite append_nil_l in Hm. change (Js.len "") with 0 in Hm.
  now rewrite Z.add_0_r in Hm.
Qed.

Lemma slice_from_tail (pre post : string) :
  Js.slice_from (pre +:+ post) (Js.len pre) = post.
Proof.
  unfold Js.slice_from.
  pose proof (slice_middle pre post "") as Hm.
  rewrite append_nil_r in Hm.
  now rewrite len_append, Z.add_comm.
Qed.

Lemma slice_from_start (text : string) : Js.slice_from text 0 = text.
Proof.
  pose proof (slice_from_tail "" text) as Hm.
  now rewrite append_nil_l in Hm.
Qed.

Lemma in_reading_order_all (anns : list Annotation) :
  forall pos hi,
    in_reading_order pos hi anns ->
    pos <= hi
    /\ Forall (fun b => pos <= start b /\ start b < end_ b /\ end_ b <= hi) anns.
Proof.
  induction anns as [|a rest IH]; intros pos hi Hord.
  - split; [exact Hord | constructor].
  - destruct Hord as (Hs & He & Hrest).
    destruct (IH _ _ Hrest) as [Hhi Hall].
    split; [lia |]. constructor; [lia |].
    eapply List.Forall_impl; [| exact Hall].
    intros b Hb. cbn beta in *. lia.
Qed.

Lemma wrap_next (text done : string) (pos : Z) (a : Annotation) :
  0 <= pos -> pos <= start a -> start a <= end_ a -> end_ a <= Js.len text ->
  Serializer.wrap (done +:+ Js.slice_from text pos)
    (rebase (Js.len done - pos) a) (Serializer.appliedAnnotation a)
  = (done +:+ Js.slice text pos (start a)
       +:+ Serializer.prefix (Serializer.appliedAnnotation a)
       +:+ Js.slice text (start a) (end_ a)
       +:+ Serializer.suffix (Serializer.appliedAnnotation a))
      +:+ Js.slice_from text (end_ a).
Proof.
  intros Hpos Hs He Hlen. unfold Serializer.wrap, rebase. cbn [start end_].
  rewrite (slice_from_split text pos (start a) (end_ a)) by lia.
  set (t1 := Js.slice text pos (start a)).
  set (t2 := Js.slice text (start a) (end_ a)).
  set (t3 := Js.slice_from text (end_ a)).
  assert (H1 : Js.len t1 = start a - pos) by (apply slice_length; lia).
  assert (H2 : Js.len t2 = end_ a - start a) by (apply slice_length; lia).
  replace (start a + (Js.len done - pos)) with (Js.len (done +:+ t1))
    by (rewrite len_append; lia).
  replace (end_ a + (Js.len done - pos)) with (Js.len t2 + Js.len (done +:+ t1))
    by (rewrite len_append; lia).
  replace (done +:+ t1 +:+ t2 +:+ t3) with ((done +:+ t1) +:+ t2 +:+ t3)
    by (now rewrite !append_assoc).
  rewrite slice_head, slice_middle.
  replace (Js.len t2 + Js.len (done +:+ t1)) with (Js.len ((done +:+ t1) +:+ t2))
    by (rewrite !len_append; lia).
  replace ((done +:+ t1) +:+ t2 +:+ t3) with (((done +:+ t1) +:+ t2) +:+ t3)
    by (now rewrite !append_assoc).
  rewrite slice_from_tail. now rewrite !append_assoc.
Qed.

Lemma shift_next (done : string) (pos : Z) (a b : Annotation) :
  start a < end_ a -> end_ a <= start b -> start b < end_ b ->
  Serializer.shift (rebase (Js.len done - pos) a)
    (Serializer.appliedAnnotation a) (rebase (Js.len done - pos) b)
  = rebase (Js.len done - pos + delimiters a) b.
Proof.
  intros Ha Hab Hb. unfold Serializer.shift, rebase, delimiters.
  cbn [start end_ type].
  pose proof (len_nonneg (Serializer.prefix (Serializer.appliedAnnotation a))).
  pose proof (len_nonneg (Serializer.suffix (Serializer.appliedAnnotation a))).
  rewrite !Z.geb_leb, Z.gtb_ltb.
  replace (start a + (Js.len done - pos) <=? start b + (Js.len done - pos))
    with true by (symmetry; apply Z.leb_le; lia).
  replace (end_ a + (Js.len done - pos) <=? start b + (Js.len done - pos))
    with true by (symmetry; apply Z.leb_le; lia).
  replace (start a + (Js.len done - pos) <=? end_ b + (Js.len done - pos))
    with true by (symmetry; apply Z.leb_le; lia).
  replace (end_ a + (Js.len done - pos) <? end_ b + (Js.len done - pos))
    with true by (symmetry; apply Z.ltb_lt; lia).
  f_equal; lia.
Qed.

Lemma reduce_render (text : string) (anns : list Annotation) :
  forall (pos : Z) (done : string),
    0 <= pos ->
    in_reading_order pos (Js.len text) anns ->
    Serializer.reduce (List.length anns) (done +:+ Js.slice_from text pos)
      (map (rebase (Js.len done - pos)) anns)
    = done +:+ render text pos anns.
Proof.
  induction anns as [|a rest IH]; intros pos done Hpos Hord; [reflexivity |].
  destruct Hord as (Hs & He & Hrest).
  destruct (in_reading_order_all _ _ _ Hrest) as [Hhi Hall].
  cbn [List.length map Serializer.reduce Serializer.step render].
  change (Serializer.appliedAnnotation (rebase (Js.len done - pos) a))
    with (Serializer.appliedAnnotation a).
  rewrite wrap_next by lia.
  set (done' := done +:+ Js.slice text pos (start a)
                  +:+ Serializer.prefix (Serializer.appliedAnnotation a)
                  +:+ Js.slice text (start a) (end_ a)
                  +:+ Serializer.suffix (Serializer.appliedAnnotation a)).
  assert (Hlen : Js.len done' - end_ a = Js.len done - pos + delimiters a).
  { unfold done', delimiters. rewrite !len_append.
    rewrite !slice_length by lia. lia. }
  rewrite map_map.
  rewrite (map_ext_in _ (rebase (Js.len done' - end_ a))).
  - rewrite IH by (assumption || lia). unfold done'.
    now rewrite !append_assoc.
  - intros b Hb. rewrite List.Forall_forall in Hall.
    destruct (Hall b Hb) as (Hb1 & Hb2 & _).
    rewrite Hlen. now apply shift_next.
Qed.

(** X17. For annotations that follow one another through the text, none
    overlapping the next and each spanning at least one character, the
    serializer returns the text with the prefix and the suffix of each
    annotation written around its span. *)
Theorem annotatedText_wraps_each_span (text : string) (anns : list Annotation) :
  in_reading_order 0 (Js.len text) anns ->
  Serializer.annotatedText text anns = render text 0 anns.
Proof.
  intros Hord. unfold Serializer.annotatedText.
  pose proof (reduce_render text anns 0 "" (Z.le_refl 0) Hord) as Hr.
  rewrite !append_nil_l, slice_from_start in Hr.
  rewrite (map_ext _ id), map_id in Hr; [exact Hr |].
  intros [s e t]. unfold rebase, id. cbn [start end_ type].
  change (Js.len "") with 0. f_equal; lia.
Qed.

Lemma annotatedText_wraps_each_span_witness :
  Serializer.annotatedText "a bold and a struck word"
    [mkAnnotation 2 6 bold; mkAnnotation 13 19 strikethrough]
  = render "a bold and a struck word" 0
      [mkAnnotation 2 6 bold; mkAnnotation 13 19 strikethrough]
  /\ render "a bold and a struck word" 0
       [mkAnnotation 2 6 bold; mkAnnotation 13 19 strikethrough]
     = "a **bold** and a ~~struck~~ word".
Proof.
  split; [| reflexivity].
  apply annotatedText_wraps_each_span.
  cbn [in_reading_order start end_]. repeat split; now vm_compute.
Defined.
